(** * Invoice ingestion pipeline: identity normalizer, duplicate resolver,
      persistence coordinator and batch orchestrator

    A shallow embedding of
    - [src/lib/dataUtils.ts]            (standardizeVendorName; the invoice
                                         numbers, the vendor groups, the
                                         similarity and the export),
    - [src/app/dashboard/page.tsx]      (enhancedVendorNormalization, the
                                         client-side batching loop; the pages
                                         of the table, the selection of the
                                         upload dialog, the export to CSV),
    - [src/lib/invoiceStorage.ts]       (findExistingInvoice, saveInvoiceData,
                                         updateInvoiceData; getInvoiceById,
                                         deleteInvoiceData),
    - [src/lib/firebase.ts]             (the lazy initialization),
    - [src/app/api/process-invoice/route.ts] (first module: the
                                         single-document POST; second module:
                                         the batch orchestrator POST and
                                         processBatch),
    - [src/app/api/process-multiple-invoices/route.ts] (the forwarding POST).

    JavaScript strings are sequences of UTF-16 code units; they are modelled
    as [list N].  A value that may be [undefined] or [null] is an [option]. *)

From Stdlib Require Import NArith QArith DecimalString Lqa Sorted.
From stdpp Require Import gmap strings list fin_maps.

Set Default Proof Using "Type".

(** ** JavaScript strings *)

Abbreviation jsstring := (list N).

(** A string literal of the source, as code units (Basic Latin text). *)
Definition js (s : string) : jsstring :=
  map Ascii.N_of_ascii (String.list_ascii_of_string s).

(** The double quote, which the literals of this file do not contain. *)
Definition dquote : jsstring := [34%N].

(** [Number.prototype.toString] on a non-negative integer. *)
Definition decimal (n : N) : jsstring :=
  js (DecimalString.NilZero.string_of_uint (N.to_uint n)).

Definition inRange (lo hi c : N) : bool := ((lo <=? c) && (c <=? hi))%N.

(** ECMAScript WhiteSpace and LineTerminator: the class [\s] of a regular
    expression without the [u] flag, and the characters [trim] removes. *)
Definition isWhiteSpace (c : N) : bool :=
  inRange 9 13 c || (c =? 32)%N || (c =? 0xA0)%N || (c =? 0x1680)%N
  || inRange 0x2000 0x200A c || (c =? 0x2028)%N || (c =? 0x2029)%N
  || (c =? 0x202F)%N || (c =? 0x205F)%N || (c =? 0x3000)%N || (c =? 0xFEFF)%N.

Fixpoint trimStart (s : jsstring) : jsstring :=
  match s with
  | [] => []
  | c :: r => if isWhiteSpace c then trimStart r else s
  end.

Definition trimEnd (s : jsstring) : jsstring := rev (trimStart (rev s)).

(** [String.prototype.trim]. *)
Definition trim (s : jsstring) : jsstring := trimEnd (trimStart s).

(** [a || b] on values that may be [undefined] or [null]; [truthyA] is the
    truthiness of a defined value. *)
Definition orElse {A} (truthyA : A -> bool) (a : option A) (b : option A) : option A :=
  match a with
  | Some v => if truthyA v then Some v else b
  | None => b
  end.

Definition nonEmpty (s : jsstring) : bool :=
  match s with [] => false | _ => true end.

(** ** Built-ins that depend on the Unicode character database

    [String.prototype.normalize('NFKC')], [toLowerCase] and [toUpperCase]
    belong to the runtime, not to the repository.  They are taken as
    parameters; the only facts used are how they act on Basic Latin
    (code units below 128): NFKC leaves such text unchanged and the case
    mappings are the ASCII ones. *)

Definition isBasicLatin (c : N) : bool := (c <? 128)%N.

Definition lowerLatin (c : N) : N := if inRange 65 90 c then (c + 32)%N else c.
Definition upperLatin (c : N) : N := if inRange 97 122 c then (c - 32)%N else c.

Class Builtins := {
  normalizeNFKC : jsstring -> jsstring;
  toLowerCase : jsstring -> jsstring;
  toUpperCase : jsstring -> jsstring;
  normalizeNFKC_latin :
    forall s, forallb isBasicLatin s = true -> normalizeNFKC s = s;
  toLowerCase_latin :
    forall s, forallb isBasicLatin s = true -> toLowerCase s = map lowerLatin s;
  toUpperCase_latin :
    forall s, forallb isBasicLatin s = true -> toUpperCase s = map upperLatin s
}.

(** The built-ins restricted to text that is already in NFKC form and whose
    cased letters are Basic Latin; every string literal below is such text. *)
#[refine] Instance LatinBuiltins : Builtins := {
  normalizeNFKC := fun s => s;
  toLowerCase := map lowerLatin;
  toUpperCase := map upperLatin
}.
Proof. all: intros s _; reflexivity. Defined.

(** ** Identity normalizer ([src/lib/dataUtils.ts], standardizeVendorName) *)

Module Normalizer.
Section WithBuiltins.
Context {B : Builtins}.

(** The class of zero-width characters, U+200B to U+200D and U+FEFF. *)
Definition isZeroWidth (c : N) : bool :=
  inRange 0x200B 0x200D c || (c =? 0xFEFF)%N.

(** The [replace] that deletes the zero-width characters. *)
Definition removeZeroWidth (s : jsstring) : jsstring :=
  List.filter (fun c => negb (isZeroWidth c)) s.

(** [.replace(/\./g, '')] *)
Definition removePeriods (s : jsstring) : jsstring :=
  List.filter (fun c => negb (c =? 46)%N) s.

(** [.replace(/\s+/g, ' ')]: every maximal run of white space becomes one
    space.  [inRun] tells that the previous code unit was white space. *)
Fixpoint collapseFrom (inRun : bool) (s : jsstring) : jsstring :=
  match s with
  | [] => []
  | c :: r =>
      if isWhiteSpace c
      then (if inRun then collapseFrom true r else 32%N :: collapseFrom true r)
      else c :: collapseFrom false r
  end.

Definition collapseWhitespace (s : jsstring) : jsstring := collapseFrom false s.

Definition isDigit (c : N) : bool := inRange 48 57 c.
Definition isUpper (c : N) : bool := inRange 65 90 c.
Definition isLower (c : N) : bool := inRange 97 122 c.

(** The complement of the class [[^a-zA-Z0-9& -]]. *)
Definition isAllowed (c : N) : bool :=
  isLower c || isUpper c || isDigit c || (c =? 38)%N || (c =? 32)%N || (c =? 45)%N.

(** [.replace(/[^a-zA-Z0-9& -]/g, '')] *)
Definition stripDisallowed (s : jsstring) : jsstring := List.filter isAllowed s.

(** A Basic Latin letter or digit. *)
Definition isLetterOrDigit (c : N) : bool := isLower c || isUpper c || isDigit c.

(** The class [\w]. *)
Definition isWordChar (c : N) : bool :=
  isLower c || isUpper c || isDigit c || (c =? 95)%N.

(** [.replace(/\b\w/g, c => c.toUpperCase())]: a word character is matched
    when the code unit before it is not a word character (or there is
    none).  [prevWord] tells that the previous code unit was one. *)
Fixpoint capitalizeFrom (prevWord : bool) (s : jsstring) : jsstring :=
  match s with
  | [] => []
  | c :: r =>
      if isWordChar c
      then (if prevWord then [c] else toUpperCase [c]) ++ capitalizeFrom true r
      else c :: capitalizeFrom false r
  end.

Definition capitalizeWords (s : jsstring) : jsstring := capitalizeFrom false s.

Definition standardizeVendorName (vendorName : option jsstring) : jsstring :=
  match vendorName with
  | None => []
  | Some [] => []
  | Some s =>
      capitalizeWords
        (toLowerCase
           (trim
              (stripDisallowed
                 (collapseWhitespace
                    (removePeriods
                       (removeZeroWidth
                          (normalizeNFKC s)))))))
  end.

(** *** The override table ([src/app/dashboard/page.tsx],
        enhancedVendorNormalization) *)

Definition normalizationRules : list (jsstring * jsstring) :=
  [ (js "Trash Taxi Of Gallc", js "Trash Taxi Of Ga Llc");
    (js "Trash Taxi Of GA LLC", js "Trash Taxi Of Ga Llc");
    (js "Trash Taxi Of GA Llc", js "Trash Taxi Of Ga Llc");
    (js "WM Corporate Services Inc", js "Wm Corporate Services Inc");
    (js "WM CORPORATE SERVICES INC", js "Wm Corporate Services Inc");
    (js "Georgia Waste Systems LLC", js "Georgia Waste Systems Llc");
    (js "GEORGIA WASTE SYSTEMS LLC", js "Georgia Waste Systems Llc");
    (js "Valley Pallet And Crating LLC", js "Valley Pallet And Crating Llc");
    (js "VALLEY PALLET AND CRATING LLC", js "Valley Pallet And Crating Llc") ].

(** The loop over [Object.entries(normalizationRules)] with its [break]. *)
Fixpoint applyRules (rules : list (jsstring * jsstring)) (normalized : jsstring)
  : jsstring :=
  match rules with
  | [] => normalized
  | (variant, canonical) :: rest =>
      if bool_decide (normalized = variant) then canonical
      else applyRules rest normalized
  end.

Definition enhancedVendorNormalization (name : option jsstring) : jsstring :=
  match name with
  | None => js "Unknown"
  | Some n =>
      if negb (nonEmpty n) || negb (nonEmpty (trim n)) then js "Unknown"
      else applyRules normalizationRules (standardizeVendorName (Some (trim n)))
  end.

End WithBuiltins.
End Normalizer.

(** ** Exceptions

    A thrown value is an [Error] (with its [name] and [message]) or some
    other value; [error instanceof Error ? error.message : 'Unknown error']
    is [errorMessage]. *)

Inductive Thrown : Type :=
| JsError (name message : jsstring)
| JsNonError (rendering : jsstring).   (* the value, as [String(value)] shows it *)

Inductive Result (A : Type) : Type :=
| Ok (a : A)
| Throw (e : Thrown).
Arguments Ok {A} a.
Arguments Throw {A} e.

Definition errorMessage (error : Thrown) : jsstring :=
  match error with
  | JsError _ message => message
  | JsNonError _ => js "Unknown error"
  end.

(** [String(error)], as a template literal renders a thrown value
    ([Error.prototype.toString] for an [Error]). *)
Definition renderThrown (error : Thrown) : jsstring :=
  match error with
  | JsError name message =>
      if negb (nonEmpty name) then message
      else if negb (nonEmpty message) then name
      else name ++ js ": " ++ message
  | JsNonError rendering => rendering
  end.

Definition newError (message : jsstring) : Thrown := JsError (js "Error") message.

(** ** Computations with a mutable state that may throw

    The state survives a throw, as the mutations of a JavaScript object
    made before an exception do. *)

Definition Eff (S A : Type) : Type := S -> Result A * S.

Definition ret {S A} (a : A) : Eff S A := fun s => (Ok a, s).

Definition throw {S A} (e : Thrown) : Eff S A := fun s => (Throw e, s).

(** The outcome of an awaited promise, or of a call that may throw. *)
Definition await {S A} (r : Result A) : Eff S A := fun s => (r, s).

Definition bind {S A B} (m : Eff S A) (k : A -> Eff S B) : Eff S B :=
  fun s =>
    match m s with
    | (Ok a, s') => k a s'
    | (Throw e, s') => (Throw e, s')
    end.

(** [try { body } catch (e) { handler }] *)
Definition tryCatch {S A} (body : Eff S A) (handler : Thrown -> Eff S A) : Eff S A :=
  fun s =>
    match body s with
    | (Ok a, s') => (Ok a, s')
    | (Throw e, s') => handler e s'
    end.

Notation "'let*' x := m 'in' k" := (bind m (fun x => k))
  (at level 10, x name, m at level 100, k at level 200).

(** [list.forEach(f)] *)
Fixpoint forEach {S A} (f : A -> Eff S unit) (l : list A) : Eff S unit :=
  match l with
  | [] => ret tt
  | a :: rest => let* _ := f a in forEach f rest
  end.

(** ** The extracted payload

    The payload is untyped in the source and read with optional chaining;
    every section and every field may be missing. *)

Record InvoiceMetadata := {
  invoice_number : option jsstring;
  invoice_date : option jsstring;
  due_date : option jsstring
}.

Record PartyInformation := {
  company_name : option jsstring
}.

Record FinancialSummary := {
  subtotal : option Q;
  tax_amount : option Q;
  total_amount : option Q;
  currency : option jsstring
}.

Record ExtractedInvoice := {
  invoice_metadata : option InvoiceMetadata;
  vendor_information : option PartyInformation;
  customer_information : option PartyInformation;
  financial_summary : option FinancialSummary;
  processing_metadata : option jsstring
}.

(** ** Duplicate resolver and persistence coordinator
       ([src/lib/invoiceStorage.ts]) *)

Module Storage.

(** A timestamp field holds a resolved server time, or on the way to the
    store the [serverTimestamp()] sentinel, which the store replaces by its
    clock when it performs the write. *)
Inductive FieldTime : Type :=
| Timestamp (millis : N)
| ServerTimestamp.

(** A document of the [invoices] collection.  Documents are schemaless, so
    any field may be absent.  The objects that the writers pass to the
    store have this shape too: a property that the object literal does not
    list is [None], and so is a listed property whose value is [undefined];
    a write is told which properties its object lists. *)
Record StoredInvoiceData := {
  id : option jsstring;
  userId : option jsstring;
  filename : option jsstring;
  originalFilename : option jsstring;
  fileUrl : option jsstring;
  fileSize : option N;
  invoiceNumber : option jsstring;
  totalAmount : option Q;
  invoiceDate : option jsstring;
  vendorName : option jsstring;
  processingMetadata : option jsstring;
  extractedData : option ExtractedInvoice;
  createdAt : option FieldTime;
  updatedAt : option FieldTime
}.

(** *** The storage collaborator *)

(** Modelled from the spec: the managed document store (the Firestore
    SDK, which is not part of the repository), by the contract of section
    6: lookup by field equality, create-or-update by id.  The collection
    maps document ids to documents; a query filters on field equality and
    may limit the number of results; a write with [merge] (and [updateDoc])
    overwrites the fields it is given and keeps the others; every operation
    may fail (the network, the rules of the store, an object that the store
    refuses), which the fault plan of the world decides.  Before a write is
    sent, the client checks its object and throws when a listed property is
    [undefined]: the application builds the client with [getFirestore(app)]
    ([src/lib/firebase.ts]), which leaves [ignoreUndefinedProperties] off. *)
Inductive FieldName := F_userId | F_invoiceNumber | F_originalFilename.

Inductive QueryConstraint : Type :=
| where_eq (field : FieldName) (value : jsstring)
| limit (count : nat).

Definition fieldValue (field : FieldName) (data : StoredInvoiceData)
  : option jsstring :=
  match field with
  | F_userId => userId data
  | F_invoiceNumber => invoiceNumber data
  | F_originalFilename => originalFilename data
  end.

Definition satisfies (data : StoredInvoiceData) (c : QueryConstraint) : bool :=
  match c with
  | where_eq field value => bool_decide (fieldValue field data = Some value)
  | limit _ => true
  end.

Fixpoint applyLimit (q : list QueryConstraint) (docs : list StoredInvoiceData)
  : list StoredInvoiceData :=
  match q with
  | [] => docs
  | limit n :: rest => applyLimit rest (take n docs)
  | where_eq _ _ :: rest => applyLimit rest docs
  end.

(** The documents of a snapshot, in the collaborator's order. *)
Definition runQuery (q : list QueryConstraint)
  (collection : gmap (list N) StoredInvoiceData) : list StoredInvoiceData :=
  applyLimit q
    (List.filter (fun data => forallb (satisfies data) q)
                 (map snd (map_to_list collection))).

Definition resolveTime (serverTime : N) (t : option FieldTime) : option FieldTime :=
  match t with
  | Some ServerTimestamp => Some (Timestamp serverTime)
  | other => other
  end.

Definition over {A} (new old : option A) : option A :=
  match new with
  | Some v => Some v
  | None => old
  end.

(** The document after writing the fields of [data] over [old]. *)
Definition mergeFields (serverTime : N) (old data : StoredInvoiceData)
  : StoredInvoiceData :=
  {| id := over (id data) (id old);
     userId := over (userId data) (userId old);
     filename := over (filename data) (filename old);
     originalFilename := over (originalFilename data) (originalFilename old);
     fileUrl := over (fileUrl data) (fileUrl old);
     fileSize := over (fileSize data) (fileSize old);
     invoiceNumber := over (invoiceNumber data) (invoiceNumber old);
     totalAmount := over (totalAmount data) (totalAmount old);
     invoiceDate := over (invoiceDate data) (invoiceDate old);
     vendorName := over (vendorName data) (vendorName old);
     processingMetadata := over (processingMetadata data) (processingMetadata old);
     extractedData := over (extractedData data) (extractedData old);
     createdAt := over (resolveTime serverTime (createdAt data)) (createdAt old);
     updatedAt := over (resolveTime serverTime (updatedAt data)) (updatedAt old) |}.

(** The properties of the objects that the writers build, in the order of
    the object literal of [saveInvoiceData]. *)
Inductive Property : Type :=
| P_id | P_userId | P_filename | P_originalFilename | P_fileUrl | P_fileSize
| P_invoiceNumber | P_totalAmount | P_invoiceDate | P_vendorName
| P_processingMetadata | P_extractedData | P_createdAt | P_updatedAt.

Definition propertyName (property : Property) : jsstring :=
  match property with
  | P_id => js "id"
  | P_userId => js "userId"
  | P_filename => js "filename"
  | P_originalFilename => js "originalFilename"
  | P_fileUrl => js "fileUrl"
  | P_fileSize => js "fileSize"
  | P_invoiceNumber => js "invoiceNumber"
  | P_totalAmount => js "totalAmount"
  | P_invoiceDate => js "invoiceDate"
  | P_vendorName => js "vendorName"
  | P_processingMetadata => js "processingMetadata"
  | P_extractedData => js "extractedData"
  | P_createdAt => js "createdAt"
  | P_updatedAt => js "updatedAt"
  end.

Definition missing {A} (value : option A) : bool :=
  match value with
  | Some _ => false
  | None => true
  end.

(** The value of the property is [undefined]. *)
Definition isUndefined (data : StoredInvoiceData) (property : Property) : bool :=
  match property with
  | P_id => missing (id data)
  | P_userId => missing (userId data)
  | P_filename => missing (filename data)
  | P_originalFilename => missing (originalFilename data)
  | P_fileUrl => missing (fileUrl data)
  | P_fileSize => missing (fileSize data)
  | P_invoiceNumber => missing (invoiceNumber data)
  | P_totalAmount => missing (totalAmount data)
  | P_invoiceDate => missing (invoiceDate data)
  | P_vendorName => missing (vendorName data)
  | P_processingMetadata => missing (processingMetadata data)
  | P_extractedData => missing (extractedData data)
  | P_createdAt => missing (createdAt data)
  | P_updatedAt => missing (updatedAt data)
  end.

(** The first of the listed properties whose value is [undefined]. *)
Definition undefinedProperty (listed : list Property) (data : StoredInvoiceData)
  : option Property :=
  List.find (isUndefined data) listed.

(** The error of the client's check, for the function that was called. *)
Definition unsupportedFieldValue (called documentId : jsstring) (property : Property)
  : Thrown :=
  JsError (js "FirebaseError")
    (js "Function " ++ called
     ++ js "() called with invalid data. Unsupported field value: undefined (found in field "
     ++ propertyName property ++ js " in document invoices/" ++ documentId ++ js ")").

Definition emptyDocument : StoredInvoiceData :=
  {| id := None; userId := None; filename := None; originalFilename := None;
     fileUrl := None; fileSize := None; invoiceNumber := None;
     totalAmount := None; invoiceDate := None; vendorName := None;
     processingMetadata := None; extractedData := None;
     createdAt := None; updatedAt := None |}.

(** The world a storage call runs in. *)
Record World := {
  initialized : bool;                (* getFirebaseDB() is not null *)
  collection : gmap (list N) StoredInvoiceData;
  faults : list (option Thrown);     (* one entry per storage operation *)
  now : N;                           (* Date.now() *)
  serverTime : N                     (* the store's clock *)
}.

Definition setCollection (c : gmap (list N) StoredInvoiceData) (w : World) : World :=
  {| initialized := initialized w; collection := c; faults := faults w;
     now := now w; serverTime := serverTime w |}.

Definition setFaults (f : list (option Thrown)) (w : World) : World :=
  {| initialized := initialized w; collection := collection w; faults := f;
     now := now w; serverTime := serverTime w |}.

(** Storage calls read and write the world and may throw. *)
Abbreviation M := (Eff World).

Definition getFirebaseDB : M bool := fun w => (Ok (initialized w), w).

Definition dateNow : M N := fun w => (Ok (now w), w).

(** Each storage operation takes the next entry of the fault plan: it
    fails with the error found there, and runs when there is none. *)
Definition storageOperation : M unit :=
  fun w =>
    match faults w with
    | [] => (Ok tt, w)
    | None :: rest => (Ok tt, setFaults rest w)
    | Some e :: rest => (Throw e, setFaults rest w)
    end.

Definition getDocs (q : list QueryConstraint) : M (list StoredInvoiceData) :=
  let* _ := storageOperation in
  fun w => (Ok (runQuery q (collection w)), w).

(** The client's check of the object of a write, which comes before
    anything is sent. *)
Definition checkObject (called : jsstring) (listed : list Property)
  (documentId : jsstring) (data : StoredInvoiceData) : M unit :=
  match undefinedProperty listed data with
  | Some property => throw (unsupportedFieldValue called documentId property)
  | None => ret tt
  end.

(** [setDoc(docRef, data, { merge: true })], for an object that lists the
    properties [listed]. *)
Definition setDoc_merge (listed : list Property) (documentId : jsstring)
  (data : StoredInvoiceData) : M unit :=
  let* _ := checkObject (js "setDoc") listed documentId data in
  let* _ := storageOperation in
  fun w =>
    let old := default emptyDocument (collection w !! documentId) in
    (Ok tt, setCollection
              (<[documentId := mergeFields (serverTime w) old data]> (collection w)) w).

(** [updateDoc(docRef, data)]: fails when the document does not exist. *)
Definition updateDoc (listed : list Property) (documentId : jsstring)
  (data : StoredInvoiceData) : M unit :=
  let* _ := checkObject (js "updateDoc") listed documentId data in
  let* _ := storageOperation in
  fun w =>
    match collection w !! documentId with
    | None => (Throw (JsError (js "FirebaseError") (js "No document to update")), w)
    | Some old =>
        (Ok tt, setCollection
                  (<[documentId := mergeFields (serverTime w) old data]> (collection w)) w)
    end.

(** The properties that the object of [saveInvoiceData] lists, and those of
    the object of [updateInvoiceData]. *)
Definition savedProperties : list Property :=
  [ P_id; P_userId; P_filename; P_originalFilename; P_fileUrl; P_fileSize;
    P_invoiceNumber; P_totalAmount; P_invoiceDate; P_vendorName;
    P_processingMetadata; P_extractedData; P_createdAt; P_updatedAt ].

Definition updatedProperties : list Property :=
  [ P_invoiceNumber; P_totalAmount; P_invoiceDate; P_vendorName; P_extractedData;
    P_updatedAt ].

Section WithBuiltins.
Context {B : Builtins}.

Definition notInitialized : Thrown := newError (js "Firebase Firestore not initialized").

(** [data.invoiceNumber && data.invoiceNumber.toLowerCase().trim() ===
    invoiceNumber.toLowerCase().trim()] *)
Definition sameNumberIgnoringCase (invoiceNumber : jsstring) (data : StoredInvoiceData)
  : bool :=
  match Storage.invoiceNumber data with
  | Some stored =>
      nonEmpty stored
      && bool_decide (trim (toLowerCase stored) = trim (toLowerCase invoiceNumber))
  | None => false
  end.

Definition findExistingInvoice (userId filename : jsstring)
  (invoiceNumber : option jsstring) : M (option StoredInvoiceData) :=
  tryCatch
    (let* db := getFirebaseDB in
     if negb db then throw notInitialized else
     (* First, try to find by invoice number (highest priority) *)
     let* byNumber :=
       (match invoiceNumber with
        | Some number =>
            if nonEmpty number && nonEmpty (trim number) then
              (* Try exact match first *)
              let* exactSnapshot :=
                getDocs [where_eq F_userId userId;
                         where_eq F_invoiceNumber (trim number);
                         limit 1] in
              match exactSnapshot with
              | data :: _ => ret (Some data)
              | [] =>
                  (* Try case-insensitive match for invoice number *)
                  let* allSnapshot := getDocs [where_eq F_userId userId] in
                  ret (List.find (sameNumberIgnoringCase number) allSnapshot)
              end
            else ret None
        | None => ret None
        end) in
     match byNumber with
     | Some data => ret (Some data)
     | None =>
         (* If no invoice number match, try filename as fallback *)
         let* filenameSnapshot :=
           getDocs [where_eq F_userId userId;
                    where_eq F_originalFilename filename;
                    limit 1] in
         ret (head filenameSnapshot)
     end)
    (fun _ => ret None).

(** [filename.toLowerCase().replace(/[^a-z0-9]/g, '_')] *)
Definition cleanFilename (filename : jsstring) : jsstring :=
  map (fun c => if Normalizer.isLower c || Normalizer.isDigit c then c else 95%N)
      (toLowerCase filename).

Definition generateDocumentId (userId filename : jsstring) : M jsstring :=
  let* timestamp := dateNow in
  ret (userId ++ js "_" ++ cleanFilename filename ++ js "_" ++ decimal timestamp).

Record SaveResult := {
  success : bool;
  message : jsstring;
  documentId : option jsstring
}.

(** [standardizeVendorName(extractedData.vendor_information?.company_name)
    || 'Unknown'] *)
Definition indexedVendorName (extractedData : ExtractedInvoice) : jsstring :=
  let standardized :=
    Normalizer.standardizeVendorName (vendor_information extractedData ≫= company_name) in
  if nonEmpty standardized then standardized else js "Unknown".

Definition savedMessage (filename : jsstring) : jsstring :=
  js "Invoice " ++ dquote ++ filename ++ dquote ++ js " saved successfully to database".

Definition updatedMessage (name : jsstring) : jsstring :=
  js "Invoice " ++ dquote ++ name ++ dquote ++ js " updated successfully in database".

Definition saveInvoiceData (userId filename : jsstring) (extractedData : ExtractedInvoice)
  (fileUrl : option jsstring) (fileSize : option N) : M SaveResult :=
  tryCatch
    ((* Extract key information for duplicate detection and indexing *)
     let invoiceNumber := invoice_metadata extractedData ≫= invoice_number in
     let totalAmount := financial_summary extractedData ≫= total_amount in
     let invoiceDate := invoice_metadata extractedData ≫= invoice_date in
     let vendorName := indexedVendorName extractedData in
     (* Check for existing invoice with same filename or invoice number *)
     let* existingInvoice := findExistingInvoice userId filename invoiceNumber in
     let* documentId :=
       (match orElse nonEmpty (existingInvoice ≫= id) None with
        | Some existingId => ret existingId
        | None => generateDocumentId userId filename
        end) in
     let invoiceData :=
       {| id := Some documentId;
          Storage.userId := Some userId;
          Storage.filename := Some (cleanFilename filename);
          originalFilename := Some filename;
          Storage.fileUrl := fileUrl;
          Storage.fileSize := fileSize;
          Storage.invoiceNumber := invoiceNumber;
          Storage.totalAmount := totalAmount;
          Storage.invoiceDate := invoiceDate;
          Storage.vendorName := Some vendorName;
          processingMetadata := processing_metadata extractedData;
          Storage.extractedData := Some extractedData;
          createdAt := Some (default ServerTimestamp (existingInvoice ≫= createdAt));
          updatedAt := Some ServerTimestamp |} in
     (* Save to Firestore *)
     let* db := getFirebaseDB in
     if negb db then throw notInitialized else
     let* _ := setDoc_merge savedProperties documentId invoiceData in
     let isUpdate := bool_decide (is_Some existingInvoice) in
     ret {| success := true;
            message := if isUpdate then updatedMessage filename
                       else savedMessage filename;
            documentId := Some documentId |})
    (fun error =>
       ret {| success := false;
              message := js "Failed to save invoice data: " ++ errorMessage error;
              documentId := None |}).

Definition updateInvoiceData (documentId userId : jsstring)
  (extractedData : ExtractedInvoice) : M SaveResult :=
  tryCatch
    (let* db := getFirebaseDB in
     if negb db then throw notInitialized else
     (* Extract key information for indexing *)
     let invoiceNumber := invoice_metadata extractedData ≫= invoice_number in
     let totalAmount := financial_summary extractedData ≫= total_amount in
     let invoiceDate := invoice_metadata extractedData ≫= invoice_date in
     let vendorName := indexedVendorName extractedData in
     let* _ :=
       updateDoc updatedProperties documentId
         {| id := None; Storage.userId := None; filename := None;
            originalFilename := None; fileUrl := None; fileSize := None;
            Storage.invoiceNumber := invoiceNumber;
            Storage.totalAmount := totalAmount;
            Storage.invoiceDate := invoiceDate;
            Storage.vendorName := Some vendorName;
            processingMetadata := None;
            Storage.extractedData := Some extractedData;
            createdAt := None;
            updatedAt := Some ServerTimestamp |} in
     ret {| success := true;
            message := updatedMessage (default (js "undefined") invoiceNumber);
            documentId := Some documentId |})
    (fun error =>
       ret {| success := false;
              message := js "Failed to update invoice data: " ++ errorMessage error;
              documentId := None |}).

(** *** The resolver, in the words of the specification

    These definitions follow section 4.3 of the specification; they are
    compared with [findExistingInvoice] below. *)

(** The owner's view of the store: the documents of the collection. *)
Definition documents (w : World) : list StoredInvoiceData :=
  map snd (map_to_list (collection w)).

Definition ownedBy (ownerId : jsstring) (data : StoredInvoiceData) : bool :=
  bool_decide (Storage.userId data = Some ownerId).

(** A document number counts as supplied when it is not blank. *)
Definition supplied (documentNumber : option jsstring) : option jsstring :=
  match documentNumber with
  | Some number => if nonEmpty (trim number) then Some number else None
  | None => None
  end.

(** Step 1: exact match on (ownerId, documentNumber), the number trimmed. *)
Definition exactNumberMatch (docs : list StoredInvoiceData)
  (ownerId documentNumber : jsstring) : option StoredInvoiceData :=
  List.find (fun data => ownedBy ownerId data
                         && bool_decide (Storage.invoiceNumber data
                                         = Some (trim documentNumber))) docs.

(** Step 2: scan of the owner's records, comparing the document numbers
    case-insensitively after trimming. *)
Definition scanNumberMatch (docs : list StoredInvoiceData)
  (ownerId documentNumber : jsstring) : option StoredInvoiceData :=
  List.find (fun data => ownedBy ownerId data
                         && sameNumberIgnoringCase documentNumber data) docs.

(** Step 3: exact match on (ownerId, originalFilename). *)
Definition filenameMatch (docs : list StoredInvoiceData)
  (ownerId filename : jsstring) : option StoredInvoiceData :=
  List.find (fun data => ownedBy ownerId data
                         && bool_decide (originalFilename data = Some filename)) docs.

(** The first hit, in priority order. *)
Fixpoint firstHit {A} (steps : list (option A)) : option A :=
  match steps with
  | [] => None
  | Some hit :: _ => Some hit
  | None :: rest => firstHit rest
  end.

Definition findExisting_spec (docs : list StoredInvoiceData)
  (ownerId filename : jsstring) (documentNumber : option jsstring)
  : option StoredInvoiceData :=
  match supplied documentNumber with
  | Some number =>
      firstHit [ exactNumberMatch docs ownerId number;
                 scanNumberMatch docs ownerId number;
                 filenameMatch docs ownerId filename ]
  | None => firstHit [ filenameMatch docs ownerId filename ]
  end.

(** A record the resolver can return for (ownerId, filename,
    documentNumber): it is the owner's and one of the three steps matches. *)
Definition isRecordOf (ownerId filename : jsstring) (documentNumber : option jsstring)
  (data : StoredInvoiceData) : bool :=
  ownedBy ownerId data
  && (match supplied documentNumber with
      | Some number =>
          bool_decide (Storage.invoiceNumber data = Some (trim number))
          || sameNumberIgnoringCase number data
      | None => false
      end
      || bool_decide (originalFilename data = Some filename)).

(** *** The coordinator's write, named for the statements below *)

(** The id [generateDocumentId] builds at client time [clock]. *)
Definition generatedId (userId filename : jsstring) (clock : N) : jsstring :=
  userId ++ js "_" ++ cleanFilename filename ++ js "_" ++ decimal clock.

(** [existingInvoice?.id || this.generateDocumentId(userId, filename)] *)
Definition chosenDocumentId (existing : option StoredInvoiceData)
  (userId filename : jsstring) (clock : N) : jsstring :=
  default (generatedId userId filename clock)
          (orElse nonEmpty (existing ≫= id) None).

(** The [invoiceData] object of [saveInvoiceData]. *)
Definition invoiceDataFor (existing : option StoredInvoiceData)
  (documentId userId filename : jsstring) (extractedData : ExtractedInvoice)
  (fileUrl : option jsstring) (fileSize : option N) : StoredInvoiceData :=
  {| id := Some documentId;
     Storage.userId := Some userId;
     Storage.filename := Some (cleanFilename filename);
     originalFilename := Some filename;
     Storage.fileUrl := fileUrl;
     Storage.fileSize := fileSize;
     invoiceNumber := invoice_metadata extractedData ≫= invoice_number;
     totalAmount := financial_summary extractedData ≫= total_amount;
     invoiceDate := invoice_metadata extractedData ≫= invoice_date;
     vendorName := Some (indexedVendorName extractedData);
     processingMetadata := processing_metadata extractedData;
     Storage.extractedData := Some extractedData;
     createdAt := Some (default ServerTimestamp (existing ≫= createdAt));
     updatedAt := Some ServerTimestamp |}.

(** The document that a merging write of [data] leaves under [documentId]. *)
Definition written (w : World) (documentId : jsstring) (data : StoredInvoiceData)
  : StoredInvoiceData :=
  mergeFields (serverTime w) (default emptyDocument (collection w !! documentId)) data.

(** The file reference and the payload give every property of the
    [invoiceData] object a value: none of them is [undefined]. *)
Definition carriesEveryProperty (extractedData : ExtractedInvoice)
  (fileUrl : option jsstring) (fileSize : option N) : Prop :=
  is_Some fileUrl /\ is_Some fileSize
  /\ is_Some (invoice_metadata extractedData ≫= invoice_number)
  /\ is_Some (financial_summary extractedData ≫= total_amount)
  /\ is_Some (invoice_metadata extractedData ≫= invoice_date)
  /\ is_Some (processing_metadata extractedData).

(** The call returned and reported success. *)
Definition succeeded (outcome : Result SaveResult) : bool :=
  match outcome with
  | Ok result => success result
  | Throw _ => false
  end.

Definition saveFailure (error : Thrown) : SaveResult :=
  {| success := false;
     message := js "Failed to save invoice data: " ++ errorMessage error;
     documentId := None |}.

End WithBuiltins.
End Storage.

(** *** Sample data for the resolver and the coordinator *)

Module StorageExamples.
Import Storage.

Definition ownerU : jsstring := js "U".

Definition invoice100 : ExtractedInvoice :=
  {| invoice_metadata :=
       Some {| invoice_number := Some (js "INV-100");
               invoice_date := Some (js "2024-03-01");
               due_date := Some (js "2024-03-31") |};
     vendor_information := Some {| company_name := Some (js "acme, inc.") |};
     customer_information := Some {| company_name := Some (js "Globex") |};
     financial_summary :=
       Some {| subtotal := Some 100%Q; tax_amount := Some 7%Q;
               total_amount := Some 107%Q; currency := Some (js "USD") |};
     processing_metadata := Some (js "model-v2") |}.

(** The same invoice, re-extracted with another total. *)
Definition invoice100_again : ExtractedInvoice :=
  {| invoice_metadata := invoice_metadata invoice100;
     vendor_information := Some {| company_name := Some (js "ACME INC") |};
     customer_information := customer_information invoice100;
     financial_summary :=
       Some {| subtotal := Some 100%Q; tax_amount := Some 8%Q;
               total_amount := Some 108%Q; currency := Some (js "USD") |};
     processing_metadata := Some (js "model-v3") |}.

(** An invoice whose vendor name is noise only. *)
Definition invoiceNoVendor : ExtractedInvoice :=
  {| invoice_metadata :=
       Some {| invoice_number := Some (js "INV-7");
               invoice_date := Some (js "2024-03-02");
               due_date := Some (js "2024-04-01") |};
     vendor_information := Some {| company_name := Some (js "###") |};
     customer_information := Some {| company_name := Some (js "Globex") |};
     financial_summary :=
       Some {| subtotal := Some 10%Q; tax_amount := Some 1%Q;
               total_amount := Some 11%Q; currency := Some (js "USD") |};
     processing_metadata := Some (js "model-v2") |}.

(** The invoice ["INV-100"] extracted without its financial summary. *)
Definition invoiceWithoutTotal : ExtractedInvoice :=
  {| invoice_metadata := invoice_metadata invoice100;
     vendor_information := vendor_information invoice100;
     customer_information := customer_information invoice100;
     financial_summary := None;
     processing_metadata := processing_metadata invoice100 |}.

Definition fileUrlA : option jsstring := Some (js "https://files/a.pdf").
Definition fileSizeA : option N := Some 2048%N.

Definition emptyWorld : World :=
  {| initialized := true; collection := ∅; faults := [];
     now := 1700000000000; serverTime := 1700000000500 |}.

(** The same store a while later. *)
Definition later (c : gmap (list N) StoredInvoiceData) : World :=
  {| initialized := true; collection := c; faults := [];
     now := 1700000090000; serverTime := 1700000090500 |}.

Definition storedINV100 : StoredInvoiceData :=
  {| id := Some (js "doc-1"); userId := Some ownerU;
     filename := Some (js "scan_1_pdf"); originalFilename := Some (js "scan-1.pdf");
     fileUrl := Some (js "https://files/scan-1.pdf"); fileSize := Some 4096%N;
     invoiceNumber := Some (js "INV-100"); totalAmount := Some 107%Q;
     invoiceDate := Some (js "2024-03-01"); vendorName := Some (js "Acme Inc");
     processingMetadata := Some (js "model-v2"); extractedData := Some invoice100;
     createdAt := Some (Timestamp 1600000000000);
     updatedAt := Some (Timestamp 1600000000000) |}.


(** A world whose first storage operation fails. *)
Definition failingWorld : World :=
  {| initialized := true; collection := {[ js "doc-1" := storedINV100 ]};
     faults := [Some (JsError (js "FirebaseError") (js "unavailable"))];
     now := 1700000000000; serverTime := 1700000000500 |}.

End StorageExamples.

(** ** Batch orchestrator
       ([src/app/api/process-invoice/route.ts], second module) *)

(** What the extraction service answers for one file
    ([fileResult] in [processBatch]). *)
Module Backend.
Record FileResult := {
  filename : option jsstring;
  success : option bool;
  data : option ExtractedInvoice;
  error_details : option jsstring;
  error : option jsstring;
  processing_time_seconds : option Q
}.
End Backend.

Module Orchestrator.

(** Configuration *)
Definition BATCH_SIZE : nat := 3.
Definition MAX_CONCURRENT_BATCHES : nat := 2.

(** The client-side loop of the dashboard ([processInvoices]) partitions
    with the same [slice] loop and its own size. *)
Definition DASHBOARD_BATCH_SIZE : nat := 2.

(** An uploaded [File]: its [name], [type] and [size] properties. *)
Record File := {
  file_name : jsstring;
  file_type : jsstring;
  file_size : N
}.

Record BatchResult := {
  filename : jsstring;
  success : bool;
  data : option ExtractedInvoice;
  error : option jsstring;
  processingTime : option Q
}.

(** *** The extraction service, as the route sees it *)

(** [result.results] of a parsed body: falsy, an array (whose entries are
    objects or [null]), or a truthy value without [forEach]. *)
Inductive ResultsValue : Type :=
| ResultsFalsy
| ResultsNotArray
| ResultsArray (entries : list (option Backend.FileResult)).

(** The parsed body: [null], or a value with the truthiness of its
    [success] property and its [results] property (a body that is a number,
    a string or a boolean has neither: [JsonValue false ResultsFalsy]). *)
Inductive JsonBody : Type :=
| JsonNull
| JsonValue (success : bool) (results : ResultsValue).

(** A [Response]: [ok], [status], and what [text()] and [json()] give. *)
Record Response := {
  ok : bool;
  status : N;
  text : Result jsstring;
  json : Result JsonBody
}.

(** A [TypeError] raised by the engine; the messages are V8's. *)
Definition typeError (message : jsstring) : Thrown := JsError (js "TypeError") message.

Definition readOfNull (property : jsstring) : Thrown :=
  typeError (js "Cannot read properties of null (reading '" ++ property ++ js "')").

Definition notAFunction : Thrown :=
  typeError (js "result.results.forEach is not a function").

(** *** processBatch *)

Definition push (entry : BatchResult) : Eff (list BatchResult) unit :=
  fun results => (Ok tt, results ++ [entry]).

(** [files.forEach(file => results.push({ filename: file.name,
    success: false, error, processingTime: 0 }))] *)
Definition failure (reason : jsstring) (file : File) : BatchResult :=
  {| filename := file_name file; success := false; data := None;
     error := Some reason; processingTime := Some 0%Q |}.

Definition failEveryFile (files : list File) (reason : jsstring)
  : Eff (list BatchResult) unit :=
  forEach (fun file => push (failure reason file)) files.

(** [fileResult.processing_time_seconds ?
     fileResult.processing_time_seconds * 1000 : 0]
    (numbers are exact rationals here; the rounding of doubles is not
    modelled). *)
Definition toMillis (seconds : option Q) : Q :=
  match seconds with
  | Some s => if Qeq_bool s 0 then 0%Q else (s * 1000)%Q
  | None => 0%Q
  end.

(** The callback of [result.results.forEach]. *)
Definition mapFileResult (fileResult : option Backend.FileResult)
  : Eff (list BatchResult) unit :=
  match fileResult with
  | None => throw (readOfNull (js "filename"))
  | Some r =>
      push {| filename := default (js "unknown")
                            (orElse nonEmpty (Backend.filename r) None);
              success := default false (Backend.success r);
              data := Backend.data r;
              error := orElse nonEmpty (Backend.error_details r) (Backend.error r);
              processingTime := Some (toMillis (Backend.processing_time_seconds r)) |}
  end.

Definition isAbortError (e : Thrown) : bool :=
  match e with
  | JsError name _ => bool_decide (name = js "AbortError")
  | JsNonError _ => false
  end.

(** The body of [processBatch]; [call] is what the awaited [fetch] of the
    batch settles to (it rejects with an [AbortError] when the timeout of
    the batch aborts it).  The state is the [results] array. *)
Definition processBatch_body (files : list File) (call : Result Response)
  : Eff (list BatchResult) unit :=
  tryCatch
    (tryCatch
       (let* response := await call in
        if negb (ok response) then
          let* errorText := await (text response) in
          (* Return error for all files in this batch *)
          failEveryFile files
            (js "HTTP " ++ decimal (status response) ++ js ": " ++ errorText)
        else
          let* result := await (json response) in
          match result with
          | JsonNull => throw (readOfNull (js "success"))
          | JsonValue true (ResultsArray entries) =>
              (* Map the results to our format *)
              forEach mapFileResult entries
          | JsonValue true ResultsNotArray => throw notAFunction
          | JsonValue _ _ =>
              failEveryFile files (js "Unexpected response format from backend")
          end)
       (fun fetchError =>
          if isAbortError fetchError
          then failEveryFile files (js "Request timeout")
          else failEveryFile files (errorMessage fetchError)))
    (fun error => failEveryFile files (errorMessage error)).

(** How a promise settles. *)
Inductive Settled (A : Type) : Type :=
| fulfilled (value : A)
| rejected (reason : Thrown).
Arguments fulfilled {A} value.
Arguments rejected {A} reason.

(** [processBatch(files, backendUrl)], settled: it starts from an empty
    [results] array and returns it. *)
Definition processBatch (files : list File) (call : Result Response)
  : Settled (list BatchResult) :=
  match processBatch_body files call [] with
  | (Ok _, results) => fulfilled results
  | (Throw e, _) => rejected e
  end.

(** *** POST *)

(** [array.slice(from, to)] for [from <= to]. *)
Definition slice {A} (l : list A) (from to : nat) : list A :=
  take (to - from) (drop from l).

(** [for (let i = 0; i < files.length; i += size)
      batches.push(files.slice(i, i + size))].
    The loop is run with fuel; [None] means that the fuel ran out. *)
Fixpoint createBatchesFrom (size : nat) (files : list File) (fuel i : nat)
  (batches : list (list File)) : option (list (list File)) :=
  if i <? length files then
    match fuel with
    | O => None
    | S fuel' =>
        createBatchesFrom size files fuel' (i + size)
          (batches ++ [slice files i (i + size)])
    end
  else Some batches.

Definition createBatches (size : nat) (files : list File) : option (list (list File)) :=
  createBatchesFrom size files (length files) 0 [].

(** The outbound calls, in the order they are issued. *)
Inductive NetCall : Type :=
| HealthCheck (url : jsstring)
| ParseMultiple (url : jsstring) (files : list File).

(** The environment of one request: the configured base URL, what the
    health probe settles to, and what the call for the batch at each
    position of the schedule settles to. *)
Record Env := {
  backendUrl : option jsstring;
  health : Result Response;
  backend : nat -> Result Response
}.

(** The callback of [batchResults.forEach]. *)
Definition collect (batches : list (list File)) (batchIndex : nat)
  (results : list BatchResult) (index : nat) (result : Settled (list BatchResult))
  : list BatchResult :=
  match result with
  | fulfilled value => results ++ value
  | rejected reason =>
      (* Add error results for files in failed batch *)
      let failedBatch := nth (batchIndex + index) batches [] in
      results ++
        map (fun file =>
               {| filename := file_name file; success := false; data := None;
                  error := Some (js "Batch processing failed: " ++ renderThrown reason);
                  processingTime := None |})
            failedBatch
  end.

Fixpoint collectFrom (batches : list (list File)) (batchIndex : nat)
  (results : list BatchResult) (index : nat)
  (batchResults : list (Settled (list BatchResult))) : list BatchResult :=
  match batchResults with
  | [] => results
  | result :: rest =>
      collectFrom batches batchIndex
        (collect batches batchIndex results index result) (S index) rest
  end.

(** The promises of one wave, settled ([Promise.allSettled]): the batch at
    position [batchIndex + index] of the schedule gets the outcome the
    environment has for that position. *)
Fixpoint settleFrom (env : Env) (position : nat) (currentBatches : list (list File))
  : list (Settled (list BatchResult)) :=
  match currentBatches with
  | [] => []
  | batch :: rest =>
      processBatch batch (backend env position) :: settleFrom env (S position) rest
  end.

(** [for (let batchIndex = 0; batchIndex < batches.length;
          batchIndex += concurrency) { ... }], with fuel.  The state is the
    [results] array and the log of outbound calls. *)
Fixpoint processWaves (concurrency : nat) (env : Env) (url : jsstring)
  (batches : list (list File)) (fuel batchIndex : nat)
  (results : list BatchResult) (calls : list NetCall)
  : option (list BatchResult * list NetCall) :=
  if batchIndex <? length batches then
    match fuel with
    | O => None
    | S fuel' =>
        let currentBatches := slice batches batchIndex (batchIndex + concurrency) in
        (* Process current batches concurrently, wait for them to complete *)
        let batchResults := settleFrom env batchIndex currentBatches in
        (* Collect results from all batches *)
        processWaves concurrency env url batches fuel' (batchIndex + concurrency)
          (collectFrom batches batchIndex results 0 batchResults)
          (calls ++ map (ParseMultiple (url ++ js "/api/v2/parse-multiple-invoices/"))
                        currentBatches)
    end
  else Some (results, calls).

Record Statistics := {
  totalFiles : nat;
  successfulFiles : nat;
  failedFiles : nat;
  totalProcessingTime : Q;
  averageProcessingTime : Q;
  batchesProcessed : nat;
  batchSize : nat;
  concurrentBatches : nat
}.

(** The JSON body of a response of the route (the free-text [details] of
    the error bodies are left out). *)
Inductive ResponseBody : Type :=
| ErrorBody (message : jsstring) (setupRequired : option bool) (retryAfter : option N)
| BatchReport (message : jsstring) (results : list BatchResult) (statistics : Statistics)
| Forwarded (message : jsstring) (data : JsonBody).

Record HttpResponse := {
  http_status : N;
  http_body : ResponseBody
}.

Definition errorResponse (code : N) (message : jsstring) : HttpResponse :=
  {| http_status := code; http_body := ErrorBody message None None |}.

Definition maxFileSize : N := 5 * 1024 * 1024.

(** Validate all files are PDFs and check file size: the first violation
    returns the error response. *)
Fixpoint validateFiles (files : list File) : option HttpResponse :=
  match files with
  | [] => None
  | file :: rest =>
      if negb (bool_decide (file_type file = js "application/pdf")) then
        Some (errorResponse 400 (js "Only PDF files are supported"))
      else if (maxFileSize <? file_size file)%N then
        Some (errorResponse 400
                (js "File " ++ dquote ++ file_name file ++ dquote
                 ++ js " exceeds 5MB limit. Please upload smaller files."))
      else validateFiles rest
  end.

Definition sumProcessingTime (results : list BatchResult) : Q :=
  fold_left (fun sum r => (sum + default 0%Q (processingTime r))%Q) results 0%Q.

Definition statisticsOf (size concurrency : nat) (files : list File)
  (batches : list (list File)) (results : list BatchResult) : Statistics :=
  let total := sumProcessingTime results in
  {| totalFiles := length files;
     successfulFiles := length (List.filter success results);
     failedFiles := length (List.filter (fun r => negb (success r)) results);
     totalProcessingTime := total;
     averageProcessingTime :=
       if 0 <? length results
       then (total / inject_Z (Z.of_nat (length results)))%Q else 0%Q;
     batchesProcessed := length batches;
     batchSize := size;
     concurrentBatches := concurrency |}.

(** The route handler, for a batch size and a concurrency bound; [files] is
    [formData.getAll('files')].  It returns the response and the outbound
    calls it issued, or [None] when a loop ran out of fuel. *)
Definition processAll (size concurrency : nat) (env : Env) (files : list File)
  : option (HttpResponse * list NetCall) :=
  match files with
  | [] => Some (errorResponse 400 (js "No files provided"), [])
  | _ =>
  match validateFiles files with
  | Some rejection => Some (rejection, [])
  | None =>
  (* Get the backend API URL from environment variable *)
  match orElse nonEmpty (backendUrl env) None with
  | None =>
      Some ({| http_status := 500;
               http_body := ErrorBody (js "Backend API URL not configured")
                                      (Some true) None |}, [])
  | Some url =>
  (* Test backend connectivity first *)
  let healthCall := HealthCheck (url ++ js "/api/v2/health") in
  match health env with
  | Throw _ =>
      Some (errorResponse 503 (js "Backend service is not accessible."), [healthCall])
  | Ok healthResponse =>
  if negb (ok healthResponse) then
    Some (errorResponse 503 (js "Backend service is not responding properly."),
          [healthCall])
  else
  (* Process files in batches *)
  match createBatches size files with
  | None => None
  | Some batches =>
  match processWaves concurrency env url batches (length batches) 0 [] [healthCall] with
  | None => None
  | Some (results, calls) =>
      let statistics := statisticsOf size concurrency files batches results in
      Some ({| http_status := 200;
               http_body :=
                 BatchReport
                   (js "Batch processing completed. "
                    ++ decimal (N.of_nat (successfulFiles statistics))
                    ++ js " successful, "
                    ++ decimal (N.of_nat (failedFiles statistics))
                    ++ js " failed.")
                   results statistics |}, calls)
  end end end end end end.

Definition POST : Env -> list File -> option (HttpResponse * list NetCall) :=
  processAll BATCH_SIZE MAX_CONCURRENT_BATCHES.

(** *** The report, named for the statements below *)

(** The [results] array that [processBatch] returns. *)
Definition batchOutcome (files : list File) (call : Result Response)
  : list BatchResult :=
  snd (processBatch_body files call []).

(** The reason recorded when the call of a batch threw. *)
Definition thrownReason (error : Thrown) : jsstring :=
  if isAbortError error then js "Request timeout" else errorMessage error.

(** The error of a call that failed at the transport level: [fetch]
    rejected (network failure, or abort by the timeout of the batch), or
    reading the body of the response threw. *)
Definition transportFailure (call : Result Response) : option Thrown :=
  match call with
  | Throw error => Some error
  | Ok response =>
      if ok response then
        match json response with
        | Throw error => Some error
        | Ok _ => None
        end
      else
        match text response with
        | Throw error => Some error
        | Ok _ => None
        end
  end.

(** The outcomes of the batches, concatenated in the order of the schedule,
    the first batch being at [position]. *)
Fixpoint outcomesFrom (env : Env) (position : nat) (batches : list (list File))
  : list BatchResult :=
  match batches with
  | [] => []
  | batch :: rest =>
      batchOutcome batch (backend env position) ++ outcomesFrom env (S position) rest
  end.

(** The partition of the specification: consecutive groups of [size]
    files, the last one possibly shorter. *)
Fixpoint chunks (fuel size : nat) (files : list File) : list (list File) :=
  match fuel with
  | O => []
  | S fuel' =>
      match files with
      | [] => []
      | _ => take size files :: chunks fuel' size (drop size files)
      end
  end.

(** The call of a batch fails as a whole: [fetch] throws, the status is not
    2xx, the body cannot be read or parsed, or its shape is not
    [{ success: truthy, results: array }]. *)
Definition failsAsAWhole (call : Result Response) : bool :=
  match call with
  | Ok response =>
      if ok response then
        match json response with
        | Ok (JsonValue true (ResultsArray _)) => false
        | _ => true
        end
      else true
  | Throw _ => true
  end.

(** The name under which an entry of [result.results] is reported. *)
Definition reportedName (entry : option Backend.FileResult) : option jsstring :=
  match entry with
  | Some r => Some (default (js "unknown") (orElse nonEmpty (Backend.filename r) None))
  | None => None
  end.

(** The call of a batch is answered for every file: it fails as a whole, or
    its [results] hold as many entries as the batch has files, none of
    them [null]. *)
Definition answersEveryFile (batch : list File) (call : Result Response) : bool :=
  match call with
  | Ok response =>
      if ok response then
        match json response with
        | Ok (JsonValue true (ResultsArray entries)) =>
            forallb (fun entry => bool_decide (is_Some entry)) entries
            && (length entries =? length batch)
        | _ => true
        end
      else true
  | Throw _ => true
  end.

(** The call of a batch is answered in order: it fails as a whole, or its
    [results] hold one entry per file of the batch, in the order of the
    files and under their names. *)
Definition answersInOrder (batch : list File) (call : Result Response) : bool :=
  match call with
  | Ok response =>
      if ok response then
        match json response with
        | Ok (JsonValue true (ResultsArray entries)) =>
            bool_decide (map reportedName entries
                         = map (fun file => Some (file_name file)) batch)
        | _ => true
        end
      else true
  | Throw _ => true
  end.

(** The base URL is configured and the health probe answered with a 2xx
    status: the run reaches the waves. *)
Definition isReady (env : Env) : bool :=
  match orElse nonEmpty (backendUrl env) None, health env with
  | Some _, Ok healthResponse => ok healthResponse
  | _, _ => false
  end.

(** A file that the validation of the routes refuses. *)
Definition isInvalid (file : File) : bool :=
  negb (bool_decide (file_type file = js "application/pdf"))
  || (maxFileSize <? file_size file)%N.

(** The [results] of a report, when the response is one. *)
Definition reportedResults (outcome : option (HttpResponse * list NetCall))
  : option (list BatchResult) :=
  match outcome with
  | Some ({| http_body := BatchReport _ results _ |}, _) => Some results
  | _ => None
  end.

(** *** Sample data for the orchestrator *)

Definition pdf (name : string) : File :=
  {| file_name := js name; file_type := js "application/pdf"; file_size := 1024 |}.

(** What a well-behaved service answers for a file. *)
Definition extracted (file : File) : option Backend.FileResult :=
  Some {| Backend.filename := Some (file_name file);
          Backend.success := Some true;
          Backend.data := None;
          Backend.error_details := None;
          Backend.error := None;
          Backend.processing_time_seconds := Some 2%Q |}.

Definition respond (body : JsonBody) : Result Response :=
  Ok {| ok := true; status := 200; text := Ok []; json := Ok body |}.

Definition fiveFiles : list File := [pdf "1"; pdf "2"; pdf "3"; pdf "4"; pdf "5"].

(** A healthy service that answers every batch of [fiveFiles] (cut in
    twos) per file. *)
Definition healthyEnv : Env :=
  {| backendUrl := Some (js "http://backend");
     health := respond JsonNull;
     backend := fun position =>
       match position with
       | 0 => respond (JsonValue true (ResultsArray [extracted (pdf "1"); extracted (pdf "2")]))
       | 1 => respond (JsonValue true (ResultsArray [extracted (pdf "3"); extracted (pdf "4")]))
       | _ => respond (JsonValue true (ResultsArray [extracted (pdf "5")]))
       end |}.

(** The same service, except that the call for the second batch (files 3
    and 4) is aborted by its timeout. *)
Definition timeoutEnv : Env :=
  {| backendUrl := Some (js "http://backend");
     health := respond JsonNull;
     backend := fun position =>
       match position with
       | 1 => Throw (JsError (js "AbortError") (js "This operation was aborted"))
       | other => backend healthyEnv other
       end |}.

(** A submission whose second file is one byte over the cap. *)
Definition oversizedSubmission : list File :=
  [ pdf "ok.pdf";
    {| file_name := js "big.pdf"; file_type := js "application/pdf";
       file_size := 5 * 1024 * 1024 + 1 |} ].

(** The body [{ success: true, results: [<a.pdf>, null] }]. *)
Definition bodyWithNullEntry : Result Response :=
  respond (JsonValue true (ResultsArray [extracted (pdf "a.pdf"); None])).

(** What matters of an entry of the report: name, flag and reason. *)
Definition summary (entry : BatchResult) : jsstring * bool * option jsstring :=
  (filename entry, success entry, error entry).

(** A healthy service that answers every batch with an empty [results]. *)
Definition silentEnv : Env :=
  {| backendUrl := Some (js "http://backend");
     health := respond JsonNull;
     backend := fun _ => respond (JsonValue true (ResultsArray [])) |}.

End Orchestrator.

(** ** The forwarding route
       ([src/app/api/process-multiple-invoices/route.ts]) *)

Module Forwarder.
Import Orchestrator.

Fixpoint startsWith (needle hay : jsstring) : bool :=
  match needle, hay with
  | [], _ => true
  | _ :: _, [] => false
  | a :: needle', b :: hay' => (a =? b)%N && startsWith needle' hay'
  end.

(** [String.prototype.includes] *)
Fixpoint includes (needle hay : jsstring) : bool :=
  startsWith needle hay
  || match hay with
     | [] => false
     | _ :: hay' => includes needle hay'
     end.

(** The environment of one request: the configured base URL, what the
    health probe settles to, what the single call that carries all the
    files settles to, and the text of the error that the runtime raises
    when a response is built with a status it refuses. *)
Record Env := {
  backendUrl : option jsstring;
  health : Result Response;
  parse : Result Response;
  refusalMessage : jsstring
}.

(** The outer [catch]: the message of the 500 response. *)
Definition internalError (error : Thrown) : HttpResponse :=
  let errorMessage :=
    match error with
    | JsError name message =>
        if bool_decide (name = js "TypeError") && includes (js "fetch") message
        then js "Network error - unable to connect to backend service"
        else message
    | JsNonError _ => js "Internal server error"
    end in
  errorResponse 500 errorMessage.

Definition unavailable (message : jsstring) : HttpResponse :=
  {| http_status := 503; http_body := ErrorBody message (Some false) (Some 30%N) |}.

(** The statuses that allow no body. *)
Definition isNullBodyStatus (code : N) : bool :=
  (code =? 101)%N || (code =? 103)%N || (code =? 204)%N || (code =? 205)%N
  || (code =? 304)%N.

(** [NextResponse.json(body, { status: response.status })]: building the
    response throws a [RangeError] for a status outside 200 to 599 and a
    [TypeError] for a status that allows no body, and the outer [catch]
    answers. *)
Definition relayed (env : Env) (code : N) (message : jsstring) : HttpResponse :=
  if negb (inRange 200 599 code) then
    internalError (JsError (js "RangeError") (refusalMessage env))
  else if isNullBodyStatus code then
    internalError (JsError (js "TypeError") (refusalMessage env))
  else errorResponse code message.

Definition POST (env : Env) (files : list File) : HttpResponse * list NetCall :=
  match files with
  | [] => (errorResponse 400 (js "No files provided"), [])
  | _ =>
  match validateFiles files with
  | Some rejection => (rejection, [])
  | None =>
  match orElse nonEmpty (backendUrl env) None with
  | None =>
      ({| http_status := 500;
          http_body := ErrorBody (js "Backend API URL not configured")
                                 (Some true) None |}, [])
  | Some url =>
  (* Test backend connectivity first *)
  let healthCall := HealthCheck (url ++ js "/api/v2/health") in
  match health env with
  | Throw _ => (unavailable (js "Backend service is not accessible."), [healthCall])
  | Ok healthResponse =>
  if negb (ok healthResponse) then
    (unavailable (js "Backend service is not responding properly."), [healthCall])
  else
  (* Call the backend API *)
  let calls :=
    [healthCall; ParseMultiple (url ++ js "/api/v2/parse-multiple-invoices/") files] in
  match parse env with
  | Throw error => (internalError error, calls)
  | Ok response =>
      if negb (ok response) then
        match text response with
        | Throw error => (internalError error, calls)
        | Ok _ =>
            (relayed env (status response)
               (js "Backend API error: " ++ decimal (status response)), calls)
        end
      else
        match json response with
        | Throw error => (internalError error, calls)
        | Ok result =>
            ({| http_status := 200;
                http_body := Forwarded (js "Batch processing completed successfully")
                                       result |}, calls)
        end
  end end end end end.

(** A configured, healthy service behind the forwarding route. *)
Definition healthyEnv : Env :=
  {| backendUrl := Some (js "http://backend");
     health := respond JsonNull;
     parse := respond (JsonValue true (ResultsArray []));
     refusalMessage := js "Invalid response status code" |}.

End Forwarder.

(** ** Shapes of normalized names, named for the statements below *)

Module NameShapes.

(** The string does not start with white space. *)
Definition cleanStart (s : jsstring) : Prop :=
  match s with
  | [] => True
  | c :: _ => isWhiteSpace c = false
  end.

(** The string neither starts nor ends with white space. *)
Definition cleanEdges (s : jsstring) : Prop := cleanStart s /\ cleanStart (rev s).

(** An uppercase Basic Latin letter follows a word character.
    [prevWord] tells that the previous code unit was a word character. *)
Fixpoint hasInnerCapital (prevWord : bool) (s : jsstring) : bool :=
  match s with
  | [] => false
  | c :: r =>
      (prevWord && Normalizer.isUpper c) || hasInnerCapital (Normalizer.isWordChar c) r
  end.

End NameShapes.

(** ** Invoice numbers, vendor grouping and similarity
       ([src/lib/dataUtils.ts], the functions beside standardizeVendorName) *)

Module DataUtils.

(** The argument of [standardizeInvoiceNumber], as the checks of the
    function tell values apart. *)
Inductive InvoiceNumberValue : Type :=
| NumberValue (rendering : jsstring)   (* a number; what [toString()] gives *)
| StringValue (s : jsstring)
| OtherValue.                          (* [undefined], [null], any other value *)

(** [InvoiceData]: the two properties the functions rewrite, and the
    remaining ones ([amount], [date], any further key), which they copy. *)
Record InvoiceData {Rest : Type} := {
  invoiceNumber : InvoiceNumberValue;
  vendor : option jsstring;
  otherFields : Rest
}.
Arguments InvoiceData Rest : clear implicits.

(** A row of [exportCleanedDataForVisualization]: the cleaned invoice and
    the fields added for visualization. *)
Record ExportedInvoice {Rest : Type} := {
  cleaned : InvoiceData Rest;
  vendor_standardized : jsstring;
  invoice_number_standardized : jsstring;
  vendor_length : nat;
  has_special_chars : bool;
  vendor_word_count : nat
}.
Arguments ExportedInvoice Rest : clear implicits.

Record VendorStandardization := {
  original : jsstring;
  standardized : jsstring;
  confidence : Q
}.

(** *** Maps and arrays of the runtime *)

(** A [Map] with string keys: its entries, in insertion order. *)
Abbreviation JsMap V := (list (jsstring * V)).

Definition mapGet {V} (key : jsstring) (m : JsMap V) : option V :=
  snd <$> List.find (fun entry => bool_decide (fst entry = key)) m.

Definition mapHas {V} (key : jsstring) (m : JsMap V) : bool :=
  bool_decide (is_Some (mapGet key m)).

(** [m.set(key, value)]: a key that is present keeps its place. *)
Fixpoint mapSet {V} (key : jsstring) (value : V) (m : JsMap V) : JsMap V :=
  match m with
  | [] => [(key, value)]
  | (k, v) :: rest =>
      if bool_decide (k = key) then (k, value) :: rest
      else (k, v) :: mapSet key value rest
  end.

(** A mutation of the value held under [key] (the [push] on the array that
    [m.get(key)] returns). *)
Fixpoint mapUpdate {V} (key : jsstring) (f : V -> V) (m : JsMap V) : JsMap V :=
  match m with
  | [] => []
  | (k, v) :: rest =>
      if bool_decide (k = key) then (k, f v) :: rest
      else (k, v) :: mapUpdate key f rest
  end.

(** [Array.prototype.join] *)
Definition join (separator : jsstring) (parts : list jsstring) : jsstring :=
  match parts with
  | [] => []
  | first :: rest => first ++ concat (map (fun part => separator ++ part) rest)
  end.

(** [Array.prototype.sort(compare)] for a consistent comparator: the
    stable sort.  [before a b] tells that [compare(a, b)] is negative; an
    element is placed after the elements that do not come after it. *)
Fixpoint insertSorted {A} (before : A -> A -> bool) (x : A) (sorted : list A) : list A :=
  match sorted with
  | [] => [x]
  | y :: rest =>
      if before x y then x :: y :: rest else y :: insertSorted before x rest
  end.

Definition sortBy {A} (before : A -> A -> bool) (l : list A) : list A :=
  fold_left (fun sorted x => insertSorted before x sorted) l [].

(** [for (let k = from; k < from + count; k++) body(k)], the state
    threaded through. *)
Fixpoint forUpTo {State} (count from : nat) (body : nat -> State -> State)
  (s : State) : State :=
  match count with
  | O => s
  | S count' => forUpTo count' (S from) body (body from s)
  end.

(** *** levenshteinDistance *)

(** The matrix: an array of rows, whose cells are [null] until written. *)
Abbreviation Matrix := (list (list (option nat))).

(** [Array(rows).fill(null).map(() => Array(columns).fill(null))] *)
Definition newMatrix (rows columns : nat) : Matrix :=
  replicate rows (replicate columns None).

(** [matrix[j][i]] read as a number ([null] counts as 0 in a sum; the loops
    read only cells that were written). *)
Definition cell (matrix : Matrix) (j i : nat) : nat :=
  match matrix !! j with
  | Some row => match row !! i with
                | Some (Some value) => value
                | _ => 0
                end
  | None => 0
  end.

(** [matrix[j][i] = value], for a cell of the matrix. *)
Definition setCell (matrix : Matrix) (j i value : nat) : Matrix :=
  alter (fun row => <[i := Some value]> row) j matrix.

Definition levenshteinDistance (str1 str2 : jsstring) : nat :=
  let matrix := newMatrix (length str2 + 1) (length str1 + 1) in
  let matrix :=
    forUpTo (length str1 + 1) 0 (fun i matrix => setCell matrix 0 i i) matrix in
  let matrix :=
    forUpTo (length str2 + 1) 0 (fun j matrix => setCell matrix j 0 j) matrix in
  let matrix :=
    forUpTo (length str2) 1
      (fun j matrix =>
         forUpTo (length str1) 1
           (fun i matrix =>
              let indicator :=
                if bool_decide (str1 !! (i - 1) = str2 !! (j - 1)) then 0 else 1 in
              setCell matrix j i
                (Nat.min (Nat.min (cell matrix j (i - 1) + 1)
                                  (cell matrix (j - 1) i + 1))
                         (cell matrix (j - 1) (i - 1) + indicator)))
           matrix)
      matrix in
  cell matrix (length str2) (length str1).

(** The recurrence of the edit distance between the first [i] code units of
    [str1] and the first [j] of [str2]; the matrix loops are compared with
    it below. *)
Fixpoint editDistance (str1 str2 : jsstring) (j : nat) : nat -> nat :=
  match j with
  | O => fun i => i
  | S j' =>
      fix row (i : nat) : nat :=
        match i with
        | O => S j'
        | S i' =>
            Nat.min (Nat.min (row i' + 1) (editDistance str1 str2 j' (S i') + 1))
                    (editDistance str1 str2 j' i'
                     + (if bool_decide (str1 !! i' = str2 !! j') then 0 else 1))
        end
  end.

(** The matrix has its dimensions: [rows] rows of [columns] cells. *)
Definition wellFormed (rows columns : nat) (matrix : Matrix) : Prop :=
  length matrix = rows /\ Forall (fun row => length row = columns) matrix.

(** The state of the matrix when the loops reach row [J], column [I]: the
    first row, the first column, the rows before [J] and the cells of row
    [J] before column [I] hold the edit distances of the prefixes. *)
Definition filled (str1 str2 : jsstring) (J I : nat) (matrix : Matrix) : Prop :=
  wellFormed (length str2 + 1) (length str1 + 1) matrix
  /\ forall j i, j <= length str2 -> i <= length str1 ->
       j = 0 \/ i = 0 \/ j < J \/ (j = J /\ i < I) ->
       cell matrix j i = editDistance str1 str2 j i.

Section WithBuiltins.
Context {B : Builtins}.

(** *** Vendor grouping and similarity *)

(** First pass of [groupSimilarVendors]: standardize all vendor names. *)
Definition standardizeAll (vendors : list jsstring) : JsMap jsstring :=
  fold_left
    (fun standardized vendor =>
       mapSet vendor (Normalizer.standardizeVendorName (Some vendor)) standardized)
    vendors [].

(** [if (!groups.has(standard)) groups.set(standard, []);
     groups.get(standard)!.push(vendor)] *)
Definition addToGroup (standard vendor : jsstring) (groups : JsMap (list jsstring))
  : JsMap (list jsstring) :=
  let groups := if negb (mapHas standard groups) then mapSet standard [] groups
                else groups in
  mapUpdate standard (fun names => names ++ [vendor]) groups.

(** Second pass: group by standardized names.  (The lookup in
    [standardized] cannot miss: the first pass has set every vendor.) *)
Definition groupStep (standardized : JsMap jsstring)
  (groups : JsMap (list jsstring)) (vendor : jsstring) : JsMap (list jsstring) :=
  match mapGet vendor standardized with
  | Some standard => addToGroup standard vendor groups
  | None => groups
  end.

Definition groupSimilarVendors (vendors : list jsstring) : JsMap (list jsstring) :=
  let standardized := standardizeAll vendors in
  fold_left (groupStep standardized) vendors [].

Definition calculateVendorSimilarity (name1 name2 : option jsstring) : Q :=
  let std1 := Normalizer.standardizeVendorName name1 in
  let std2 := Normalizer.standardizeVendorName name2 in
  if bool_decide (std1 = std2) then 1%Q
  else
    let distance := levenshteinDistance std1 std2 in
    let maxLength := Nat.max (length std1) (length std2) in
    if maxLength =? 0 then 1%Q
    else (1 - inject_Z (Z.of_nat distance) / inject_Z (Z.of_nat maxLength))%Q.

(** [a.confidence - b.confidence] is negative. *)
Definition lessConfident (a b : VendorStandardization) : bool :=
  match (confidence a ?= confidence b)%Q with
  | Lt => true
  | _ => false
  end.

Definition generateVendorMappingReport (vendors : list jsstring)
  : list VendorStandardization :=
  let groups := groupSimilarVendors vendors in
  let report :=
    flat_map
      (fun '(standardized, originalNames) =>
         map (fun original =>
                {| original := original;
                   standardized := standardized;
                   confidence :=
                     calculateVendorSimilarity (Some original) (Some standardized) |})
             originalNames)
      groups in
  sortBy lessConfident report.

(** *** Invoice numbers *)

(** The complement of the class [[^\w.-]]. *)
Definition isNumberChar (c : N) : bool :=
  Normalizer.isWordChar c || (c =? 46)%N || (c =? 45)%N.

Definition standardizeInvoiceNumber (invoiceNumber : InvoiceNumberValue) : jsstring :=
  match invoiceNumber with
  | NumberValue rendering => rendering
  | StringValue s =>
      if negb (nonEmpty s) then []
      else
        (* Remove all non-alphanumeric characters except hyphens and periods *)
        toUpperCase (List.filter isNumberChar (trim s))
  | OtherValue => []
  end.

Definition validateInvoiceNumber (invoiceNumber : InvoiceNumberValue) : bool :=
  let standardized := standardizeInvoiceNumber invoiceNumber in
  (* Check if it's not empty and contains at least one digit *)
  (0 <? length standardized) && existsb Normalizer.isDigit standardized.

Definition processInvoiceData {Rest} (invoices : list (InvoiceData Rest))
  : list (InvoiceData Rest) :=
  map (fun invoice =>
         {| invoiceNumber := StringValue (standardizeInvoiceNumber (invoiceNumber invoice));
            vendor := Some (Normalizer.standardizeVendorName (vendor invoice));
            otherFields := otherFields invoice |})
      invoices.

(** The class [[.-]]. *)
Definition isPeriodOrHyphen (c : N) : bool := (c =? 46)%N || (c =? 45)%N.

Definition createSearchableInvoiceNumber (invoiceNumber : InvoiceNumberValue) : jsstring :=
  let standardized := standardizeInvoiceNumber invoiceNumber in
  (* Create variations that might be searched *)
  let variations :=
    [ standardized;
      List.filter (fun c => negb (isPeriodOrHyphen c)) standardized;
      map (fun c => if isPeriodOrHyphen c then 32%N else c) standardized;
      toLowerCase standardized ] in
  join (js " ") variations.

Definition filterInvoicesByNumber {Rest} (invoices : list (InvoiceData Rest))
  (searchTerm : jsstring) : list (InvoiceData Rest) :=
  if negb (nonEmpty searchTerm) || bool_decide (trim searchTerm = []) then invoices
  else
    let normalizedSearch := toLowerCase (trim searchTerm) in
    List.filter
      (fun invoice =>
         let searchableNumber := createSearchableInvoiceNumber (invoiceNumber invoice) in
         Forwarder.includes normalizedSearch (toLowerCase searchableNumber))
      invoices.

(** The class [[^\w\s.-]]. *)
Definition isSpecialChar (c : N) : bool :=
  negb (Normalizer.isWordChar c || isWhiteSpace c || (c =? 46)%N || (c =? 45)%N).

(** [invoice.vendor] of a cleaned invoice, which is a string. *)
Definition vendorText {Rest} (invoice : InvoiceData Rest) : jsstring :=
  default [] (vendor invoice).

Definition exportCleanedDataForVisualization {Rest} (invoices : list (InvoiceData Rest))
  : list (ExportedInvoice Rest) :=
  let cleaned := processInvoiceData invoices in
  (* Add additional fields for better visualization *)
  map (fun invoice =>
         {| cleaned := invoice;
            vendor_standardized := Normalizer.standardizeVendorName (vendor invoice);
            invoice_number_standardized :=
              standardizeInvoiceNumber (invoiceNumber invoice);
            vendor_length := length (vendorText invoice);
            has_special_chars := existsb isSpecialChar (vendorText invoice);
            (* [split(' ').length]: one more than the number of spaces *)
            vendor_word_count := S (length (List.filter (fun c => (c =? 32)%N)
                                                        (vendorText invoice))) |})
      cleaned.

End WithBuiltins.

(** *** Sample data *)

Definition invoiceRow (number vendorName : string) : InvoiceData Q :=
  {| invoiceNumber := StringValue (js number);
     vendor := Some (js vendorName);
     otherFields := 100%Q |}.

End DataUtils.
(** ** The single-document route and its availability gate
       ([src/app/api/process-invoice/route.ts], first module) *)

Module SingleRoute.
Import Orchestrator.

Definition maxRetries : nat := 3.

(** The parsed body of the extraction service's answer: [null], or a value
    with the truthiness of its [success] property and its [message], [data]
    and [request_id] properties (a body that is a number, a string, a
    boolean or an array has none of them). *)
Inductive ParsedBody : Type :=
| ParsedNull
| ParsedValue (success : bool) (message : option jsstring)
              (data : option ExtractedInvoice) (request_id : option jsstring).

(** A [Response]: [ok], [status], and what [text()] and [json()] give. *)
Record Response := {
  ok : bool;
  status : N;
  text : Result jsstring;
  json : Result ParsedBody
}.

(** What the route does to the outside, in order: a health probe, a pause
    between two probes, the submission of the file. *)
Inductive Event : Type :=
| HealthProbe (url : jsstring)
| Wait (milliseconds : N)
| ParseInvoice (url : jsstring) (file : File).

(** The environment of one request: the configured base URL, what the
    health probe settles to at each attempt (the attempt is the value of
    [retryCount] when the probe is issued), what the submission settles to
    (it rejects with an [AbortError] when the timeout aborts it), and the
    text of the error that the runtime raises when a response is built
    with a status it refuses. *)
Record Env := {
  backendUrl : option jsstring;
  health : nat -> Result Response;
  parse : Result Response;
  refusalMessage : jsstring
}.

(** The JSON body of a response of the route. *)
Inductive ResponseBody : Type :=
| ErrorBody (message : jsstring) (details : option jsstring)
            (setupRequired : option bool) (retryAfter : option N)
| Processed (data : option ExtractedInvoice) (request_id : option jsstring)
            (message : jsstring).

Record HttpResponse := {
  http_status : N;
  http_body : ResponseBody
}.

(** The handler runs with the log of its events and may throw. *)
Abbreviation Route := (Eff (list Event)).

Definition emit (event : Event) : Route unit :=
  fun log => (Ok tt, log ++ [event]).

(** The statuses that allow no body. *)
Definition isNullBodyStatus (code : N) : bool :=
  (code =? 101)%N || (code =? 103)%N || (code =? 204)%N || (code =? 205)%N
  || (code =? 304)%N.

(** [NextResponse.json(body, { status })]: building a response throws a
    [RangeError] for a status outside 200 to 599 and a [TypeError] for a
    body with a status that allows none. *)
Definition nextResponseJson (env : Env) (code : N) (body : ResponseBody)
  : Route (option HttpResponse) :=
  if negb (inRange 200 599 code) then
    throw (JsError (js "RangeError") (refusalMessage env))
  else if isNullBodyStatus code then
    throw (JsError (js "TypeError") (refusalMessage env))
  else ret (Some {| http_status := code; http_body := body |}).

Definition newline : jsstring := [10%N].

(** The template literal of the configuration message, and its [trim()]. *)
Definition setupTemplate : jsstring :=
  newline
  ++ js "        Backend API URL not configured! " ++ newline
  ++ js "        " ++ newline
  ++ js "        Please create a .env.local file in your project root with:" ++ newline
  ++ js "        NEXT_PUBLIC_API_BASE_URL=https://your-render-app-name.onrender.com"
  ++ newline
  ++ js "        " ++ newline
  ++ js "        Replace 'your-render-app-name' with your actual Render app name."
  ++ newline
  ++ js "        Then restart the development server." ++ newline
  ++ js "        " ++ newline
  ++ js "        The API should support the ULTRA-AGGRESSIVE endpoints:" ++ newline
  ++ js "        - /api/v2/parse-invoice/" ++ newline
  ++ js "        - /api/v2/parse-multiple-invoices/" ++ newline
  ++ js "      ".

Definition unavailableDetails : jsstring :=
  js "The backend service is currently unavailable. This could be due to:"
  ++ newline ++ newline
  ++ js "1. Render service is in sleep mode (try again in 30-60 seconds)" ++ newline
  ++ js "2. Backend service is down for maintenance" ++ newline
  ++ js "3. Network connectivity issues" ++ newline ++ newline
  ++ js "Please try uploading again in a few moments. If the problem persists, contact support.".

(** One turn of the [while] loop: the probe answered with a 2xx status
    ([break]), or the loop goes on with the new [retryCount] and
    [healthResponse]. *)
Inductive Turn : Type :=
| Break (healthResponse : Response)
| Continue (retryCount : nat) (healthResponse : option Response).

(** [retryCount++; if (retryCount < maxRetries) await new Promise(resolve =>
    setTimeout(resolve, 5000))] *)
Definition countAndPause (retryCount : nat) : Route nat :=
  let retryCount := S retryCount in
  let* _ := (if retryCount <? maxRetries then emit (Wait 5000) else ret tt) in
  ret retryCount.

(** The body of the loop: [try { ... } catch { ... }]. *)
Definition healthTurn (env : Env) (url : jsstring) (retryCount : nat)
  (healthResponse : option Response) : Route Turn :=
  tryCatch
    (let* _ := emit (HealthProbe url) in
     let* response := await (health env retryCount) in
     if ok response then ret (Break response)
     else
       let* retryCount := countAndPause retryCount in
       ret (Continue retryCount (Some response)))
    (fun _ =>
       let* retryCount := countAndPause retryCount in
       ret (Continue retryCount healthResponse)).

(** [while (retryCount < maxRetries) { ... }], with fuel; [None] means that
    the fuel ran out. *)
Fixpoint healthLoop (env : Env) (url : jsstring) (fuel retryCount : nat)
  (healthResponse : option Response) : Route (option (option Response)) :=
  if retryCount <? maxRetries then
    match fuel with
    | O => ret None
    | S fuel' =>
        let* turn := healthTurn env url retryCount healthResponse in
        match turn with
        | Break response => ret (Some (Some response))
        | Continue retryCount healthResponse =>
            healthLoop env url fuel' retryCount healthResponse
        end
    end
  else ret (Some healthResponse).

(** The outer [catch]. *)
Definition internalError (env : Env) (error : Thrown) : Route (option HttpResponse) :=
  match error with
  | JsError _ message =>
      if Forwarder.includes (js "fetch") message
         || Forwarder.includes (js "network") message then
        nextResponseJson env 503
          (ErrorBody (js "Network error. Unable to connect to the backend service.")
             (Some (js "Error: " ++ message
                    ++ js ". Please check your internet connection and try again."))
             None None)
      else if Forwarder.includes (js "timeout") message then
        nextResponseJson env 408
          (ErrorBody (js "Request timeout. The backend took too long to respond.")
             (Some (js "Try uploading a smaller file.")) None None)
      else
        nextResponseJson env 500
          (ErrorBody (js "Internal server error. Please try again later.")
             (Some message) None None)
  | JsNonError _ =>
      nextResponseJson env 500
        (ErrorBody (js "Internal server error. Please try again later.")
           (Some (js "Unknown error")) None None)
  end.

(** The submission to the extraction service and the reading of its
    answer: the inner [try] with its [catch]. *)
Definition submit (env : Env) (url : jsstring) (file : File)
  : Route (option HttpResponse) :=
  tryCatch
    (let* _ := emit (ParseInvoice (url ++ js "/api/v2/parse-invoice/") file) in
     let* response := await (parse env) in
     if negb (ok response) then
       let* errorText := await (text response) in
       (* Handle specific error codes *)
       if (status response =? 502)%N then
         nextResponseJson env 502
           (ErrorBody
              (js "Backend service temporarily unavailable. Please try again later.")
              (Some (js "The backend service may be overloaded or experiencing issues."))
              None None)
       else if (status response =? 504)%N then
         nextResponseJson env 504
           (ErrorBody
              (js "Request timeout. The backend took too long to process the file.")
              (Some (js "Try uploading a smaller file or check your internet connection."))
              None None)
       else
         nextResponseJson env (status response)
           (ErrorBody (js "Backend API error: " ++ decimal (status response)
                       ++ js " - " ++ errorText)
              None None None)
     else
       let* result := await (json response) in
       match result with
       | ParsedNull => throw (readOfNull (js "success"))
       | ParsedValue success message data request_id =>
           (* Check if the backend returned success *)
           if negb success then
             nextResponseJson env 400
               (ErrorBody (default (js "Backend processing failed")
                                   (orElse nonEmpty message None))
                  None None None)
           else
             (* Return the structured data from the backend *)
             nextResponseJson env 200
               (Processed data request_id
                  (default (js "Invoice processed successfully")
                           (orElse nonEmpty message None)))
       end)
    (fun fetchError =>
       if isAbortError fetchError then
         nextResponseJson env 408
           (ErrorBody
              (js "Request timeout. The backend took too long to process the file.")
              (Some (js "Try uploading a smaller file or try again later."))
              None None)
       else throw fetchError).

(** The handler; [file] is [formData.get('file')].  [None] as a result
    means that the loop ran out of fuel. *)
Definition handle (env : Env) (file : option File) : Route (option HttpResponse) :=
  tryCatch
    (match file with
     | None =>
         nextResponseJson env 400 (ErrorBody (js "No file provided") None None None)
     | Some file =>
         if negb (bool_decide (file_type file = js "application/pdf")) then
           nextResponseJson env 400
             (ErrorBody (js "Only PDF files are supported") None None None)
         else if (maxFileSize <? file_size file)%N then
           nextResponseJson env 400
             (ErrorBody
                (js "File size exceeds 5MB limit. Please upload a smaller file.")
                None None None)
         else
           (* Get the backend API URL from environment variable *)
           match orElse nonEmpty (backendUrl env) None with
           | None =>
               nextResponseJson env 500
                 (ErrorBody (js "Backend API URL not configured")
                    (Some (trim setupTemplate)) (Some true) None)
           | Some url =>
               (* Test backend connectivity first with retry logic *)
               let* looped :=
                 healthLoop env (url ++ js "/api/v2/health") maxRetries 0 None in
               match looped with
               | None => ret None
               | Some healthResponse =>
                   if negb (match healthResponse with
                            | Some response => ok response
                            | None => false
                            end) then
                     nextResponseJson env 503
                       (ErrorBody
                          (js "Backend service is not accessible after multiple attempts.")
                          (Some unavailableDetails) (Some false) (Some 30%N))
                   else submit env url file
               end
           end
     end)
    (internalError env).

(** The route, from a fresh log: how the handler settles and the events. *)
Definition POST (env : Env) (file : option File)
  : Result (option HttpResponse) * list Event :=
  handle env file [].

(** *** The gate and the run, named for the statements below *)

(** The probe at [attempt] answered with a 2xx status. *)
Definition isHealthy (env : Env) (attempt : nat) : bool :=
  match health env attempt with
  | Ok response => ok response
  | Throw _ => false
  end.

(** The first of the attempts from [attempt] on, [count] of them at most,
    at which the probe answered with a 2xx status. *)
Fixpoint firstHealthy (env : Env) (count attempt : nat) : option nat :=
  match count with
  | O => None
  | S count' =>
      if isHealthy env attempt then Some attempt
      else firstHealthy env count' (S attempt)
  end.

(** The events of [failures] failed probes, each followed by its pause. *)
Definition failedProbes (url : jsstring) (failures : nat) : list Event :=
  concat (replicate failures [HealthProbe url; Wait 5000]).

(** The events of [attempts] failed probes that exhaust the retries: no
    pause follows the last one. *)
Definition exhaustedProbes (url : jsstring) (attempts : nat) : list Event :=
  match attempts with
  | O => []
  | S failures => failedProbes url failures ++ [HealthProbe url]
  end.

(** What the extraction service extracted: the submission was answered
    with a 2xx status and a body whose [success] is truthy. *)
Definition extraction (env : Env)
  : option (option jsstring * option ExtractedInvoice * option jsstring) :=
  match parse env with
  | Ok response =>
      if ok response then
        match json response with
        | Ok (ParsedValue true message data request_id) =>
            Some (message, data, request_id)
        | _ => None
        end
      else None
  | Throw _ => None
  end.

(** The response that relays an extraction. *)
Definition successResponse (env : Env) : option HttpResponse :=
  match extraction env with
  | Some (message, data, request_id) =>
      Some {| http_status := 200;
              http_body :=
                Processed data request_id
                  (default (js "Invoice processed successfully")
                           (orElse nonEmpty message None)) |}
  | None => None
  end.

(** The [ok] flag of the answer to the submission agrees with its status,
    as it does for every [Response] of the runtime. *)
Definition okAgreesWithStatus (env : Env) : Prop :=
  forall response, parse env = Ok response ->
    ok response = inRange 200 299 (status response).

(** The file passes the checks of the route. *)
Definition isAccepted (file : option File) : bool :=
  match file with
  | Some file =>
      bool_decide (file_type file = js "application/pdf")
      && negb (maxFileSize <? file_size file)%N
  | None => false
  end.

(** The status of the response, when the handler returned one. *)
Definition statusOf (outcome : Result (option HttpResponse) * list Event) : option N :=
  match fst outcome with
  | Ok (Some response) => Some (http_status response)
  | _ => None
  end.

(** *** Sample data *)

Definition invoicePdf : File :=
  {| file_name := js "invoice.pdf"; file_type := js "application/pdf";
     file_size := 20480 |}.

Definition answer (code : N) (body : ParsedBody) : Result Response :=
  Ok {| ok := inRange 200 299 code; status := code;
        text := Ok (js "Bad Gateway"); json := Ok body |}.

(** A service that wakes up at the third probe and then extracts. *)
Definition coldStartEnv : Env :=
  {| backendUrl := Some (js "http://backend");
     health := fun attempt =>
       match attempt with
       | 0 => Throw (JsError (js "TimeoutError") (js "The operation was aborted due to timeout"))
       | 1 => answer 503 ParsedNull
       | _ => answer 200 ParsedNull
       end;
     parse := answer 200 (ParsedValue true None (Some StorageExamples.invoice100)
                            (Some (js "req-1")));
     refusalMessage := js "status refused" |}.

(** A service that never answers the probe. *)
Definition asleepEnv : Env :=
  {| backendUrl := Some (js "http://backend");
     health := fun _ => answer 503 ParsedNull;
     parse := answer 200 ParsedNull;
     refusalMessage := js "status refused" |}.

(** A healthy service behind a gateway that answers 502. *)
Definition badGatewayEnv : Env :=
  {| backendUrl := Some (js "http://backend");
     health := fun _ => answer 200 ParsedNull;
     parse := answer 502 ParsedNull;
     refusalMessage := js "status refused" |}.

End SingleRoute.

(** ** Reading and deleting a record by id
       ([src/lib/invoiceStorage.ts], getInvoiceById and deleteInvoiceData) *)

Module StorageAdmin.
Import Storage.

(** Modelled from the spec: two more operations of the document store of
    section 6, the read of one document by id and the delete by id.  A
    delete of a document that does not exist succeeds and changes nothing;
    like every operation, both may fail, which the fault plan decides. *)
Definition getDoc (documentId : jsstring) : M (option StoredInvoiceData) :=
  let* _ := storageOperation in
  fun w => (Ok (collection w !! documentId), w).

Definition deleteDoc (documentId : jsstring) : M unit :=
  let* _ := storageOperation in
  fun w => (Ok tt, setCollection (delete documentId (collection w)) w).

Record DeleteResult := {
  success : bool;
  message : jsstring
}.

Definition deleteInvoiceData (documentId : jsstring) : M DeleteResult :=
  tryCatch
    (let* db := getFirebaseDB in
     if negb db then throw notInitialized else
     let* _ := deleteDoc documentId in
     ret {| success := true; message := js "Invoice deleted successfully" |})
    (fun error =>
       ret {| success := false;
              message := js "Failed to delete invoice: " ++ errorMessage error |}).

(** [{ ...data, id: docSnap.id }] *)
Definition withId (documentId : jsstring) (data : StoredInvoiceData) : StoredInvoiceData :=
  {| id := Some documentId;
     userId := userId data;
     filename := filename data;
     originalFilename := originalFilename data;
     fileUrl := fileUrl data;
     fileSize := fileSize data;
     invoiceNumber := invoiceNumber data;
     totalAmount := totalAmount data;
     invoiceDate := invoiceDate data;
     vendorName := vendorName data;
     processingMetadata := processingMetadata data;
     extractedData := extractedData data;
     createdAt := createdAt data;
     updatedAt := updatedAt data |}.

Definition getInvoiceById (documentId : jsstring) : M (option StoredInvoiceData) :=
  tryCatch
    (let* db := getFirebaseDB in
     if negb db then throw notInitialized else
     let* docSnap := getDoc documentId in
     match docSnap with
     | Some data => ret (Some (withId documentId data))
     | None => ret None
     end)
    (fun _ => ret None).

(** The next storage operation is not refused. *)
Definition nextOperationRuns (w : World) : bool :=
  match faults w with
  | Some _ :: _ => false
  | _ => true
  end.

End StorageAdmin.

(** ** Lazy initialization of the service clients ([src/lib/firebase.ts]) *)

Module Firebase.

(** An object of the SDK: an app, or one of its services. *)
Inductive Handle : Type := handle (n : N).

(** The variables of the module. *)
Record State := {
  app : option Handle;
  auth : option Handle;
  db : option Handle;
  storage : option Handle;
  initializationError : option Thrown;
  isInitialized : bool
}.

Definition initialState : State :=
  {| app := None; auth := None; db := None; storage := None;
     initializationError := None; isInitialized := false |}.

(** What one call finds around it: whether there is a [window], the two
    configuration variables that are checked, and what the four calls into
    the SDK give. *)
Record Env := {
  hasWindow : bool;
  NEXT_PUBLIC_FIREBASE_API_KEY : option jsstring;
  NEXT_PUBLIC_FIREBASE_PROJECT_ID : option jsstring;
  initializeApp : Result Handle;
  getAuth : Result Handle;
  getFirestore : Result Handle;
  getStorage : Result Handle
}.

(** The object that [initializeFirebase] returns. *)
Record Clients := {
  the_app : option Handle;
  the_auth : option Handle;
  the_db : option Handle;
  the_storage : option Handle;
  error : option Thrown
}.

Definition setApp (h : Handle) (s : State) : State :=
  {| app := Some h; auth := auth s; db := db s; storage := storage s;
     initializationError := initializationError s; isInitialized := isInitialized s |}.

Definition setAuth (h : Handle) (s : State) : State :=
  {| app := app s; auth := Some h; db := db s; storage := storage s;
     initializationError := initializationError s; isInitialized := isInitialized s |}.

Definition setDb (h : Handle) (s : State) : State :=
  {| app := app s; auth := auth s; db := Some h; storage := storage s;
     initializationError := initializationError s; isInitialized := isInitialized s |}.

Definition setStorage (h : Handle) (s : State) : State :=
  {| app := app s; auth := auth s; db := db s; storage := Some h;
     initializationError := initializationError s; isInitialized := isInitialized s |}.

(** [isInitialized = true; initializationError = null] *)
Definition markInitialized (s : State) : State :=
  {| app := app s; auth := auth s; db := db s; storage := storage s;
     initializationError := None; isInitialized := true |}.

Definition setError (e : Thrown) (s : State) : State :=
  {| app := app s; auth := auth s; db := db s; storage := storage s;
     initializationError := Some e; isInitialized := isInitialized s |}.

Definition assign (f : State -> State) : Eff State unit := fun s => (Ok tt, f s).

(** [{ app, auth, db, storage, error: initializationError }] *)
Definition clients (s : State) : Clients :=
  {| the_app := app s; the_auth := auth s; the_db := db s; the_storage := storage s;
     error := initializationError s |}.

(** The [try] block with its [catch]; it gives the object of the early
    [return], if any. *)
Definition attempt (env : Env) : Eff State (option Clients) :=
  tryCatch
    ((* Only initialize if we're in the browser (not during build) *)
     if negb (hasWindow env) then
       ret (Some {| the_app := None; the_auth := None; the_db := None;
                    the_storage := None; error := None |})
     else
     (* Check if essential config is available *)
     if negb (bool_decide (is_Some (orElse nonEmpty (NEXT_PUBLIC_FIREBASE_API_KEY env) None)))
        || negb (bool_decide
                   (is_Some (orElse nonEmpty (NEXT_PUBLIC_FIREBASE_PROJECT_ID env) None)))
     then
       throw (newError (js "Essential Firebase configuration missing. Please check your environment variables."))
     else
     let* h := await (initializeApp env) in
     let* _ := assign (setApp h) in
     let* h := await (getAuth env) in
     let* _ := assign (setAuth h) in
     let* h := await (getFirestore env) in
     let* _ := assign (setDb h) in
     let* h := await (getStorage env) in
     let* _ := assign (setStorage h) in
     let* _ := assign markInitialized in
     ret None)
    (fun thrown =>
       (* Store the error for later use *)
       let stored :=
         match thrown with
         | JsError _ _ => thrown
         | JsNonError _ => newError (js "Unknown Firebase initialization error")
         end in
       let* _ := assign (setError stored) in
       ret None).

Definition initializeFirebase (env : Env) (s : State) : Clients * State :=
  if isInitialized s then (clients s, s)
  else
    match attempt env s with
    | (Ok (Some early), s') => (early, s')
    | (_, s') => (clients s', s')
    end.

Definition getFirebaseApp (env : Env) (s : State) : option Handle * State :=
  let (result, s') := initializeFirebase env s in (the_app result, s').

Definition getFirebaseAuth (env : Env) (s : State) : option Handle * State :=
  let (result, s') := initializeFirebase env s in (the_auth result, s').

Definition getFirebaseDB (env : Env) (s : State) : option Handle * State :=
  let (result, s') := initializeFirebase env s in (the_db result, s').

Definition getFirebaseStorage (env : Env) (s : State) : option Handle * State :=
  let (result, s') := initializeFirebase env s in (the_storage result, s').

Definition isFirebaseInitialized (env : Env) (s : State) : bool * State :=
  let (result, s') := initializeFirebase env s in
  (negb (bool_decide (is_Some (error result))) && isInitialized s', s').

Definition getFirebaseInitializationError (env : Env) (s : State)
  : option Thrown * State :=
  let (result, s') := initializeFirebase env s in (error result, s').

(** The states of the module after any number of calls, each in an
    environment of its own. *)
Inductive reachable : State -> Prop :=
| reachable_initial : reachable initialState
| reachable_call (env : Env) (s : State) :
    reachable s -> reachable (snd (initializeFirebase env s)).

(** Every client is there and no error is stored. *)
Definition complete (s : State) : Prop :=
  is_Some (app s) /\ is_Some (auth s) /\ is_Some (db s) /\ is_Some (storage s)
  /\ initializationError s = None.

(** A browser with its configuration, in which the SDK gives the app, the
    authentication and the database, and fails on the file storage. *)
Definition storageFailsEnv : Env :=
  {| hasWindow := true;
     NEXT_PUBLIC_FIREBASE_API_KEY := Some (js "key");
     NEXT_PUBLIC_FIREBASE_PROJECT_ID := Some (js "project");
     initializeApp := Ok (handle 1);
     getAuth := Ok (handle 2);
     getFirestore := Ok (handle 3);
     getStorage := Throw (JsError (js "FirebaseError") (js "storage/unknown")) |}.

(** The same browser when every call into the SDK succeeds. *)
Definition browserEnv : Env :=
  {| hasWindow := true;
     NEXT_PUBLIC_FIREBASE_API_KEY := Some (js "key");
     NEXT_PUBLIC_FIREBASE_PROJECT_ID := Some (js "project");
     initializeApp := Ok (handle 1);
     getAuth := Ok (handle 2);
     getFirestore := Ok (handle 3);
     getStorage := Ok (handle 4) |}.

End Firebase.

(** ** Sample services for the batch routes *)

Module BatchRouteSamples.
Import Orchestrator.

(** A configured service whose health probe answers 502. *)
Definition badGateway : Result Response :=
  Ok {| ok := false; status := 502; text := Ok (js "Bad Gateway");
        json := Throw (JsError (js "SyntaxError") (js "Unexpected token B in JSON")) |}.

Definition downEnv : Env :=
  {| backendUrl := Some (js "http://backend");
     health := badGateway;
     backend := backend healthyEnv |}.

Definition downForwarding : Forwarder.Env :=
  {| Forwarder.backendUrl := Some (js "http://backend");
     Forwarder.health := badGateway;
     Forwarder.parse := Forwarder.parse Forwarder.healthyEnv;
     Forwarder.refusalMessage := Forwarder.refusalMessage Forwarder.healthyEnv |}.

End BatchRouteSamples.

(** ** The dashboard ([src/app/dashboard/page.tsx]): pages of the table,
       the selection of the upload dialog, the export to CSV *)

Module Dashboard.
Import Orchestrator.

(** *** Pages of the invoice table *)

Definition INVOICES_PER_PAGE : Z := 10.

(** [Array.prototype.slice(start, end)] for integers: a negative index
    counts from the end, and both are clamped to the array. *)
Definition slice {A} (start finish : Z) (items : list A) : list A :=
  let len := Z.of_nat (length items) in
  let k := if (start <? 0)%Z then Z.max (len + start) 0 else Z.min start len in
  let final := if (finish <? 0)%Z then Z.max (len + finish) 0 else Z.min finish len in
  take (Z.to_nat (final - k)) (drop (Z.to_nat k) items).

(** [Math.ceil(n / d)] for a length [n] and a positive [d]. *)
Definition ceilOfQuotient (n d : Z) : Z := (- ((- n) / d))%Z.

Record Pagination (A : Type) := {
  totalPages : Z;
  startIndex : Z;
  endIndex : Z;
  currentInvoices : list A;
  showingFrom : Z;
  showingTo : Z;
  total : Z
}.
Arguments totalPages {A}.
Arguments startIndex {A}.
Arguments endIndex {A}.
Arguments currentInvoices {A}.
Arguments showingFrom {A}.
Arguments showingTo {A}.
Arguments total {A}.

Definition filteredInvoicesPagination {A} (filteredInvoices : list A) (currentPage : Z)
  : Pagination A :=
  let count := Z.of_nat (length filteredInvoices) in
  let totalPages := ceilOfQuotient count INVOICES_PER_PAGE in
  let startIndex := ((currentPage - 1) * INVOICES_PER_PAGE)%Z in
  let endIndex := Z.min (startIndex + INVOICES_PER_PAGE) count in
  let currentInvoices := slice startIndex endIndex filteredInvoices in
  {| totalPages := totalPages;
     startIndex := startIndex;
     endIndex := endIndex;
     currentInvoices := currentInvoices;
     showingFrom := startIndex + 1;
     showingTo := endIndex;
     total := count |}.

(** The page numbers [1 .. n]. *)
Definition pageNumbers (n : Z) : list Z :=
  map (fun i => Z.of_nat (S i)) (seq 0 (Z.to_nat n)).

(** *** The selection of the upload dialog *)

(** What the handlers of the dialog read and write: the selected files, the
    flag that disables the button, the key of the file input, and the
    toasts shown so far (text and kind), latest last. *)
Record Dialog := {
  uploadedFiles : list File;
  hasOversizedFiles : bool;
  fileInputKey : N;
  toasts : list (jsstring * jsstring)
}.

Definition initialDialog : Dialog :=
  {| uploadedFiles := []; hasOversizedFiles := false; fileInputKey := 0; toasts := [] |}.

Definition showToast (message kind : jsstring) (d : Dialog) : Dialog :=
  {| uploadedFiles := uploadedFiles d; hasOversizedFiles := hasOversizedFiles d;
     fileInputKey := fileInputKey d; toasts := toasts d ++ [(message, kind)] |}.

Definition setHasOversizedFiles (flag : bool) (d : Dialog) : Dialog :=
  {| uploadedFiles := uploadedFiles d; hasOversizedFiles := flag;
     fileInputKey := fileInputKey d; toasts := toasts d |}.

Definition setUploadedFiles (update : list File -> list File) (d : Dialog) : Dialog :=
  {| uploadedFiles := update (uploadedFiles d); hasOversizedFiles := hasOversizedFiles d;
     fileInputKey := fileInputKey d; toasts := toasts d |}.

Definition setFileInputKey (update : N -> N) (d : Dialog) : Dialog :=
  {| uploadedFiles := uploadedFiles d; hasOversizedFiles := hasOversizedFiles d;
     fileInputKey := update (fileInputKey d); toasts := toasts d |}.

(** The part that [handleFileSelect] and [handleModalDrop] share. *)
Definition takeFiles (files : list File) (d : Dialog) : Dialog :=
  (* Filter PDF files only *)
  let pdfFiles := filter (fun file => file_type file = js "application/pdf") files in
  (* Check file size limits - 5MB maximum per invoice *)
  let maxFileSize := (5 * 1024 * 1024)%N in
  let oversizedFiles := filter (fun file => (maxFileSize < file_size file)%N) pdfFiles in
  let validFiles := filter (fun file => (file_size file <= maxFileSize)%N) pdfFiles in
  let d :=
    if (0 <? length oversizedFiles)%nat then
      let fileNames := DataUtils.join (js ", ") (map file_name oversizedFiles) in
      setHasOversizedFiles true
        (showToast (js "File(s) " ++ dquote ++ fileNames ++ dquote
                    ++ js " exceed 5MB limit and cannot be processed.")
                   (js "error") d)
    else setHasOversizedFiles false d in
  let d :=
    if (0 <? length validFiles)%nat then setUploadedFiles (fun prev => prev ++ validFiles) d
    else d in
  if (length pdfFiles <? length files)%nat then
    showToast (js "Only PDF files are supported") (js "error") d
  else d.

(** [e.target.files] is null, or the files of the input. *)
Definition handleFileSelect (files : option (list File)) (d : Dialog) : Dialog :=
  match files with
  | Some files =>
      (* Reset the input value to allow selecting the same file again *)
      setFileInputKey (fun prev => (prev + 1)%N) (takeFiles files d)
  | None => d
  end.

Definition handleModalDrop (files : list File) (d : Dialog) : Dialog :=
  takeFiles files d.

(** [prev.filter((_, i) => i !== index)] *)
Fixpoint removeAt {A} (index : nat) (items : list A) : list A :=
  match items, index with
  | [], _ => []
  | _ :: rest, O => rest
  | item :: rest, S index' => item :: removeAt index' rest
  end.

Definition removeFile (index : nat) (d : Dialog) : Dialog :=
  let newFiles := removeAt index (uploadedFiles d) in
  (* Check if there are still oversized files after removal *)
  let maxFileSize := (5 * 1024 * 1024)%N in
  let hasOversized := existsb (fun file => (maxFileSize <? file_size file)%N) newFiles in
  setUploadedFiles (fun _ => newFiles) (setHasOversizedFiles hasOversized d).

(** What [closeUploadModal] does to the selection: [setUploadedFiles([])]. *)
Definition closeUploadModal (d : Dialog) : Dialog :=
  setUploadedFiles (fun _ => []) d.

(** What the user does to the dialog. *)
Inductive Action : Type :=
| SelectFiles (files : option (list File))
| DropFiles (files : list File)
| RemoveFile (index : nat)
| CloseDialog.

Definition act (d : Dialog) (action : Action) : Dialog :=
  match action with
  | SelectFiles files => handleFileSelect files d
  | DropFiles files => handleModalDrop files d
  | RemoveFile index => removeFile index d
  | CloseDialog => closeUploadModal d
  end.

(** The [disabled] of the button that starts the processing, apart from
    [isProcessing]. *)
Definition processDisabled (d : Dialog) : bool :=
  (length (uploadedFiles d) =? 0)%nat || hasOversizedFiles d.

(** Every selected file is a PDF within the cap. *)
Definition valid (file : File) : Prop :=
  file_type file = js "application/pdf" /\ (file_size file <= 5 * 1024 * 1024)%N.

(** *** The export to CSV *)

(** Escape CSV values to handle commas and quotes.  [None] is null or
    undefined, [Some str] a value whose [String(value)] is [str]. *)
Definition escapeCSV (value : option jsstring) : jsstring :=
  match value with
  | None => []
  | Some str =>
      (* If the value contains comma, quote, or newline, wrap in quotes and
         escape quotes *)
      if Forwarder.includes (js ",") str || Forwarder.includes dquote str
         || Forwarder.includes [10%N] str
      then dquote
           ++ flat_map (fun c => if (c =? 34)%N then dquote ++ dquote else [c]) str
           ++ dquote
      else str
  end.

(** The eleven values of a line of the export, each as its [String(value)]
    before escaping. *)
Record ExportRow := {
  row_invoiceNumber : jsstring;
  row_date : jsstring;
  row_vendor : jsstring;
  row_customer : jsstring;
  row_totalAmount : jsstring;
  row_itemsCount : jsstring;
  row_commodityItems : jsstring;
  row_individualPrices : jsstring;
  row_currency : jsstring;
  row_status : jsstring;
  row_pdfLink : jsstring
}.

(** The template literal of a line. *)
Definition csvLine (row : ExportRow) : jsstring :=
  escapeCSV (Some (row_invoiceNumber row)) ++ js ","
  ++ escapeCSV (Some (row_date row)) ++ js ","
  ++ escapeCSV (Some (row_vendor row)) ++ js ","
  ++ escapeCSV (Some (row_customer row)) ++ js ","
  ++ escapeCSV (Some (row_totalAmount row)) ++ js ","
  ++ escapeCSV (Some (row_itemsCount row)) ++ js ","
  ++ escapeCSV (Some (row_commodityItems row)) ++ js ","
  ++ escapeCSV (Some (row_individualPrices row)) ++ js ","
  ++ escapeCSV (Some (row_currency row)) ++ js ","
  ++ escapeCSV (Some (row_status row)) ++ js ","
  ++ escapeCSV (Some (row_pdfLink row)).

(** The text that is handed to [encodeURI]. *)
Definition csvContent (rows : list ExportRow) : jsstring :=
  js "data:text/csv;charset=utf-8,"
  ++ js "Invoice Number,Date,Vendor,Customer,Total Amount,Items Count,"
  ++ js "Commodity Items,Individual Prices,Currency,Invoice Status,PDF Link"
  ++ [10%N]
  ++ DataUtils.join [10%N] (map csvLine rows).

(** The values of a line, in the order of the columns. *)
Definition cells (row : ExportRow) : list jsstring :=
  [ row_invoiceNumber row; row_date row; row_vendor row; row_customer row;
    row_totalAmount row; row_itemsCount row; row_commodityItems row;
    row_individualPrices row; row_currency row; row_status row; row_pdfLink row ].

(** A reader of comma-separated text, by which the lines of the export are
    taken apart again: a value starts with a quote and runs to the next
    quote that is not doubled, or runs to the next comma or line feed. *)
Inductive ReaderState : Type :=
| ValueStart
| Unquoted
| Quoted
| QuoteSeen.

Fixpoint readCsv (state : ReaderState) (value : jsstring) (line : list jsstring)
  (lines : list (list jsstring)) (text : jsstring) : option (list (list jsstring)) :=
  match text with
  | [] =>
      match state with
      | Quoted => None
      | _ => Some (lines ++ [line ++ [value]])
      end
  | c :: rest =>
      match state with
      | ValueStart | Unquoted =>
          if (c =? 44)%N then readCsv ValueStart [] (line ++ [value]) lines rest
          else if (c =? 10)%N then readCsv ValueStart [] [] (lines ++ [line ++ [value]]) rest
          else if (c =? 34)%N then
            match state with
            | ValueStart => readCsv Quoted [] line lines rest
            | _ => None
            end
          else readCsv Unquoted (value ++ [c]) line lines rest
      | Quoted =>
          if (c =? 34)%N then readCsv QuoteSeen value line lines rest
          else readCsv Quoted (value ++ [c]) line lines rest
      | QuoteSeen =>
          if (c =? 34)%N then readCsv Quoted (value ++ [34%N]) line lines rest
          else if (c =? 44)%N then readCsv ValueStart [] (line ++ [value]) lines rest
          else if (c =? 10)%N then readCsv ValueStart [] [] (lines ++ [line ++ [value]]) rest
          else None
      end
  end.

(** The text after a value: its end, a comma or a line feed. *)
Definition delimited (rest : jsstring) : Prop :=
  match rest with
  | [] => True
  | c :: _ => c = 44%N \/ c = 10%N
  end.

(** What the reader does with the text after a value. *)
Definition afterValue (value : jsstring) (line : list jsstring)
  (lines : list (list jsstring)) (rest : jsstring) : option (list (list jsstring)) :=
  match rest with
  | [] => Some (lines ++ [line ++ [value]])
  | c :: rest' =>
      if (c =? 44)%N then readCsv ValueStart [] (line ++ [value]) lines rest'
      else readCsv ValueStart [] [] (lines ++ [line ++ [value]]) rest'
  end.

(** The text after a line: its end or a line feed. *)
Definition lineEnd (rest : jsstring) : Prop :=
  match rest with
  | [] => True
  | c :: _ => c = 10%N
  end.

Definition afterLine (line : list jsstring) (lines : list (list jsstring))
  (rest : jsstring) : option (list (list jsstring)) :=
  match rest with
  | [] => Some (lines ++ [line])
  | _ :: rest' => readCsv ValueStart [] [] (lines ++ [line]) rest'
  end.

(** *** Sample data for the dashboard *)

Definition scan : File :=
  {| file_name := js "scan.pdf"; file_type := js "application/pdf";
     file_size := 5 * 1024 * 1024 + 1 |}.

Definition sampleRow : ExportRow :=
  {| row_invoiceNumber := js "INV-1"; row_date := js "2024-01-31";
     row_vendor := js "Acme, Inc."; row_customer := js "N/A";
     row_totalAmount := js "12.5"; row_itemsCount := js "1";
     row_commodityItems := js "Bolt (Qty: 2)"; row_individualPrices := js "N/A";
     row_currency := js "USD"; row_status := js "Processed"; row_pdfLink := js "N/A" |}.

End Dashboard.

(** * Properties *)

(** ** The identity normalizer *)

Module NormalizerProofs.
Import Normalizer.

Ltac charclass :=
  unfold isLetterOrDigit, isAllowed, isWordChar, isLower, isUpper, isDigit,
         isBasicLatin, isWhiteSpace, inRange in *;
  repeat (rewrite ?orb_true_iff, ?andb_true_iff, ?orb_false_iff, ?andb_false_iff,
            ?negb_true_iff, ?negb_false_iff,
            ?N.leb_le, ?N.leb_gt, ?N.eqb_eq, ?N.eqb_neq, ?N.ltb_lt, ?N.ltb_ge in * );
  try lia.

Lemma isWordChar_latin c : isWordChar c = true -> isBasicLatin c = true.
Proof. charclass. Qed.

Lemma isAllowed_latin c : isAllowed c = true -> isBasicLatin c = true.
Proof. charclass. Qed.

Lemma In_trimStart (x : N) s : In x (trimStart s) -> In x s.
Proof.
  induction s as [|c r IH]; simpl; [tauto|].
  destruct (isWhiteSpace c); simpl; tauto.
Qed.

Lemma In_trim (x : N) s : In x (trim s) -> In x s.
Proof.
  unfold trim, trimEnd. intros H.
  apply in_rev, In_trimStart, in_rev in H. now apply In_trimStart.
Qed.

Lemma forallb_trim (P : N -> bool) s :
  forallb P s = true -> forallb P (trim s) = true.
Proof.
  rewrite !forallb_forall. intros H x Hx. apply H. now apply In_trim.
Qed.

Lemma trimStart_whitespace s :
  forallb isWhiteSpace s = true -> trimStart s = [].
Proof.
  induction s as [|c r IH]; simpl; [reflexivity|].
  intros [Hc Hr]%andb_true_iff. rewrite Hc. auto.
Qed.

Lemma trim_whitespace s : forallb isWhiteSpace s = true -> trim s = [].
Proof.
  intros H. unfold trim, trimEnd. now rewrite (trimStart_whitespace s H).
Qed.

Lemma In_collapseFrom (x : N) inRun s :
  In x (collapseFrom inRun s) -> x = 32%N \/ In x s.
Proof.
  revert inRun. induction s as [|c r IH]; simpl; intros inRun; [tauto|].
  destruct (isWhiteSpace c).
  - destruct inRun; simpl; intros H.
    + destruct (IH _ H); auto.
    + destruct H as [<-|H]; [auto|]. destruct (IH _ H); auto.
  - simpl. intros [<-|H]; [auto|]. destruct (IH _ H); auto.
Qed.

Section Facts.
Context {B : Builtins}.

(** The capitalisation only ever sends Basic Latin to [toUpperCase]. *)
Lemma capitalizeFrom_latin prevWord s :
  capitalizeFrom prevWord s = capitalizeFrom (B := LatinBuiltins) prevWord s.
Proof.
  revert prevWord. induction s as [|c r IH]; intros prevWord; simpl; [reflexivity|].
  destruct (isWordChar c) eqn:Hc; [|now rewrite IH].
  rewrite IH. destruct prevWord; [reflexivity|].
  rewrite toUpperCase_latin; [reflexivity|].
  simpl. now rewrite (isWordChar_latin c Hc).
Qed.

(** The normalizer is NFKC followed by a pipeline that only handles Basic
    Latin. *)
Lemma standardizeVendorName_factor s :
  standardizeVendorName (Some s)
  = standardizeVendorName (B := LatinBuiltins) (Some (normalizeNFKC s)).
Proof.
  assert (Hpipe : forall t,
    capitalizeWords
      (toLowerCase (trim (stripDisallowed (collapseWhitespace
         (removePeriods (removeZeroWidth t))))))
    = standardizeVendorName (B := LatinBuiltins) (Some t)).
  { intros t. unfold capitalizeWords. rewrite capitalizeFrom_latin.
    rewrite toLowerCase_latin.
    - destruct t; reflexivity.
    - apply forallb_trim. apply forallb_forall. intros x Hx.
      apply filter_In in Hx as [_ Hx]. now apply isAllowed_latin. }
  destruct s as [|c r].
  - now rewrite normalizeNFKC_latin.
  - apply Hpipe.
Qed.

Lemma standardizeVendorName_latin_input s :
  forallb isBasicLatin s = true ->
  standardizeVendorName (Some s) = standardizeVendorName (B := LatinBuiltins) (Some s).
Proof. intros H. now rewrite standardizeVendorName_factor, normalizeNFKC_latin. Qed.

Lemma enhancedVendorNormalization_latin_input n :
  forallb isBasicLatin n = true ->
  enhancedVendorNormalization (Some n)
  = enhancedVendorNormalization (B := LatinBuiltins) (Some n).
Proof.
  intros H. unfold enhancedVendorNormalization.
  destruct (negb (nonEmpty n) || negb (nonEmpty (trim n))); [reflexivity|].
  now rewrite standardizeVendorName_latin_input by now apply forallb_trim.
Qed.

(** C7 (the code departs from it).  Idempotence fails at ["a # b"]: the
    white space is collapsed before the [#] is stripped, so the first pass
    leaves two spaces, which a second pass collapses; this holds for the
    generic algorithm and for its composition with the override table.
    With the table there is a second failure: a name of noise only gives
    the empty string, and the empty string gives the placeholder. *)
Theorem C7_normalizer_not_idempotent :
  standardizeVendorName (Some (js "a # b")) = js "A  B"
  /\ standardizeVendorName (Some (standardizeVendorName (Some (js "a # b")))) = js "A B"
  /\ enhancedVendorNormalization (Some (js "a # b")) = js "A  B"
  /\ enhancedVendorNormalization (Some (enhancedVendorNormalization (Some (js "a # b"))))
     = js "A B"
  /\ enhancedVendorNormalization (Some (js "###")) = []
  /\ enhancedVendorNormalization (Some (enhancedVendorNormalization (Some (js "###"))))
     = js "Unknown".
Proof.
  assert (H1 : standardizeVendorName (Some (js "a # b")) = js "A  B")
    by (now rewrite standardizeVendorName_latin_input).
  assert (H2 : enhancedVendorNormalization (Some (js "a # b")) = js "A  B")
    by (now rewrite enhancedVendorNormalization_latin_input).
  assert (H3 : enhancedVendorNormalization (Some (js "###")) = [])
    by (now rewrite enhancedVendorNormalization_latin_input).
  rewrite H1, H2, H3.
  repeat split.
  - now rewrite standardizeVendorName_latin_input.
  - now rewrite enhancedVendorNormalization_latin_input.
Qed.

(** An ampersand survives, whatever the runtime's tables. *)
Lemma ampersand_is_kept : standardizeVendorName (Some (js "&")) = js "&".
Proof. now rewrite standardizeVendorName_latin_input. Qed.

(** C9 (amended).  A string whose NFKC form holds no Basic Latin letter, no
    digit, no ampersand and no hyphen normalizes to the empty string. *)
Theorem C9_noise_normalizes_to_empty (s : jsstring) :
  forallb (fun c => negb (isLetterOrDigit c || (c =? 38)%N || (c =? 45)%N))
          (normalizeNFKC s) = true ->
  standardizeVendorName (Some s) = [].
Proof.
  intros Hnoise. rewrite standardizeVendorName_factor.
  generalize dependent (normalizeNFKC s). clear s. intros t Hnoise.
  assert (Hspaces :
    forallb isWhiteSpace
      (stripDisallowed (collapseWhitespace (removePeriods (removeZeroWidth t)))) = true).
  { apply forallb_forall. intros x Hx.
    apply filter_In in Hx as [Hx Hallowed].
    apply In_collapseFrom in Hx as [->|Hx]; [reflexivity|].
    apply filter_In in Hx as [Hx _]. apply filter_In in Hx as [Hx _].
    rewrite forallb_forall in Hnoise. specialize (Hnoise x Hx).
    clear -Hnoise Hallowed. charclass. }
  destruct t as [|c r]; [reflexivity|].
  change (capitalizeWords (B := LatinBuiltins)
            (map lowerLatin
               (trim (stripDisallowed (collapseWhitespace
                  (removePeriods (removeZeroWidth (c :: r))))))) = []).
  now rewrite (trim_whitespace _ Hspaces).
Qed.

End Facts.

(** C9 (as stated, it fails).  The string ["&"] holds no letter and no
    digit, and it normalizes to itself. *)
Lemma C9_counterexample :
  forallb (fun c => negb (isLetterOrDigit c)) (js "&") = true
  /\ standardizeVendorName (B := LatinBuiltins) (Some (js "&")) = js "&"
  /\ js "&" <> [].
Proof. repeat split; discriminate. Qed.

Lemma C9_witness :
  forallb (fun c => negb (isLetterOrDigit c || (c =? 38)%N || (c =? 45)%N))
          (normalizeNFKC (Builtins := LatinBuiltins) (js "#!? .")) = true
  /\ standardizeVendorName (B := LatinBuiltins) (Some (js "#!? .")) = [].
Proof.
  split; [reflexivity|].
  apply (C9_noise_normalizes_to_empty (B := LatinBuiltins)). reflexivity.
Defined.

End NormalizerProofs.

(** ** The duplicate resolver and the persistence coordinator *)

Module StorageProofs.
Import Storage.

Lemma find_head_filter {A} (p : A -> bool) (l : list A) :
  head (List.filter p l) = List.find p l.
Proof.
  induction l as [|a l IH]; simpl; [reflexivity|]. now destruct (p a).
Qed.

Lemma find_filter {A} (p q : A -> bool) (l : list A) :
  List.find p (List.filter q l) = List.find (fun x => q x && p x) l.
Proof.
  induction l as [|a l IH]; simpl; [reflexivity|].
  destruct (q a); simpl; [now destruct (p a)|assumption].
Qed.

Lemma find_none_iff {A} (p : A -> bool) (l : list A) :
  List.find p l = None <-> forall x, In x l -> p x = false.
Proof.
  split; [apply find_none|].
  induction l as [|a l IH]; simpl; [reflexivity|]. intros H.
  rewrite (H a) by auto. auto.
Qed.

(** When all the hits are the same element, that element is found. *)
Lemma find_unique {A} (p : A -> bool) (l : list A) (a : A) :
  In a l -> p a = true -> (forall x, In x l -> p x = true -> x = a) ->
  List.find p l = Some a.
Proof.
  intros Hin Hp Huniq. destruct (List.find p l) as [x|] eqn:Hfind.
  - apply find_some in Hfind as [Hx Hpx]. f_equal. now apply Huniq.
  - rewrite (find_none _ _ Hfind a Hin) in Hp. discriminate.
Qed.

Lemma In_documents (data : StoredInvoiceData) (w : World) :
  In data (documents w) <-> exists documentId, collection w !! documentId = Some data.
Proof.
  unfold documents. rewrite in_map_iff. split.
  - intros [[k v] [<- Hin]]. exists k.
    apply list_elem_of_In, elem_of_map_to_list in Hin. exact Hin.
  - intros [k Hk]. exists (k, data). split; [reflexivity|].
    apply list_elem_of_In, elem_of_map_to_list. exact Hk.
Qed.

Section Facts.
Context {B : Builtins}.

Lemma runQuery_pair (ownerId : jsstring) (field : FieldName) (value : jsstring)
  (c : gmap (list N) StoredInvoiceData) :
  head (runQuery [where_eq F_userId ownerId; where_eq field value; limit 1] c)
  = List.find (fun data => ownedBy ownerId data
                           && bool_decide (fieldValue field data = Some value))
              (map snd (map_to_list c)).
Proof.
  unfold runQuery. simpl. rewrite <- find_head_filter.
  rewrite (List.filter_ext _ (fun data => ownedBy ownerId data
                              && bool_decide (fieldValue field data = Some value))).
  - now destruct (List.filter _ _).
  - intros data. unfold ownedBy. now rewrite !andb_true_r.
Qed.

Lemma runQuery_owner (ownerId : jsstring) (c : gmap (list N) StoredInvoiceData) :
  runQuery [where_eq F_userId ownerId] c
  = List.filter (ownedBy ownerId) (map snd (map_to_list c)).
Proof.
  unfold runQuery. simpl. apply List.filter_ext.
  intros data. unfold ownedBy. now rewrite andb_true_r.
Qed.

(** Without faults, the resolver is the specification's function and it
    leaves the world as it was. *)
Lemma findExistingInvoice_calm (w : World) (ownerId filename : jsstring)
  (documentNumber : option jsstring) :
  initialized w = true -> faults w = [] ->
  findExistingInvoice ownerId filename documentNumber w
  = (Ok (findExisting_spec (documents w) ownerId filename documentNumber), w).
Proof.
  intros Hinit Hfaults.
  pose proof (runQuery_pair ownerId F_originalFilename filename (collection w)) as Hname.
  unfold findExistingInvoice, findExisting_spec, supplied, tryCatch,
    getFirebaseDB, getDocs, storageOperation, bind, ret, throw.
  rewrite Hinit. simpl.
  assert (Hfallback :
    (Ok (head (runQuery [where_eq F_userId ownerId;
                         where_eq F_originalFilename filename; limit 1]
                        (collection w))), w)
    = (Ok match filenameMatch (documents w) ownerId filename with
          | Some hit => Some hit
          | None => None
          end, w)).
  { rewrite Hname. unfold filenameMatch, documents. simpl.
    now destruct (List.find _ _). }
  clear Hname.
  destruct documentNumber as [number|]; simpl.
  2:{ rewrite Hfaults. simpl. exact Hfallback. }
  destruct (nonEmpty number) eqn:Hne; simpl.
  2:{ destruct number; [|discriminate]. simpl. rewrite Hfaults. simpl. exact Hfallback. }
  destruct (nonEmpty (trim number)) eqn:Htrim; simpl.
  2:{ rewrite Hfaults. simpl. exact Hfallback. }
  rewrite Hfaults. simpl.
  pose proof (runQuery_pair ownerId F_invoiceNumber (trim number) (collection w)) as Hexact.
  unfold exactNumberMatch, scanNumberMatch, documents. simpl in Hexact.
  rewrite <- Hexact.
  destruct (runQuery [where_eq F_userId ownerId;
                      where_eq F_invoiceNumber (trim number); limit 1]
                     (collection w)) as [|data rest]; simpl; [|reflexivity].
  rewrite Hfaults. simpl. rewrite runQuery_owner, find_filter.
  destruct (List.find (fun x => ownedBy ownerId x && sameNumberIgnoringCase number x)
                      (map snd (map_to_list (collection w)))) as [hit|];
    simpl; [reflexivity|].
  rewrite Hfaults. simpl. exact Hfallback.
Qed.

(** What the resolver does whatever the fault plan: it returns, it only
    uses up entries of the plan, and a hit means that every entry it used
    up was quiet. *)
Lemma findExistingInvoice_total (w : World) (ownerId filename : jsstring)
  (documentNumber : option jsstring) :
  exists existing remaining,
    findExistingInvoice ownerId filename documentNumber w
    = (Ok existing, setFaults remaining w)
    /\ (initialized w = false -> existing = None)
    /\ (forall consumed, faults w = consumed ++ remaining ->
          existing <> None -> Forall (fun entry => entry = None) consumed).
Proof.
  assert (Hquiet : forall quiet rest consumed,
             quiet ++ rest = consumed ++ rest ->
             Forall (fun entry : option Thrown => entry = None) quiet ->
             Forall (fun entry => entry = None) consumed).
  { intros quiet rest consumed Heq Hq. now apply app_inv_tail in Heq as <-. }
  destruct w as [init coll plan clock stamp].
  unfold findExistingInvoice, tryCatch, getFirebaseDB, getDocs, storageOperation,
    bind, ret, throw, setFaults. simpl.
  destruct init; simpl.
  2:{ exists None, plan. split; [reflexivity|]. split; [reflexivity|].
      intros ? _ Hhit. now elim Hhit. }
  destruct documentNumber as [number|]; simpl.
  1: destruct (nonEmpty number && nonEmpty (trim number)); simpl.
  all: repeat
         (match goal with
          | |- context [match ?l with [] => _ | _ :: _ => _ end] =>
              is_var l; destruct l as [|[?|] ?]; simpl
          | |- context [match runQuery ?q ?c with _ => _ end] =>
              destruct (runQuery q c) eqn:?; simpl
          | |- context [match List.find ?p ?l with _ => _ end] =>
              destruct (List.find p l) eqn:?; simpl
          end).
  all: eexists _, _; (split; [reflexivity|]); simpl.
  all: (split; [congruence|]).
  all: intros consumed Hconsumed Hhit; try congruence.
  all: first
    [ apply (Hquiet [] _ consumed Hconsumed); repeat constructor
    | apply (Hquiet [None] _ consumed Hconsumed); repeat constructor
    | apply (Hquiet [None; None] _ consumed Hconsumed); repeat constructor
    | apply (Hquiet [None; None; None] _ consumed Hconsumed); repeat constructor ].
Qed.

(** [saveInvoiceData], unfolded along the outcome of its lookup. *)
Lemma saveInvoiceData_run (w : World) (userId filename : jsstring)
  (extractedData : ExtractedInvoice) (fileUrl : option jsstring) (fileSize : option N)
  (existing : option StoredInvoiceData) (remaining : list (option Thrown)) :
  findExistingInvoice userId filename
    (invoice_metadata extractedData ≫= invoice_number) w
  = (Ok existing, setFaults remaining w) ->
  let documentId := chosenDocumentId existing userId filename (now w) in
  let data :=
    invoiceDataFor existing documentId userId filename extractedData fileUrl fileSize in
  saveInvoiceData userId filename extractedData fileUrl fileSize w
  = if initialized w then
      match undefinedProperty savedProperties data with
      | Some property =>
          (Ok (saveFailure (unsupportedFieldValue (js "setDoc") documentId property)),
           setFaults remaining w)
      | None =>
          match remaining with
          | Some e :: rest => (Ok (saveFailure e), setFaults rest w)
          | _ =>
              (Ok {| success := true;
                     message := if bool_decide (is_Some existing)
                                then updatedMessage filename else savedMessage filename;
                     Storage.documentId := Some documentId |},
               setCollection (<[documentId := written w documentId data]> (collection w))
                             (setFaults (tail remaining) w))
          end
      end
    else (Ok (saveFailure notInitialized), setFaults remaining w).
Proof.
  intros Hfind documentId data.
  assert (Hdata : forall chosen,
            chosen = documentId ->
            {| id := Some chosen;
               Storage.userId := Some userId;
               Storage.filename := Some (cleanFilename filename);
               originalFilename := Some filename;
               Storage.fileUrl := fileUrl;
               Storage.fileSize := fileSize;
               Storage.invoiceNumber := invoice_metadata extractedData ≫= invoice_number;
               Storage.totalAmount := financial_summary extractedData ≫= total_amount;
               Storage.invoiceDate := invoice_metadata extractedData ≫= invoice_date;
               Storage.vendorName := Some (indexedVendorName extractedData);
               processingMetadata := processing_metadata extractedData;
               Storage.extractedData := Some extractedData;
               createdAt := Some (default ServerTimestamp (existing ≫= createdAt));
               updatedAt := Some ServerTimestamp |} = data).
  { intros chosen ->. reflexivity. }
  unfold saveInvoiceData, tryCatch, bind. rewrite Hfind.
  assert (Hid : (match orElse nonEmpty (existing ≫= id) None with
                 | Some existingId => ret existingId
                 | None => generateDocumentId userId filename
                 end) (setFaults remaining w)
                = (Ok documentId, setFaults remaining w)).
  { subst documentId. unfold chosenDocumentId, generatedId, generateDocumentId, dateNow,
      bind, ret.
    destruct (orElse nonEmpty (existing ≫= id) None); reflexivity. }
  rewrite Hid, (Hdata documentId eq_refl).
  unfold getFirebaseDB, setDoc_merge, checkObject, storageOperation, bind, ret, throw.
  cbn [initialized setFaults]. destruct (initialized w); cbn [negb]; [|reflexivity].
  destruct (undefinedProperty savedProperties data) as [property|]; [reflexivity|].
  cbn [faults setFaults]. unfold written.
  destruct remaining as [|[e|] rest]; reflexivity.
Qed.

(** An object whose properties all have a value passes the client's
    check, and only such an object does. *)
Lemma carriesEveryProperty_accepted (existing : option StoredInvoiceData)
  (documentId userId filename : jsstring) (extractedData : ExtractedInvoice)
  (fileUrl : option jsstring) (fileSize : option N) :
  carriesEveryProperty extractedData fileUrl fileSize
  <-> undefinedProperty savedProperties
        (invoiceDataFor existing documentId userId filename extractedData fileUrl fileSize)
      = None.
Proof.
  unfold carriesEveryProperty, undefinedProperty, savedProperties, invoiceDataFor.
  cbn [List.find isUndefined missing id Storage.userId Storage.filename originalFilename
       Storage.fileUrl Storage.fileSize Storage.invoiceNumber Storage.totalAmount
       Storage.invoiceDate Storage.vendorName processingMetadata Storage.extractedData
       createdAt updatedAt].
  destruct fileUrl, fileSize, (invoice_metadata extractedData ≫= invoice_number),
    (financial_summary extractedData ≫= total_amount),
    (invoice_metadata extractedData ≫= invoice_date),
    (processing_metadata extractedData); cbn [missing].
  all: split; [intros (H1 & H2 & H3 & H4 & H5 & H6)|intros H].
  all: try reflexivity; try discriminate.
  all: try (repeat split; eauto; fail).
  all: first [now destruct H1 | now destruct H2 | now destruct H3 | now destruct H4
             | now destruct H5 | now destruct H6].
Qed.



(** C6.  Whatever the storage layer does, the resolver returns: it never
    propagates an error.  When the store is not initialised, or when one of
    the lookups it performed raised, it returns null; and then, if the write
    goes through (the client accepts the object and the plan does not
    refuse the write), [saveInvoiceData] creates a record under a generated
    id and reports it as saved; an object with an [undefined] property is
    refused by the client, and [saveInvoiceData] reports the failure. *)
Theorem C6_lookup_errors_are_swallowed (w : World) (ownerId filename : jsstring)
  (documentNumber : option jsstring) :
  exists existing remaining,
    findExistingInvoice ownerId filename documentNumber w
    = (Ok existing, setFaults remaining w)
    /\ (initialized w = false -> existing = None)
    /\ (forall consumed error,
          faults w = consumed ++ remaining -> In (Some error) consumed ->
          existing = None)
    /\ (forall extractedData fileUrl fileSize,
          documentNumber = invoice_metadata extractedData ≫= invoice_number ->
          initialized w = true -> existing = None ->
          (forall error, head remaining <> Some (Some error)) ->
          carriesEveryProperty extractedData fileUrl fileSize ->
          exists w',
            saveInvoiceData ownerId filename extractedData fileUrl fileSize w
            = (Ok {| success := true;
                     message := savedMessage filename;
                     Storage.documentId := Some (generatedId ownerId filename (now w)) |},
               w')
            /\ is_Some (collection w' !! generatedId ownerId filename (now w)))
    /\ (forall extractedData fileUrl fileSize property,
          documentNumber = invoice_metadata extractedData ≫= invoice_number ->
          initialized w = true -> existing = None ->
          undefinedProperty savedProperties
            (invoiceDataFor None (generatedId ownerId filename (now w)) ownerId filename
               extractedData fileUrl fileSize)
          = Some property ->
          saveInvoiceData ownerId filename extractedData fileUrl fileSize w
          = (Ok {| success := false;
                   message :=
                     js "Failed to save invoice data: Function setDoc() called with invalid data. "
                     ++ js "Unsupported field value: undefined (found in field "
                     ++ propertyName property ++ js " in document invoices/"
                     ++ generatedId ownerId filename (now w) ++ js ")";
                   Storage.documentId := None |},
             setFaults remaining w)).
Proof.
  destruct (findExistingInvoice_total w ownerId filename documentNumber)
    as (existing & remaining & Hfind & Hinit & Hquiet).
  exists existing, remaining.
  split; [exact Hfind|]. split; [exact Hinit|]. split; [|split].
  - intros consumed error Hconsumed Hin.
    destruct existing as [hit|]; [|reflexivity]. exfalso.
    assert (Hall := Hquiet consumed Hconsumed ltac:(discriminate)).
    rewrite Forall_forall in Hall. apply list_elem_of_In in Hin.
    now specialize (Hall _ Hin).
  - intros extractedData fileUrl fileSize -> Hready -> Hwrite Hcarries.
    rewrite (saveInvoiceData_run _ _ _ _ _ _ _ _ Hfind), Hready.
    rewrite (proj1 (carriesEveryProperty_accepted _ _ _ _ _ _ _) Hcarries).
    destruct remaining as [|[error|] rest].
    + eexists. split; [reflexivity|]. simpl. rewrite lookup_insert_eq. eauto.
    + now elim (Hwrite error).
    + eexists. split; [reflexivity|]. simpl. rewrite lookup_insert_eq. eauto.
  - intros extractedData fileUrl fileSize property -> Hready -> Hrefused.
    rewrite (saveInvoiceData_run _ _ _ _ _ _ _ _ Hfind), Hready.
    change (chosenDocumentId None ownerId filename (now w))
      with (generatedId ownerId filename (now w)).
    rewrite Hrefused. reflexivity.
Qed.

Lemma setFaults_same (w : World) (plan : list (option Thrown)) :
  faults w = plan -> setFaults plan w = w.
Proof. intros <-. now destruct w. Qed.

Lemma nonEmpty_generatedId (userId filename : jsstring) (clock : N) :
  nonEmpty (generatedId userId filename clock) = true.
Proof. unfold generatedId. now destruct userId. Qed.

Lemma nonEmpty_trim (s : jsstring) : nonEmpty (trim s) = true -> nonEmpty s = true.
Proof. now destruct s. Qed.

(** No record of it in the store: the resolver finds nothing. *)
Lemma findExisting_spec_none (docs : list StoredInvoiceData)
  (ownerId filename : jsstring) (documentNumber : option jsstring) :
  (forall record, In record docs ->
     isRecordOf ownerId filename documentNumber record = false) ->
  findExisting_spec docs ownerId filename documentNumber = None.
Proof.
  intros Hnone. unfold findExisting_spec, isRecordOf in *.
  assert (Hname : filenameMatch docs ownerId filename = None).
  { apply find_none_iff. intros record Hin. specialize (Hnone record Hin).
    destruct (ownedBy ownerId record); [|reflexivity]. simpl in *.
    now apply orb_false_iff in Hnone as [_ ->]. }
  destruct (supplied documentNumber) as [number|]; simpl; [|now rewrite Hname].
  assert (Hexact : exactNumberMatch docs ownerId number = None).
  { apply find_none_iff. intros record Hin. specialize (Hnone record Hin).
    destruct (ownedBy ownerId record); [|reflexivity]. simpl in *.
    apply orb_false_iff in Hnone as [Hnone _].
    now apply orb_false_iff in Hnone as [-> _]. }
  assert (Hscan : scanNumberMatch docs ownerId number = None).
  { apply find_none_iff. intros record Hin. specialize (Hnone record Hin).
    destruct (ownedBy ownerId record); [|reflexivity]. simpl in *.
    apply orb_false_iff in Hnone as [Hnone _].
    now apply orb_false_iff in Hnone as [_ ->]. }
  now rewrite Hexact, Hscan, Hname.
Qed.

(** One record of it in the store, which the number (when supplied) or the
    file name (when not) matches: the resolver finds that record. *)
Lemma findExisting_spec_unique (docs : list StoredInvoiceData)
  (ownerId filename1 filename2 : jsstring) (documentNumber : option jsstring)
  (record : StoredInvoiceData) :
  In record docs ->
  (forall other, In other docs ->
     isRecordOf ownerId filename1 documentNumber other = true -> other = record) ->
  ownedBy ownerId record = true ->
  match supplied documentNumber with
  | Some number => sameNumberIgnoringCase number record = true
  | None => filename2 = filename1 /\ originalFilename record = Some filename1
  end ->
  findExisting_spec docs ownerId filename2 documentNumber = Some record.
Proof.
  intros Hin Hunique Howned Hmatch. unfold findExisting_spec, isRecordOf in *.
  destruct (supplied documentNumber) as [number|]; simpl.
  - assert (Hscan : scanNumberMatch docs ownerId number = Some record).
    { apply find_unique; [exact Hin|now rewrite Howned, Hmatch|].
      intros other Hother [Ho Hs]%andb_true_iff. apply Hunique; [exact Hother|].
      rewrite Ho, Hs. simpl. now rewrite orb_true_r. }
    destruct (exactNumberMatch docs ownerId number) as [hit|] eqn:Hexact.
    + apply find_some in Hexact as [Hhit [Ho He]%andb_true_iff].
      f_equal. apply Hunique; [exact Hhit|]. now rewrite Ho, He.
    + now rewrite Hscan.
  - destruct Hmatch as [-> Hname].
    assert (Hfile : filenameMatch docs ownerId filename1 = Some record).
    { apply find_unique; [exact Hin| |].
      - rewrite Howned. simpl. now apply bool_decide_eq_true_2.
      - intros other Hother [Ho Hf]%andb_true_iff. apply Hunique; [exact Hother|].
        rewrite Ho, Hf. reflexivity. }
    now rewrite Hfile.
Qed.

(** The client's check looks at the values that the file reference and the
    payload give, not at the record found or at the id. *)
Lemma undefinedProperty_invoiceData (existing existing' : option StoredInvoiceData)
  (documentId documentId' userId userId' filename filename' : jsstring)
  (extractedData : ExtractedInvoice) (fileUrl : option jsstring) (fileSize : option N) :
  undefinedProperty savedProperties
    (invoiceDataFor existing documentId userId filename extractedData fileUrl fileSize)
  = undefinedProperty savedProperties
      (invoiceDataFor existing' documentId' userId' filename' extractedData
         fileUrl fileSize).
Proof. reflexivity. Qed.

(** C3.  An invoice that the store has no record of is committed twice by
    its owner, the second time with the same document number (or, when the
    number is blank, under the same file name), to a store none of whose
    operations fails.

    When the file reference and the payload of both commits give every
    property of the written object a value, the claim holds: the first
    commit reports a save and the second an update of the same document;
    the second adds no document; that document is the only record of the
    invoice; its [createdAt] is the server time of the first commit and its
    [updatedAt] that of the second; every other field of it, the file
    reference, the index fields and the payload, is that of the second
    commit.

    When one of them is missing (no file URL or size, or a payload without
    its number, total, date or processing metadata), the object holds an
    [undefined] property, the client refuses it, and the commit reports a
    failure and leaves the store as it was: a first commit of that kind
    creates nothing, and a second one updates nothing. *)
Theorem C3_commit_twice (w1 w2 : World) (userId filename1 filename2 : jsstring)
  (first second : ExtractedInvoice) (fileUrl1 fileUrl2 : option jsstring)
  (fileSize1 fileSize2 : option N) :
  let number := invoice_metadata first ≫= invoice_number in
  let clean := fun filename : jsstring =>
    map (fun c => if Normalizer.isLower c || Normalizer.isDigit c then c else 95%N)
        (toLowerCase filename) in
  let documentId := userId ++ js "_" ++ clean filename1 ++ js "_" ++ decimal (now w1) in
  let standardized :=
    Normalizer.standardizeVendorName (vendor_information second ≫= company_name) in
  let refusal := fun property : Property =>
    js "Failed to save invoice data: Function setDoc() called with invalid data. "
    ++ js "Unsupported field value: undefined (found in field "
    ++ propertyName property ++ js " in document invoices/" ++ documentId ++ js ")" in
  let commit1 := saveInvoiceData userId filename1 first fileUrl1 fileSize1 w1 in
  let commit2 := saveInvoiceData userId filename2 second fileUrl2 fileSize2 w2 in
  initialized w1 = true -> faults w1 = [] ->
  initialized w2 = true -> faults w2 = [] ->
  (forall key record, collection w1 !! key = Some record ->
     isRecordOf userId filename1 number record = false) ->
  invoice_metadata second ≫= invoice_number = number ->
  is_Some (supplied number) \/ filename2 = filename1 ->
  collection w2 = collection (snd commit1) ->
  (carriesEveryProperty first fileUrl1 fileSize1 ->
   carriesEveryProperty second fileUrl2 fileSize2 ->
   exists record,
     fst commit1
     = Ok {| success := true;
             message := js "Invoice " ++ dquote ++ filename1 ++ dquote
                        ++ js " saved successfully to database";
             Storage.documentId := Some documentId |}
     /\ fst commit2
        = Ok {| success := true;
                message := js "Invoice " ++ dquote ++ filename2 ++ dquote
                           ++ js " updated successfully in database";
                Storage.documentId := Some documentId |}
     /\ dom (collection (snd commit2)) = dom (collection (snd commit1))
     /\ collection (snd commit2) !! documentId = Some record
     /\ (forall key other,
           collection (snd commit2) !! key = Some other ->
           isRecordOf userId filename1 number other = true -> key = documentId)
     /\ isRecordOf userId filename1 number record = true
     /\ record
        = {| id := Some documentId;
             Storage.userId := Some userId;
             filename := Some (clean filename2);
             originalFilename := Some filename2;
             fileUrl := fileUrl2;
             fileSize := fileSize2;
             invoiceNumber := invoice_metadata second ≫= invoice_number;
             totalAmount := financial_summary second ≫= total_amount;
             invoiceDate := invoice_metadata second ≫= invoice_date;
             vendorName :=
               Some (if nonEmpty standardized then standardized else js "Unknown");
             processingMetadata := processing_metadata second;
             extractedData := Some second;
             createdAt := Some (Timestamp (serverTime w1));
             updatedAt := Some (Timestamp (serverTime w2)) |})
  /\ (forall property,
        undefinedProperty savedProperties
          (invoiceDataFor None documentId userId filename1 first fileUrl1 fileSize1)
        = Some property ->
        fst commit1
        = Ok {| success := false; message := refusal property;
                Storage.documentId := None |}
        /\ collection (snd commit1) = collection w1)
  /\ (forall property,
        carriesEveryProperty first fileUrl1 fileSize1 ->
        undefinedProperty savedProperties
          (invoiceDataFor None documentId userId filename2 second fileUrl2 fileSize2)
        = Some property ->
        fst commit2
        = Ok {| success := false; message := refusal property;
                Storage.documentId := None |}
        /\ collection (snd commit2) = collection (snd commit1)).
Proof.
  intros number clean documentId standardized refusal commit1 commit2
    Hinit1 Hplan1 Hinit2 Hplan2 Hfresh Hsame Hkey Hstore.
  change documentId with (generatedId userId filename1 (now w1)) in *.
  clear documentId. set (documentId := generatedId userId filename1 (now w1)) in *.
  (* the first commit *)
  assert (Hfind1 : findExistingInvoice userId filename1 number w1
                   = (Ok None, setFaults [] w1)).
  { rewrite findExistingInvoice_calm by assumption.
    rewrite findExisting_spec_none, (setFaults_same w1 []); auto.
    intros record [key Hk]%In_documents. eauto. }
  pose proof (saveInvoiceData_run w1 userId filename1 first fileUrl1 fileSize1
                None [] Hfind1) as Hrun1.
  cbv zeta in Hrun1. rewrite Hinit1 in Hrun1.
  change (chosenDocumentId None userId filename1 (now w1)) with documentId in Hrun1.
  set (data1 := invoiceDataFor None documentId userId filename1 first fileUrl1 fileSize1)
    in *.
  set (record1 := written w1 documentId data1) in Hrun1.
  (* what the second commit does once the first has succeeded *)
  assert (Hsecond :
    undefinedProperty savedProperties data1 = None ->
    let data2 := invoiceDataFor (Some record1) documentId userId filename2 second
                   fileUrl2 fileSize2 in
    collection w2 !! documentId = Some record1
    /\ (forall key other,
          collection w2 !! key = Some other ->
          isRecordOf userId filename1 number other = true -> key = documentId)
    /\ commit2
       = match undefinedProperty savedProperties data2 with
         | Some property =>
             (Ok (saveFailure (unsupportedFieldValue (js "setDoc") documentId property)),
              setFaults [] w2)
         | None =>
             (Ok {| success := true; message := updatedMessage filename2;
                    Storage.documentId := Some documentId |},
              setCollection (<[documentId := written w2 documentId data2]> (collection w2))
                            (setFaults [] w2))
         end).
  { intros Haccepted1 data2.
    subst commit1. rewrite Hrun1, Haccepted1 in Hstore. simpl in Hstore.
    assert (Hold : collection w2 !! documentId = Some record1)
      by (rewrite Hstore; apply lookup_insert_eq).
    assert (Honly : forall key other,
              collection w2 !! key = Some other ->
              isRecordOf userId filename1 number other = true -> key = documentId).
    { intros key other Hk Hother.
      destruct (decide (key = documentId)) as [->|Hne]; [reflexivity|].
      rewrite Hstore, lookup_insert_ne in Hk by congruence.
      rewrite (Hfresh key other Hk) in Hother. discriminate. }
    split; [exact Hold|]. split; [exact Honly|].
    assert (Hfind2 : findExistingInvoice userId filename2
                       (invoice_metadata second ≫= invoice_number) w2
                     = (Ok (Some record1), setFaults [] w2)).
    { rewrite Hsame, findExistingInvoice_calm by assumption.
      rewrite (setFaults_same w2 []) by assumption. do 2 f_equal.
      apply (findExisting_spec_unique _ userId filename1 filename2 number record1).
      - apply In_documents. exists documentId. exact Hold.
      - intros other [key Hk]%In_documents Hother.
        rewrite (Honly key other Hk Hother) in Hk. congruence.
      - unfold ownedBy. simpl. now apply bool_decide_eq_true_2.
      - destruct (supplied number) as [supplied_number|] eqn:Hsupplied.
        + unfold supplied in Hsupplied. unfold sameNumberIgnoringCase. simpl.
          fold number. destruct number as [n|]; [|discriminate].
          destruct (nonEmpty (trim n)) eqn:Hn; [|discriminate].
          injection Hsupplied as <-. simpl. rewrite (nonEmpty_trim n Hn).
          now apply bool_decide_eq_true_2.
        + destruct Hkey as [[? Hx]| ->]; [discriminate|]. split; reflexivity. }
    pose proof (saveInvoiceData_run w2 userId filename2 second fileUrl2 fileSize2
                  (Some record1) [] Hfind2) as Hrun2.
    cbv zeta in Hrun2. rewrite Hinit2 in Hrun2.
    assert (Hid : chosenDocumentId (Some record1) userId filename2 (now w2) = documentId).
    { unfold chosenDocumentId. simpl. unfold documentId at 1.
      now rewrite nonEmpty_generatedId. }
    rewrite Hid in Hrun2. subst commit2. rewrite Hrun2. fold data2.
    destruct (undefinedProperty savedProperties data2); reflexivity. }
  split; [|split].
  - (* both objects are accepted *)
    intros Hcarries1 Hcarries2.
    pose proof (proj1 (carriesEveryProperty_accepted None documentId userId filename1
                         first fileUrl1 fileSize1) Hcarries1) as Haccepted1.
    fold data1 in Haccepted1.
    destruct (Hsecond Haccepted1) as (Hold & Honly & Hrun2).
    rewrite (proj1 (carriesEveryProperty_accepted (Some record1) documentId userId
                      filename2 second fileUrl2 fileSize2) Hcarries2) in Hrun2.
    set (data2 := invoiceDataFor (Some record1) documentId userId filename2 second
                    fileUrl2 fileSize2) in *.
    exists (written w2 documentId data2).
    subst commit1. rewrite Hrun1, Haccepted1, Hrun2. simpl.
    split; [reflexivity|]. split; [reflexivity|]. split.
    { rewrite dom_insert_lookup_L by (rewrite Hold; eauto).
      rewrite Hrun1, Haccepted1 in Hstore. simpl in Hstore. now rewrite Hstore. }
    split; [apply lookup_insert_eq|]. split.
    { intros key other Hk Hother.
      destruct (decide (key = documentId)) as [->|Hne]; [reflexivity|].
      rewrite lookup_insert_ne in Hk by congruence. exact (Honly key other Hk Hother). }
    destruct Hcarries2 as ([url ->] & [size ->] & [n2 Hn2] & [t2 Ht2] & [d2 Hd2]
                           & [m2 Hm2]).
    unfold written. rewrite Hold. split.
    { unfold isRecordOf, ownedBy. simpl. rewrite bool_decide_eq_true_2 by reflexivity.
      simpl. rewrite Hsame.
      destruct Hkey as [[supplied_number Hsupplied]| ->].
      - rewrite Hsupplied. unfold supplied in Hsupplied.
        unfold sameNumberIgnoringCase. simpl. fold number. rewrite Hsame.
        destruct number as [n|]; [|discriminate].
        destruct (nonEmpty (trim n)) eqn:Hn; [|discriminate].
        injection Hsupplied as <-. simpl. rewrite (nonEmpty_trim n Hn).
        rewrite (bool_decide_eq_true_2 (trim (toLowerCase n) = trim (toLowerCase n)))
          by reflexivity.
        now rewrite orb_true_r.
      - rewrite (bool_decide_eq_true_2 (Some filename1 = Some filename1)) by reflexivity.
        now rewrite orb_true_r. }
    subst data2. unfold mergeFields, invoiceDataFor, record1, written, data1.
    cbn [id Storage.userId filename originalFilename fileUrl fileSize invoiceNumber
         totalAmount invoiceDate vendorName processingMetadata extractedData createdAt
         updatedAt over resolveTime mergeFields invoiceDataFor mbind option_bind default].
    rewrite Hn2, Ht2, Hd2, Hm2. reflexivity.
  - (* the first object is refused *)
    intros property Hrefused. fold data1 in Hrefused.
    subst commit1. rewrite Hrun1, Hrefused. split; reflexivity.
  - (* the second object is refused *)
    intros property Hcarries1 Hrefused.
    pose proof (proj1 (carriesEveryProperty_accepted None documentId userId filename1
                         first fileUrl1 fileSize1) Hcarries1) as Haccepted1.
    fold data1 in Haccepted1.
    destruct (Hsecond Haccepted1) as (Hold & Honly & Hrun2).
    rewrite (undefinedProperty_invoiceData (Some record1) None documentId documentId
               userId userId filename2 filename2) in Hrun2.
    rewrite Hrefused in Hrun2. rewrite Hrun2. split; [reflexivity|].
    simpl. exact Hstore.
Qed.

(** The other way to commit again, which the dashboard takes when its own
    lookup finds the record: [updateInvoiceData] on the id of the record.
    Without faults, and for a payload that carries its number, total and
    date, it reports an update, keeps the id, the owner, the file name and
    [createdAt], and refreshes [updatedAt]. *)
Lemma updateInvoiceData_calm (w : World) (target userId : jsstring)
  (extractedData : ExtractedInvoice) (old : StoredInvoiceData)
  (number date : jsstring) (total : Q) :
  initialized w = true -> faults w = [] ->
  collection w !! target = Some old ->
  invoice_metadata extractedData ≫= invoice_number = Some number ->
  financial_summary extractedData ≫= total_amount = Some total ->
  invoice_metadata extractedData ≫= invoice_date = Some date ->
  exists record,
    updateInvoiceData target userId extractedData w
    = (Ok {| success := true;
             message := updatedMessage number;
             Storage.documentId := Some target |},
       setCollection (<[target := record]> (collection w)) w)
    /\ id record = id old /\ Storage.userId record = Storage.userId old
    /\ originalFilename record = originalFilename old
    /\ createdAt record = createdAt old
    /\ updatedAt record = Some (Timestamp (serverTime w))
    /\ invoiceNumber record = Some number
    /\ totalAmount record = Some total
    /\ invoiceDate record = Some date
    /\ vendorName record = Some (indexedVendorName extractedData)
    /\ Storage.extractedData record = Some extractedData.
Proof.
  intros Hinit Hplan Hold Hnumber Htotal Hdate.
  unfold updateInvoiceData, tryCatch, getFirebaseDB, updateDoc, checkObject,
    undefinedProperty, updatedProperties, storageOperation, bind, ret, throw.
  rewrite Hinit, Hnumber, Htotal, Hdate. simpl. rewrite Hplan, Hold.
  eexists. split; [reflexivity|]. repeat split.
Qed.

(** C5 (amended).  After a successful [saveInvoiceData] or
    [updateInvoiceData], the vendor-name field of the record written is the
    output of [standardizeVendorName] on the extracted vendor company name,
    or the placeholder ["Unknown"] when that output is empty. *)
Theorem C5_vendor_index_is_standardized (w : World) (userId filename : jsstring)
  (extractedData : ExtractedInvoice) (fileUrl : option jsstring) (fileSize : option N)
  (target : jsstring) :
  let standardized :=
    Normalizer.standardizeVendorName (vendor_information extractedData ≫= company_name) in
  let indexed := if nonEmpty standardized then standardized else js "Unknown" in
  (forall result w',
     saveInvoiceData userId filename extractedData fileUrl fileSize w = (Ok result, w') ->
     success result = true ->
     exists documentId record,
       Storage.documentId result = Some documentId
       /\ collection w' !! documentId = Some record
       /\ vendorName record = Some indexed)
  /\ (forall result w',
        updateInvoiceData target userId extractedData w = (Ok result, w') ->
        success result = true ->
        exists record,
          collection w' !! target = Some record /\ vendorName record = Some indexed).
Proof.
  intros standardized indexed. split.
  - intros result w' Hsave Hsuccess.
    destruct (findExistingInvoice_total w userId filename
                (invoice_metadata extractedData ≫= invoice_number))
      as (existing & remaining & Hfind & _).
    rewrite (saveInvoiceData_run _ _ _ _ _ _ _ _ Hfind) in Hsave.
    destruct (initialized w).
    2:{ injection Hsave as <- _. discriminate. }
    destruct (undefinedProperty savedProperties _) as [property|].
    { injection Hsave as <- _. discriminate. }
    destruct remaining as [|[error|] rest]; injection Hsave as <- <-;
      try discriminate.
    all: eexists _, _; split; [reflexivity|]; simpl.
    all: rewrite lookup_insert_eq; split; reflexivity.
  - intros result w' Hupdate Hsuccess.
    unfold updateInvoiceData, tryCatch, getFirebaseDB, updateDoc, checkObject,
      undefinedProperty, updatedProperties, storageOperation, bind, ret, throw in Hupdate.
    destruct w as [init coll plan clock stamp]. simpl in Hupdate.
    destruct init; simpl in Hupdate.
    2:{ injection Hupdate as <- _. discriminate. }
    destruct (invoice_metadata extractedData ≫= invoice_number);
      simpl in Hupdate; [|injection Hupdate as <- _; discriminate].
    destruct (financial_summary extractedData ≫= total_amount);
      simpl in Hupdate; [|injection Hupdate as <- _; discriminate].
    destruct (invoice_metadata extractedData ≫= invoice_date);
      simpl in Hupdate; [|injection Hupdate as <- _; discriminate].
    destruct plan as [|[error|] rest]; simpl in Hupdate.
    2:{ injection Hupdate as <- _. discriminate. }
    all: destruct (coll !! target) as [old|] eqn:Hold; simpl in Hupdate;
      injection Hupdate as <- <-; try discriminate.
    all: eexists; simpl; rewrite lookup_insert_eq; split; reflexivity.
Qed.

End Facts.

(** The resolver in a world whose first lookup fails: the stored
    ["INV-100"] is not found. *)
Lemma C6_witness :
  exists remaining,
    findExistingInvoice (B := LatinBuiltins) StorageExamples.ownerU (js "scan-1.pdf")
      (Some (js "INV-100")) StorageExamples.failingWorld
    = (Ok None, setFaults remaining StorageExamples.failingWorld).
Proof.
  destruct (C6_lookup_errors_are_swallowed (B := LatinBuiltins)
              StorageExamples.failingWorld StorageExamples.ownerU (js "scan-1.pdf")
              (Some (js "INV-100")))
    as (existing & remaining & Hfind & _ & Hraised & _).
  assert (Hrun : findExistingInvoice (B := LatinBuiltins) StorageExamples.ownerU
                   (js "scan-1.pdf") (Some (js "INV-100")) StorageExamples.failingWorld
                 = (Ok None, setFaults [] StorageExamples.failingWorld))
    by reflexivity.
  pose proof Hfind as Hremaining. rewrite Hrun in Hremaining.
  injection Hremaining as _ <-.
  exists []. rewrite Hfind. do 2 f_equal.
  exact (Hraised [Some (JsError (js "FirebaseError") (js "unavailable"))] _
           eq_refl (or_introl eq_refl)).
Defined.


(** The invoice ["INV-100"] committed to an empty store as [a.pdf], and a
    while later as [b.pdf] with another total; and the same invoice
    extracted without its financial summary, committed to the empty
    store. *)
Lemma C3_witness :
  let commit1 :=
    saveInvoiceData (B := LatinBuiltins) StorageExamples.ownerU (js "a.pdf")
      StorageExamples.invoice100 StorageExamples.fileUrlA StorageExamples.fileSizeA
      StorageExamples.emptyWorld in
  let commit2 :=
    saveInvoiceData (B := LatinBuiltins) StorageExamples.ownerU (js "b.pdf")
      StorageExamples.invoice100_again StorageExamples.fileUrlA
      StorageExamples.fileSizeA
      (StorageExamples.later (collection (snd commit1))) in
  let refused :=
    saveInvoiceData (B := LatinBuiltins) StorageExamples.ownerU (js "a.pdf")
      StorageExamples.invoiceWithoutTotal StorageExamples.fileUrlA
      StorageExamples.fileSizeA StorageExamples.emptyWorld in
  fst commit1
  = Ok {| success := true;
          message := js "Invoice " ++ dquote ++ js "a.pdf" ++ dquote
                     ++ js " saved successfully to database";
          documentId := Some (js "U_a_pdf_1700000000000") |}
  /\ fst commit2
     = Ok {| success := true;
             message := js "Invoice " ++ dquote ++ js "b.pdf" ++ dquote
                        ++ js " updated successfully in database";
             documentId := Some (js "U_a_pdf_1700000000000") |}
  /\ collection (snd commit2) !! js "U_a_pdf_1700000000000"
     = Some {| id := Some (js "U_a_pdf_1700000000000");
               userId := Some (js "U");
               filename := Some (js "b_pdf");
               originalFilename := Some (js "b.pdf");
               fileUrl := Some (js "https://files/a.pdf");
               fileSize := Some 2048%N;
               invoiceNumber := Some (js "INV-100");
               totalAmount := Some 108%Q;
               invoiceDate := Some (js "2024-03-01");
               vendorName := Some (js "Acme Inc");
               processingMetadata := Some (js "model-v3");
               extractedData := Some StorageExamples.invoice100_again;
               createdAt := Some (Timestamp 1700000000500);
               updatedAt := Some (Timestamp 1700000090500) |}
  /\ fst refused
     = Ok {| success := false;
             message :=
               js "Failed to save invoice data: Function setDoc() called with invalid data. "
               ++ js "Unsupported field value: undefined (found in field totalAmount"
               ++ js " in document invoices/U_a_pdf_1700000000000)";
             documentId := None |}
  /\ collection (snd refused) = collection StorageExamples.emptyWorld.
Proof.
  intros commit1 commit2 refused.
  assert (Hfresh : forall (key : jsstring) (record : StoredInvoiceData),
            collection StorageExamples.emptyWorld !! key = Some record ->
            isRecordOf (B := LatinBuiltins) StorageExamples.ownerU (js "a.pdf")
              (Some (js "INV-100")) record = false).
  { intros key record Hk. simpl in Hk. rewrite lookup_empty in Hk. discriminate. }
  assert (Hkey : is_Some (supplied (Some (js "INV-100"))) \/ js "b.pdf" = js "a.pdf")
    by (left; eexists; reflexivity).
  destruct (C3_commit_twice (B := LatinBuiltins)
              StorageExamples.emptyWorld
              (StorageExamples.later (collection (snd commit1)))
              StorageExamples.ownerU (js "a.pdf") (js "b.pdf")
              StorageExamples.invoice100 StorageExamples.invoice100_again
              StorageExamples.fileUrlA StorageExamples.fileUrlA
              StorageExamples.fileSizeA StorageExamples.fileSizeA
              eq_refl eq_refl eq_refl eq_refl Hfresh eq_refl Hkey eq_refl)
    as (Hclaim & _ & _).
  destruct Hclaim as (record & Hfirst & Hsecond & _ & Hlookup & _ & _ & Hrecord).
  { repeat split; eexists; reflexivity. }
  { repeat split; eexists; reflexivity. }
  assert (Hkey' : is_Some (supplied (Some (js "INV-100"))) \/ js "a.pdf" = js "a.pdf")
    by (right; reflexivity).
  destruct (C3_commit_twice (B := LatinBuiltins)
              StorageExamples.emptyWorld StorageExamples.emptyWorld
              StorageExamples.ownerU (js "a.pdf") (js "a.pdf")
              StorageExamples.invoiceWithoutTotal StorageExamples.invoiceWithoutTotal
              StorageExamples.fileUrlA StorageExamples.fileUrlA
              StorageExamples.fileSizeA StorageExamples.fileSizeA
              eq_refl eq_refl eq_refl eq_refl Hfresh eq_refl Hkey' eq_refl)
    as (_ & Hbug & _).
  destruct (Hbug P_totalAmount eq_refl) as [Hrefused Hstore].
  split; [exact Hfirst|]. split; [exact Hsecond|].
  split; [transitivity (Some record); [exact Hlookup|rewrite Hrecord; reflexivity]|].
  split; [exact Hrefused|exact Hstore].
Defined.

(** C5 (as stated, it fails).  For a vendor name of noise only the
    normalizer gives the empty string, with or without the override table,
    and the record written holds ["Unknown"], which is neither. *)
Lemma C5_counterexample :
  let saved :=
    saveInvoiceData (B := LatinBuiltins) StorageExamples.ownerU (js "a.pdf")
      StorageExamples.invoiceNoVendor StorageExamples.fileUrlA
      StorageExamples.fileSizeA StorageExamples.emptyWorld in
  let stored :=
    (collection (snd saved) !! js "U_a_pdf_1700000000000") ≫= vendorName in
  succeeded (fst saved) = true
  /\ stored = Some (js "Unknown")
  /\ stored <> Some (Normalizer.standardizeVendorName (B := LatinBuiltins)
                       (Some (js "###")))
  /\ stored <> Some (Normalizer.enhancedVendorNormalization (B := LatinBuiltins)
                       (Some (js "###"))).
Proof. vm_compute. repeat split; discriminate. Qed.

Lemma C5_witness :
  exists documentId record,
    collection (snd (saveInvoiceData (B := LatinBuiltins) StorageExamples.ownerU
                       (js "a.pdf") StorageExamples.invoice100
                       StorageExamples.fileUrlA StorageExamples.fileSizeA
                       StorageExamples.emptyWorld)) !! documentId = Some record
    /\ vendorName record = Some (js "Acme Inc").
Proof.
  destruct (C5_vendor_index_is_standardized (B := LatinBuiltins)
              StorageExamples.emptyWorld StorageExamples.ownerU (js "a.pdf")
              StorageExamples.invoice100 StorageExamples.fileUrlA
              StorageExamples.fileSizeA (js "doc-1")) as [Hsave _].
  destruct (saveInvoiceData (B := LatinBuiltins) StorageExamples.ownerU (js "a.pdf")
              StorageExamples.invoice100 StorageExamples.fileUrlA
              StorageExamples.fileSizeA StorageExamples.emptyWorld)
    as [result w'] eqn:Hrun.
  assert (Hok : exists r, result = Ok r /\ success r = true).
  { vm_compute in Hrun. injection Hrun as <- _. eexists. split; reflexivity. }
  destruct Hok as (r & -> & Hsuccess).
  destruct (Hsave r w' eq_refl Hsuccess) as (documentId & record & _ & Hlookup & Hvendor).
  exists documentId, record. split; [exact Hlookup|]. exact Hvendor.
Defined.

End StorageProofs.

(** ** The batch orchestrator *)

Module OrchestratorProofs.
Import Orchestrator.

(** *** processBatch *)

Lemma forEach_push (g : File -> BatchResult) (files : list File)
  (results : list BatchResult) :
  forEach (fun file => push (g file)) files results = (Ok tt, results ++ map g files).
Proof.
  revert results. induction files as [|file rest IH]; intros results; simpl.
  - unfold ret. now rewrite app_nil_r.
  - unfold bind, push at 1. rewrite IH. now rewrite <- app_assoc.
Qed.

Lemma failEveryFile_run (files : list File) (reason : jsstring)
  (results : list BatchResult) :
  failEveryFile files reason results = (Ok tt, results ++ map (failure reason) files).
Proof. apply forEach_push. Qed.

(** [processBatch] never rejects: both of its [catch] handlers only push
    entries. *)
Lemma processBatch_never_rejects (files : list File) (call : Result Response) :
  processBatch files call = fulfilled (batchOutcome files call).
Proof.
  unfold processBatch, batchOutcome, processBatch_body.
  set (attempt := tryCatch _ _).
  assert (Hattempt : exists results, attempt [] = (Ok tt, results)).
  { subst attempt. unfold tryCatch at 1.
    destruct (_ [] : Result unit * list BatchResult) as [[[]|e] results'].
    - eauto.
    - destruct (isAbortError e); rewrite failEveryFile_run; eauto. }
  destruct Hattempt as [results Hattempt].
  unfold tryCatch. now rewrite Hattempt.
Qed.

(** The call threw (network failure, or abort by the timeout): one failure
    per file, with the reason. *)
Lemma batchOutcome_thrown (files : list File) (error : Thrown) :
  batchOutcome files (Throw error) = map (failure (thrownReason error)) files.
Proof.
  unfold batchOutcome, processBatch_body, thrownReason, tryCatch, bind, await. simpl.
  destruct (isAbortError error); now rewrite failEveryFile_run.
Qed.

(** The call failed at the transport level, at [fetch] or while the body
    was read: one failure per file, with the reason. *)
Lemma batchOutcome_transport_failure (files : list File) (call : Result Response)
  (error : Thrown) :
  transportFailure call = Some error ->
  batchOutcome files call = map (failure (thrownReason error)) files.
Proof.
  destruct call as [[isOk code body parsed]|thrown]; simpl.
  2:{ intros [= ->]. apply batchOutcome_thrown. }
  unfold batchOutcome, processBatch_body, thrownReason, tryCatch, bind, await. simpl.
  destruct isOk; simpl.
  - destruct parsed as [?|thrown]; [discriminate|]. intros [= ->]. simpl.
    destruct (isAbortError error); now rewrite failEveryFile_run.
  - destruct body as [?|thrown]; [discriminate|]. intros [= ->]. simpl.
    destruct (isAbortError error); now rewrite failEveryFile_run.
Qed.

(** Every entry of [results] is an object: the entries are mapped one by
    one. *)
Lemma forEach_mapFileResult (entries : list Backend.FileResult)
  (results : list BatchResult) :
  exists mapped,
    forEach mapFileResult (map Some entries) results = (Ok tt, results ++ mapped)
    /\ map filename mapped
       = map (fun r => default (js "unknown")
                         (orElse nonEmpty (Backend.filename r) None)) entries.
Proof.
  revert results. induction entries as [|r rest IH]; intros results; simpl.
  - exists []. unfold ret. now rewrite app_nil_r.
  - unfold bind, push at 1. simpl.
    match goal with
    | |- context [forEach mapFileResult (map Some rest) ?acc] =>
        destruct (IH acc) as (mapped & -> & Hnames)
    end.
    eexists (_ :: mapped). rewrite <- app_assoc. split; [reflexivity|].
    simpl. now rewrite Hnames.
Qed.

(** When the call fails as a whole, every file of the batch gets one
    failure entry, all with the same reason. *)
Lemma batchOutcome_whole_failure (files : list File) (call : Result Response) :
  failsAsAWhole call = true ->
  exists reason, batchOutcome files call = map (failure reason) files.
Proof.
  unfold failsAsAWhole, batchOutcome, processBatch_body, tryCatch, bind, await, throw.
  destruct call as [[isOk code body parsed]|error]; simpl.
  2:{ intros _. destruct (isAbortError error); rewrite failEveryFile_run; eauto. }
  destruct isOk; simpl.
  2:{ intros _. destruct body as [errorText|error]; simpl.
      - rewrite failEveryFile_run. eauto.
      - destruct (isAbortError error); rewrite failEveryFile_run; eauto. }
  destruct parsed as [[|[] [| |entries]]|error]; simpl; try discriminate; intros _.
  all: try (rewrite failEveryFile_run; simpl; eauto).
  destruct (isAbortError error); rewrite failEveryFile_run; eauto.
Qed.

Lemma reportedName_all_objects (entries : list (option Backend.FileResult))
  (names : list jsstring) :
  map reportedName entries = map Some names ->
  exists objects,
    entries = map Some objects
    /\ map (fun r => default (js "unknown")
                      (orElse nonEmpty (Backend.filename r) None)) objects = names.
Proof.
  revert names. induction entries as [|[r|] rest IH]; intros [|name names] Heq;
    try discriminate.
  - now exists [].
  - injection Heq as Hname Hrest. destruct (IH names Hrest) as (objects & -> & <-).
    exists (r :: objects). simpl. now rewrite Hname.
Qed.

Lemma all_objects (entries : list (option Backend.FileResult)) :
  forallb (fun entry => bool_decide (is_Some entry)) entries = true ->
  exists objects, entries = map Some objects.
Proof.
  induction entries as [|[r|] rest IH]; simpl.
  - now exists [].
  - intros Hrest. destruct (IH Hrest) as [objects ->]. now exists (r :: objects).
  - discriminate.
Qed.

(** A call that is answered for every file yields one entry per file of
    the batch. *)
Lemma batchOutcome_every_file (batch : list File) (call : Result Response) :
  answersEveryFile batch call = true ->
  length (batchOutcome batch call) = length batch.
Proof.
  intros Hanswer.
  destruct (failsAsAWhole call) eqn:Hwhole.
  { destruct (batchOutcome_whole_failure batch call Hwhole) as [reason ->].
    apply length_map. }
  unfold failsAsAWhole, answersEveryFile in *.
  destruct call as [[isOk code body parsed]|error]; [|discriminate]. simpl in *.
  destruct isOk; [|discriminate].
  destruct parsed as [[|[] [| |entries]]|error]; try discriminate.
  apply andb_true_iff in Hanswer as [Hobjects Hlength].
  apply Nat.eqb_eq in Hlength.
  destruct (all_objects entries Hobjects) as [objects ->].
  unfold batchOutcome, processBatch_body, tryCatch, bind, await. simpl.
  destruct (forEach_mapFileResult objects []) as (mapped & -> & Hmapped).
  simpl. apply (f_equal length) in Hmapped.
  rewrite !length_map in *. congruence.
Qed.

(** A call that is answered in order yields one entry per file of the
    batch, in the order of the files and under their names. *)
Lemma batchOutcome_in_order (batch : list File) (call : Result Response) :
  answersInOrder batch call = true ->
  map filename (batchOutcome batch call) = map file_name batch.
Proof.
  intros Hanswer.
  destruct (failsAsAWhole call) eqn:Hwhole.
  { destruct (batchOutcome_whole_failure batch call Hwhole) as [reason ->].
    rewrite map_map. reflexivity. }
  unfold failsAsAWhole, answersInOrder in *.
  destruct call as [[isOk code body parsed]|error]; [|discriminate]. simpl in *.
  destruct isOk; [|discriminate].
  destruct parsed as [[|[] [| |entries]]|error]; try discriminate.
  apply bool_decide_eq_true_1 in Hanswer.
  rewrite <- (map_map file_name Some) in Hanswer.
  destruct (reportedName_all_objects _ _ Hanswer) as (objects & -> & Hnames).
  unfold batchOutcome, processBatch_body, tryCatch, bind, await. simpl.
  destruct (forEach_mapFileResult objects []) as (mapped & -> & Hmapped).
  simpl. now rewrite Hmapped.
Qed.

(** *** The partition *)

Lemma createBatchesFrom_chunks (size : nat) (files : list File) (fuel i : nat)
  (batches : list (list File)) :
  0 < size -> length files - i <= fuel ->
  createBatchesFrom size files fuel i batches
  = Some (batches ++ chunks fuel size (drop i files)).
Proof.
  intros Hsize. revert i batches.
  induction fuel as [|fuel IH]; intros i batches Hfuel; simpl.
  - destruct (i <? length files) eqn:Hi.
    + apply Nat.ltb_lt in Hi. lia.
    + now rewrite app_nil_r.
  - destruct (i <? length files) eqn:Hi.
    + apply Nat.ltb_lt in Hi. rewrite IH by lia.
      destruct (drop i files) as [|file rest] eqn:Hdrop.
      { apply (f_equal length) in Hdrop. rewrite length_drop in Hdrop.
        simpl in Hdrop. lia. }
      rewrite <- Hdrop. unfold slice.
      replace (i + size - i) with size by lia.
      rewrite drop_drop, <- app_assoc. reflexivity.
    + apply Nat.ltb_ge in Hi. rewrite drop_ge by lia.
      now rewrite app_nil_r.
Qed.

(** The loop terminates and computes the partition of the specification. *)
Lemma createBatches_chunks (size : nat) (files : list File) :
  0 < size -> createBatches size files = Some (chunks (length files) size files).
Proof.
  intros Hsize. unfold createBatches.
  rewrite createBatchesFrom_chunks by lia. reflexivity.
Qed.

Lemma concat_chunks (fuel size : nat) (files : list File) :
  0 < size -> length files <= fuel -> concat (chunks fuel size files) = files.
Proof.
  intros Hsize. revert files.
  induction fuel as [|fuel IH]; intros files Hfuel; simpl.
  - destruct files; [reflexivity|simpl in Hfuel; lia].
  - destruct files as [|file rest] eqn:Hfiles; [reflexivity|]. rewrite <- Hfiles in *.
    simpl. rewrite IH.
    + apply take_drop.
    + rewrite length_drop. subst files. simpl in *. lia.
Qed.

Lemma chunks_bounded (fuel size : nat) (files : list File) :
  0 < size ->
  Forall (fun batch => 0 < length batch <= size) (chunks fuel size files).
Proof.
  intros Hsize. revert files.
  induction fuel as [|fuel IH]; intros files; simpl; [constructor|].
  destruct files as [|file rest] eqn:Hfiles; [constructor|]. rewrite <- Hfiles.
  constructor; [|apply IH].
  rewrite length_take. subst files. simpl. lia.
Qed.

(** Every batch but the last holds exactly [size] files. *)
Lemma chunks_full (fuel size : nat) (files : list File) (k : nat) (batch : list File) :
  chunks fuel size files !! k = Some batch ->
  S k < length (chunks fuel size files) ->
  length batch = size.
Proof.
  revert files k.
  induction fuel as [|fuel IH]; intros files k; simpl; [discriminate|].
  destruct files as [|file rest] eqn:Hfiles; [discriminate|]. rewrite <- Hfiles.
  destruct k as [|k]; simpl.
  - intros [= <-] Hmore. rewrite length_take.
    destruct (chunks fuel size (drop size files)) as [|next others] eqn:Hnext;
      [simpl in Hmore; lia|].
    destruct fuel; [discriminate|]. simpl in Hnext.
    destruct (drop size files) eqn:Hdrop; [discriminate|].
    apply (f_equal length) in Hdrop. rewrite length_drop in Hdrop.
    simpl in Hdrop. lia.
  - intros Hk Hmore. apply (IH _ k Hk). lia.
Qed.

(** *** The waves *)

Lemma outcomesFrom_split (env : Env) (count position : nat)
  (batches : list (list File)) :
  outcomesFrom env position batches
  = outcomesFrom env position (take count batches)
    ++ outcomesFrom env (position + count) (drop count batches).
Proof.
  revert position batches.
  induction count as [|count IH]; intros position batches; simpl.
  - now rewrite Nat.add_0_r.
  - destruct batches as [|batch rest]; simpl; [reflexivity|].
    rewrite (IH (S position) rest), <- app_assoc.
    now replace (position + S count) with (S position + count) by lia.
Qed.

(** The outcomes only depend on what the environment answers at the
    positions of the batches. *)
Lemma outcomesFrom_ext (env env' : Env) (position : nat) (batches : list (list File)) :
  (forall j, position <= j < position + length batches ->
     backend env' j = backend env j) ->
  outcomesFrom env' position batches = outcomesFrom env position batches.
Proof.
  revert position. induction batches as [|batch rest IH]; intros position Hsame;
    simpl; [reflexivity|].
  rewrite Hsame by (simpl; lia). f_equal. apply IH.
  intros j Hj. apply Hsame. simpl. lia.
Qed.

(** Every promise of a wave is fulfilled, so the [rejected] branch of the
    collecting callback is never taken: the wave appends the outcomes of
    its batches, in order. *)
Lemma collectFrom_settled (env : Env) (batches : list (list File))
  (batchIndex index position : nat) (results : list BatchResult)
  (currentBatches : list (list File)) :
  collectFrom batches batchIndex results index (settleFrom env position currentBatches)
  = results ++ outcomesFrom env position currentBatches.
Proof.
  revert index position results.
  induction currentBatches as [|batch rest IH]; intros index position results; simpl.
  - now rewrite app_nil_r.
  - rewrite processBatch_never_rejects. simpl. rewrite IH. now rewrite <- app_assoc.
Qed.

Lemma settleFrom_fulfilled (env : Env) (position : nat)
  (currentBatches : list (list File)) :
  Forall (fun settled => exists value, settled = fulfilled value)
         (settleFrom env position currentBatches).
Proof.
  revert position. induction currentBatches as [|batch rest IH]; intros position;
    simpl; constructor; [|apply IH].
  rewrite processBatch_never_rejects. eauto.
Qed.

(** The loop over the waves terminates; it reports the outcomes of the
    batches in the order of the schedule and issues one call per batch. *)
Lemma processWaves_run (concurrency : nat) (env : Env) (url : jsstring)
  (batches : list (list File)) (fuel batchIndex : nat)
  (results : list BatchResult) (calls : list NetCall) :
  0 < concurrency -> length batches - batchIndex <= fuel ->
  processWaves concurrency env url batches fuel batchIndex results calls
  = Some (results ++ outcomesFrom env batchIndex (drop batchIndex batches),
          calls ++ map (ParseMultiple (url ++ js "/api/v2/parse-multiple-invoices/"))
                       (drop batchIndex batches)).
Proof.
  intros Hconcurrency. revert batchIndex results calls.
  induction fuel as [|fuel IH]; intros batchIndex results calls Hfuel; simpl.
  - destruct (batchIndex <? length batches) eqn:Hi.
    + apply Nat.ltb_lt in Hi. lia.
    + apply Nat.ltb_ge in Hi. rewrite drop_ge by lia. simpl.
      now rewrite !app_nil_r.
  - destruct (batchIndex <? length batches) eqn:Hi.
    + rewrite IH by (apply Nat.ltb_lt in Hi; lia).
      rewrite collectFrom_settled. unfold slice.
      replace (batchIndex + concurrency - batchIndex) with concurrency by lia.
      rewrite <- !app_assoc, <- drop_drop.
      rewrite <- (outcomesFrom_split env concurrency batchIndex (drop batchIndex batches)).
      rewrite <- map_app, take_drop. reflexivity.
    + apply Nat.ltb_ge in Hi. rewrite drop_ge by lia. simpl.
      now rewrite !app_nil_r.
Qed.

(** A valid submission to a configured, healthy service is processed: the
    response is the report of the outcomes in the order of the schedule. *)
Lemma processAll_report (size concurrency : nat) (env : Env) (files : list File) :
  0 < size -> 0 < concurrency -> files <> [] -> validateFiles files = None ->
  isReady env = true ->
  let batches := chunks (length files) size files in
  exists message statistics url,
    processAll size concurrency env files
    = Some ({| http_status := 200;
               http_body := BatchReport message (outcomesFrom env 0 batches) statistics |},
            HealthCheck (url ++ js "/api/v2/health")
            :: map (ParseMultiple (url ++ js "/api/v2/parse-multiple-invoices/")) batches).
Proof.
  intros Hsize Hconcurrency Hfiles Hvalid Hready batches.
  destruct files as [|file rest]; [congruence|].
  unfold processAll. unfold isReady in Hready. rewrite Hvalid.
  destruct (orElse nonEmpty (backendUrl env) None) as [url|]; [|discriminate].
  destruct (health env) as [healthResponse|]; [|discriminate].
  rewrite Hready. cbn [negb]. rewrite createBatches_chunks by assumption. fold batches.
  rewrite processWaves_run by (assumption || lia). rewrite drop_0.
  eexists _, _, url. reflexivity.
Qed.

(** The route always answers: its loops do not run out of fuel. *)
Lemma processAll_returns (size concurrency : nat) (env : Env) (files : list File) :
  0 < size -> 0 < concurrency ->
  exists outcome, processAll size concurrency env files = Some outcome.
Proof.
  intros Hsize Hconcurrency. unfold processAll.
  destruct files as [|file rest]; [eauto|].
  destruct (validateFiles (file :: rest)); [eauto|].
  destruct (orElse nonEmpty (backendUrl env) None) as [url|]; [|eauto].
  destruct (health env) as [healthResponse|]; [|eauto].
  destruct (negb (ok healthResponse)); [eauto|].
  rewrite createBatches_chunks by assumption.
  rewrite processWaves_run by (assumption || lia). eauto.
Qed.

Lemma POST_returns (env : Env) (files : list File) :
  exists outcome, POST env files = Some outcome.
Proof. apply processAll_returns; unfold BATCH_SIZE, MAX_CONCURRENT_BATCHES; lia. Qed.

Lemma validateFiles_rejects (files : list File) :
  existsb isInvalid files = true ->
  exists rejection,
    validateFiles files = Some rejection
    /\ http_status rejection = 400%N
    /\ exists message, http_body rejection = ErrorBody message None None.
Proof.
  induction files as [|file rest IH]; simpl; [discriminate|].
  unfold isInvalid at 1.
  destruct (negb (bool_decide (file_type file = js "application/pdf"))); simpl.
  { intros _. eexists. split; [reflexivity|]. split; [reflexivity|]. eauto. }
  destruct (maxFileSize <? file_size file)%N; simpl.
  { intros _. eexists. split; [reflexivity|]. split; [reflexivity|]. eauto. }
  exact IH.
Qed.

(** *** The claims on the orchestrator *)

(** The entries that the callback of [forEach] pushes for the objects of
    [result.results], written out. *)
Lemma forEach_mapFileResult_entries (answers : list Backend.FileResult)
  (results : list BatchResult) :
  forEach mapFileResult (map Some answers) results
  = (Ok tt,
     results
     ++ map (fun r =>
               {| filename :=
                    default (js "unknown") (orElse nonEmpty (Backend.filename r) None);
                  success := default false (Backend.success r);
                  data := Backend.data r;
                  error := orElse nonEmpty (Backend.error_details r) (Backend.error r);
                  processingTime :=
                    Some (match Backend.processing_time_seconds r with
                          | Some seconds =>
                              if Qeq_bool seconds 0 then 0%Q else (seconds * 1000)%Q
                          | None => 0%Q
                          end) |})
            answers).
Proof.
  revert results. induction answers as [|r rest IH]; intros results; simpl.
  - unfold ret. now rewrite app_nil_r.
  - unfold bind, push at 1. simpl. rewrite IH, <- app_assoc. reflexivity.
Qed.

(** The report is cut by batch: the entries of the batch at each position
    of the schedule. *)
Lemma outcomesFrom_imap (env : Env) (position : nat) (batches : list (list File)) :
  outcomesFrom env position batches
  = concat (imap (fun j batch => batchOutcome batch (backend env (position + j))) batches).
Proof.
  revert position. induction batches as [|batch rest IH]; intros position;
    [reflexivity|].
  cbn [outcomesFrom imap concat]. rewrite Nat.add_0_r, IH. do 2 f_equal.
  apply imap_ext. intros j other _. cbn. do 2 f_equal. lia.
Qed.

(** C1.  In a run that reaches the waves (valid files, configured and
    healthy service), let the call of the batch at position [k] of the
    schedule fail at the transport level: [fetch] is aborted by the timeout
    of the batch or fails on the network, or reading the body throws.  The
    report is the concatenation, over the schedule, of the entries of each
    batch.  Every file of batch [k] gets one entry under its name, with
    [success] false and the reason as its [error], which is
    ["Request timeout"] for an abort and the message of the error
    otherwise.  The entries of every other batch are those of its own
    call: a batch that the service answers holds the entries of the answer,
    field by field, and in every run that differs from this one only in
    what the call at [k] does, the report is cut in the same way and the
    entries of the other batches are the same. *)
Theorem C1_batch_failure_is_isolated (size concurrency : nat) (env : Env)
  (files : list File) (batches : list (list File)) (k : nat) (batch : list File)
  (error : Thrown) :
  0 < size -> 0 < concurrency -> validateFiles files = None -> isReady env = true ->
  createBatches size files = Some batches ->
  batches !! k = Some batch ->
  transportFailure (backend env k) = Some error ->
  let reason :=
    if isAbortError error then js "Request timeout" else errorMessage error in
  let entries := fun (run : Env) =>
    imap (fun j group => snd (processBatch_body group (backend run j) [])) batches in
  (exists message statistics calls,
     processAll size concurrency env files
     = Some ({| http_status := 200;
                http_body := BatchReport message (concat (entries env)) statistics |},
             calls))
  /\ entries env !! k
     = Some (map (fun file =>
                    {| filename := file_name file; success := false; data := None;
                       Orchestrator.error := Some reason;
                       processingTime := Some 0%Q |})
                 batch)
  /\ (forall j response answers,
        j < length batches ->
        backend env j = Ok response -> ok response = true ->
        json response = Ok (JsonValue true (ResultsArray (map Some answers))) ->
        entries env !! j
        = Some (map (fun r =>
                       {| filename :=
                            default (js "unknown")
                                    (orElse nonEmpty (Backend.filename r) None);
                          success := default false (Backend.success r);
                          data := Backend.data r;
                          Orchestrator.error :=
                            orElse nonEmpty (Backend.error_details r) (Backend.error r);
                          processingTime :=
                            Some (match Backend.processing_time_seconds r with
                                  | Some seconds =>
                                      if Qeq_bool seconds 0 then 0%Q
                                      else (seconds * 1000)%Q
                                  | None => 0%Q
                                  end) |})
                    answers))
  /\ (forall env',
        isReady env' = true ->
        (forall j, j <> k -> backend env' j = backend env j) ->
        (exists message statistics calls,
           processAll size concurrency env' files
           = Some ({| http_status := 200;
                      http_body :=
                        BatchReport message (concat (entries env')) statistics |},
                   calls))
        /\ length (entries env') = length (entries env)
        /\ (forall j, j <> k -> entries env' !! j = entries env !! j)).
Proof.
  intros Hsize Hconcurrency Hvalid Hready Hbatches Hk Herror reason entries.
  rewrite createBatches_chunks in Hbatches by assumption.
  injection Hbatches as Hbatches.
  assert (Hfiles : files <> []).
  { intros ->. subst batches. discriminate. }
  assert (Hreport : forall run,
    isReady run = true ->
    exists message statistics calls,
      processAll size concurrency run files
      = Some ({| http_status := 200;
                 http_body := BatchReport message (concat (entries run)) statistics |},
              calls)).
  { intros run Hrun.
    destruct (processAll_report size concurrency run files)
      as (message & statistics & url & Hrun'); try assumption.
    rewrite Hbatches, outcomesFrom_imap in Hrun'. eauto. }
  split; [now apply Hreport|]. split; [|split].
  - subst entries. cbn beta. rewrite list_lookup_imap, Hk. cbn [fmap option_fmap option_map].
    f_equal. exact (batchOutcome_transport_failure batch _ error Herror).
  - intros j response answers Hj Hcall Hok Hjson.
    subst entries. cbn beta. rewrite list_lookup_imap.
    destruct (lookup_lt_is_Some_2 batches j Hj) as [other ->].
    cbn [fmap option_fmap option_map]. f_equal. rewrite Hcall.
    unfold processBatch_body, tryCatch, bind, await. cbn [fst snd].
    rewrite Hok. cbn [negb]. rewrite Hjson.
    now rewrite forEach_mapFileResult_entries.
  - intros env' Hready' Hsame.
    split; [now apply Hreport|]. split.
    + subst entries. cbn beta. now rewrite !length_imap.
    + intros j Hj. subst entries. cbn beta. rewrite !list_lookup_imap.
      now rewrite (Hsame j Hj).
Qed.

(** C2 (amended).  In a run that reaches the waves, the list of [n] files
    is cut into consecutive batches of the batch size (the last one may be
    shorter), and the report is the concatenation, in the order of the
    schedule, of the entries of each batch.  It holds exactly [n] entries
    when every call is answered for every file (it fails as a whole, or
    returns one result per file of its batch), and these are named after
    the files, in the order of the input, when every call is answered in
    order. *)
Theorem C2_report_follows_the_schedule (size concurrency : nat) (env : Env)
  (files : list File) :
  0 < size -> 0 < concurrency -> files <> [] -> validateFiles files = None ->
  isReady env = true ->
  exists batches,
    createBatches size files = Some batches
    /\ concat batches = files
    /\ Forall (fun batch => 0 < length batch <= size) batches
    /\ (forall k batch, batches !! k = Some batch -> S k < length batches ->
                        length batch = size)
    /\ reportedResults (processAll size concurrency env files)
       = Some (outcomesFrom env 0 batches)
    /\ ((forall k batch, batches !! k = Some batch ->
                         answersEveryFile batch (backend env k) = true) ->
        length (outcomesFrom env 0 batches) = length files)
    /\ ((forall k batch, batches !! k = Some batch ->
                         answersInOrder batch (backend env k) = true) ->
        map filename (outcomesFrom env 0 batches) = map file_name files).
Proof.
  intros Hsize Hconcurrency Hfiles Hvalid Hready.
  exists (chunks (length files) size files).
  split; [now apply createBatches_chunks|].
  split; [now apply concat_chunks|].
  split; [now apply chunks_bounded|].
  split; [intros k batch; apply chunks_full|].
  split.
  { destruct (processAll_report size concurrency env files)
      as (message & statistics & url & ->); try assumption. reflexivity. }
  split.
  - intros Hanswers.
    assert (Hcount : forall position batches,
      (forall k batch, batches !! k = Some batch ->
         answersEveryFile batch (backend env (position + k)) = true) ->
      length (outcomesFrom env position batches) = length (concat batches)).
    { intros position batches. revert position.
      induction batches as [|batch rest IH]; intros position Hall; simpl; [reflexivity|].
      rewrite !length_app. f_equal.
      - apply batchOutcome_every_file. specialize (Hall 0 batch eq_refl).
        now rewrite Nat.add_0_r in Hall.
      - apply IH. intros k other Hk. specialize (Hall (S k) other Hk).
        now replace (S position + k) with (position + S k) by lia. }
    rewrite (Hcount 0 _ Hanswers). now rewrite concat_chunks by lia.
  - intros Hanswers.
    assert (Hnames : forall position batches,
      (forall k batch, batches !! k = Some batch ->
         answersInOrder batch (backend env (position + k)) = true) ->
      map filename (outcomesFrom env position batches) = map file_name (concat batches)).
    { intros position batches. revert position.
      induction batches as [|batch rest IH]; intros position Hall; simpl; [reflexivity|].
      rewrite !map_app. f_equal.
      - apply batchOutcome_in_order. specialize (Hall 0 batch eq_refl).
        now rewrite Nat.add_0_r in Hall.
      - apply IH. intros k other Hk. specialize (Hall (S k) other Hk).
        now replace (S position + k) with (position + S k) by lia. }
    rewrite (Hnames 0 _ Hanswers). now rewrite concat_chunks by lia.
Qed.

(** C8.  A submission that holds a file whose type is not
    [application/pdf] or whose size exceeds 5 MiB is refused as a whole,
    with one 400 response, by both routes, which issue no outbound call. *)
Theorem C8_invalid_submission_issues_no_call (size concurrency : nat) (env : Env)
  (forwarderEnv : Forwarder.Env) (files : list File) :
  existsb isInvalid files = true ->
  exists rejection message,
    http_status rejection = 400%N
    /\ http_body rejection = ErrorBody message None None
    /\ processAll size concurrency env files = Some (rejection, [])
    /\ POST env files = Some (rejection, [])
    /\ Forwarder.POST forwarderEnv files = (rejection, []).
Proof.
  intros Hinvalid.
  destruct (validateFiles_rejects files Hinvalid)
    as (rejection & Hrejection & Hstatus & message & Hbody).
  exists rejection, message. unfold POST, processAll, Forwarder.POST.
  destruct files as [|file rest]; [discriminate|].
  rewrite Hrejection. auto.
Qed.

(** C10 (the code departs from it).  [processBatch] never rejects, so every
    promise of a wave is fulfilled and the [rejected] branch of the wave
    loop is not taken; and when the call fails as a whole, every file of
    the batch gets exactly one entry.  But a throw in the middle of the
    mapping of the results leaves more: for the body
    [{ success: true, results: [<a.pdf>, null] }] and the batch of [a.pdf]
    and [b.pdf], reading [filename] of the [null] entry throws after the
    first entry is pushed, and the handler adds one failure per file to the
    entry already there, three entries for two files. *)
Theorem C10_entries_survive_a_throw :
  (forall files call, exists entries, processBatch files call = fulfilled entries)
  /\ (forall env position currentBatches,
        Forall (fun settled => exists value, settled = fulfilled value)
               (settleFrom env position currentBatches))
  /\ (forall files call,
        failsAsAWhole call = true ->
        exists reason, processBatch files call = fulfilled (map (failure reason) files))
  /\ exists entries,
       processBatch [pdf "a.pdf"; pdf "b.pdf"] bodyWithNullEntry = fulfilled entries
       /\ map summary entries
          = [ (js "a.pdf", true, None);
              (js "a.pdf", false,
               Some (js "Cannot read properties of null (reading 'filename')"));
              (js "b.pdf", false,
               Some (js "Cannot read properties of null (reading 'filename')")) ]
       /\ length entries = 3
       /\ length [pdf "a.pdf"; pdf "b.pdf"] = 2.
Proof.
  split; [|split; [|split]].
  - intros files call. rewrite processBatch_never_rejects. eauto.
  - apply settleFrom_fulfilled.
  - intros files call Hwhole. rewrite processBatch_never_rejects.
    destruct (batchOutcome_whole_failure files call Hwhole) as [reason ->]. eauto.
  - eexists. split; [reflexivity|]. repeat split.
Qed.

(** The timeout of the batch of files 3 and 4, out of five files cut in
    twos with two batches in flight: the report, entry by entry. *)
Lemma C1_witness :
  let answered := fun name : string =>
    {| filename := js name; success := true; data := None;
       Orchestrator.error := None; processingTime := Some 2000%Q |} in
  let timedOut := fun name : string =>
    {| filename := js name; success := false; data := None;
       Orchestrator.error := Some (js "Request timeout");
       processingTime := Some 0%Q |} in
  reportedResults (processAll 2 2 timeoutEnv fiveFiles)
  = Some [answered "1"; answered "2"; timedOut "3"; timedOut "4"; answered "5"]
  /\ reportedResults (processAll 2 2 healthyEnv fiveFiles)
     = Some [answered "1"; answered "2"; answered "3"; answered "4"; answered "5"].
Proof.
  intros answered timedOut.
  destruct (C1_batch_failure_is_isolated 2 2 timeoutEnv fiveFiles
              [[pdf "1"; pdf "2"]; [pdf "3"; pdf "4"]; [pdf "5"]] 1
              [pdf "3"; pdf "4"]
              (JsError (js "AbortError") (js "This operation was aborted")))
    as (Hreport & Hfailed & Hanswered & Hother); try reflexivity; try lia.
  split.
  - destruct Hreport as (message & statistics & calls & ->). reflexivity.
  - destruct (Hother healthyEnv eq_refl) as ((message & statistics & calls & ->) & _).
    + intros [|[|j]] Hj; (reflexivity || lia).
    + reflexivity.
Defined.

(** Five files in batches of two, two batches in flight, a service that
    answers per file: five entries, in the order of the input. *)
Lemma C2_witness :
  createBatches DASHBOARD_BATCH_SIZE fiveFiles
  = Some [[pdf "1"; pdf "2"]; [pdf "3"; pdf "4"]; [pdf "5"]]
  /\ (map filename <$> reportedResults (processAll 2 2 healthyEnv fiveFiles))
     = Some [js "1"; js "2"; js "3"; js "4"; js "5"]
  /\ (length <$> reportedResults (processAll 2 2 healthyEnv fiveFiles)) = Some 5.
Proof.
  destruct (C2_report_follows_the_schedule 2 2 healthyEnv fiveFiles)
    as (batches & Hbatches & _ & _ & _ & Hreport & Hcount & Hnames);
    try reflexivity; try lia; [discriminate|].
  assert (Hcut : batches = [[pdf "1"; pdf "2"]; [pdf "3"; pdf "4"]; [pdf "5"]]).
  { assert (Hrun : createBatches 2 fiveFiles
                   = Some [[pdf "1"; pdf "2"]; [pdf "3"; pdf "4"]; [pdf "5"]])
      by reflexivity.
    rewrite Hrun in Hbatches. now injection Hbatches as <-. }
  split; [reflexivity|].
  rewrite Hreport. simpl. split; f_equal.
  - rewrite Hnames; [reflexivity|].
    subst batches. intros [|[|[|k]]] batch [= <-]; reflexivity.
  - rewrite Hcount; [reflexivity|].
    subst batches. intros [|[|[|k]]] batch [= <-]; reflexivity.
Defined.

(** C2 (as stated, it fails).  One valid file, a healthy service that
    answers [{ success: true, results: [] }]: the report is returned and it
    holds no entry. *)
Lemma C2_counterexample :
  length [pdf "1"] = 1
  /\ reportedResults (POST silentEnv [pdf "1"]) = Some []
  /\ reportedResults (processAll 2 2 silentEnv [pdf "1"]) = Some [].
Proof. repeat split. Qed.

Lemma C8_witness :
  POST healthyEnv oversizedSubmission
  = Some (errorResponse 400
            (js "File " ++ dquote ++ js "big.pdf" ++ dquote
             ++ js " exceeds 5MB limit. Please upload smaller files."), [])
  /\ snd (Forwarder.POST Forwarder.healthyEnv oversizedSubmission) = [].
Proof.
  destruct (C8_invalid_submission_issues_no_call BATCH_SIZE MAX_CONCURRENT_BATCHES
              healthyEnv Forwarder.healthyEnv oversizedSubmission eq_refl)
    as (rejection & message & _ & _ & _ & Hpost & Hforward).
  split.
  - assert (Hrun : POST healthyEnv oversizedSubmission
                   = Some (errorResponse 400
                             (js "File " ++ dquote ++ js "big.pdf" ++ dquote
                              ++ js " exceeds 5MB limit. Please upload smaller files."),
                           [])) by reflexivity.
    rewrite Hpost in *. exact Hrun.
  - now rewrite Hforward.
Defined.

End OrchestratorProofs.
(** ** The identity normalizer, applied again *)

Module NormalizerStability.
Import Normalizer NormalizerProofs NameShapes.

Ltac caseclass := unfold upperLatin, lowerLatin in *; charclass.

(** *** The ASCII case maps *)

Lemma lowerLatin_upperLatin c : lowerLatin (upperLatin c) = lowerLatin c.
Proof.
  unfold upperLatin. destruct (inRange 97 122 c) eqn:E; [|reflexivity].
  unfold lowerLatin.
  destruct (inRange 65 90 (c - 32)) eqn:E1, (inRange 65 90 c) eqn:E2;
    revert E E1 E2; charclass.
Qed.

Lemma lowerLatin_involutive c : lowerLatin (lowerLatin c) = lowerLatin c.
Proof.
  unfold lowerLatin. destruct (inRange 65 90 c) eqn:E; [|now rewrite E].
  destruct (inRange 65 90 (c + 32)) eqn:E1; [|reflexivity].
  exfalso. revert E E1. charclass.
Qed.

Lemma isWhiteSpace_lowerLatin c : isWhiteSpace (lowerLatin c) = isWhiteSpace c.
Proof.
  unfold lowerLatin. destruct (inRange 65 90 c) eqn:E; [|reflexivity].
  destruct (isWhiteSpace c) eqn:W, (isWhiteSpace (c + 32)) eqn:W'; try reflexivity;
    exfalso; revert E W W'; charclass.
Qed.

Lemma isWhiteSpace_upperLatin c : isWhiteSpace (upperLatin c) = isWhiteSpace c.
Proof.
  unfold upperLatin. destruct (inRange 97 122 c) eqn:E; [|reflexivity].
  destruct (isWhiteSpace c) eqn:W, (isWhiteSpace (c - 32)) eqn:W'; try reflexivity;
    exfalso; revert E W W'; charclass.
Qed.

Lemma isWordChar_not_whitespace c : isWordChar c = true -> isWhiteSpace c = false.
Proof.
  intros H. destruct (isWhiteSpace c) eqn:W; [|reflexivity].
  exfalso. revert H W. charclass.
Qed.

Lemma isWordChar_upperLatin c : isWordChar c = true -> isWordChar (upperLatin c) = true.
Proof.
  unfold upperLatin. destruct (inRange 97 122 c) eqn:E; [|auto].
  intros _. revert E. charclass.
Qed.

Lemma isUpper_lowerLatin c : isUpper (lowerLatin c) = false.
Proof.
  unfold lowerLatin. destruct (inRange 65 90 c) eqn:E.
  - destruct (isUpper (c + 32)) eqn:U; [|reflexivity]. exfalso. revert E U. charclass.
  - exact E.
Qed.

Lemma isAllowed_lowerLatin c : isAllowed c = true -> isAllowed (lowerLatin c) = true.
Proof.
  unfold lowerLatin. destruct (inRange 65 90 c) eqn:E; [|auto].
  intros _. revert E. charclass.
Qed.

Lemma isAllowed_upperLatin c : isAllowed c = true -> isAllowed (upperLatin c) = true.
Proof.
  unfold upperLatin. destruct (inRange 97 122 c) eqn:E; [|auto].
  intros _. revert E. charclass.
Qed.

Lemma isAllowed_shape c :
  isAllowed c = true ->
  isZeroWidth c = false /\ (c =? 46)%N = false
  /\ (isWhiteSpace c = true -> c = 32%N).
Proof.
  intros H. repeat split.
  - destruct (isZeroWidth c) eqn:Z; [|reflexivity]. exfalso.
    revert H Z. unfold isZeroWidth. charclass.
  - destruct (c =? 46)%N eqn:Z; [|reflexivity]. exfalso. revert H Z. charclass.
  - revert H. charclass.
Qed.

(** *** The steps of the pipeline, with the ASCII case maps *)

Abbreviation capitalizeLatin := (capitalizeFrom (B := LatinBuiltins)).

Lemma capitalizeLatin_cons prevWord c s :
  capitalizeLatin prevWord (c :: s)
  = (if isWordChar c then (if prevWord then c else upperLatin c) else c)
    :: capitalizeLatin (isWordChar c) s.
Proof. simpl. destruct (isWordChar c), prevWord; reflexivity. Qed.

Lemma lower_capitalizeLatin prevWord s :
  map lowerLatin (capitalizeLatin prevWord s) = map lowerLatin s.
Proof.
  revert prevWord. induction s as [|c r IH]; intros prevWord; [reflexivity|].
  rewrite capitalizeLatin_cons. cbn [map]. rewrite IH. f_equal.
  destruct (isWordChar c), prevWord; auto using lowerLatin_upperLatin.
Qed.

Lemma In_capitalizeLatin prevWord s x :
  In x (capitalizeLatin prevWord s) -> exists c, In c s /\ (x = c \/ x = upperLatin c).
Proof.
  revert prevWord. induction s as [|c r IH]; intros prevWord; [intros []|].
  rewrite capitalizeLatin_cons. intros [<-|Hin].
  - exists c. split; [now left|]. destruct (isWordChar c), prevWord; auto.
  - destruct (IH _ Hin) as (c' & Hc' & Hx). exists c'. split; [now right|assumption].
Qed.

Lemma collapseFrom_lower inRun s :
  collapseFrom inRun (map lowerLatin s) = map lowerLatin (collapseFrom inRun s).
Proof.
  revert inRun. induction s as [|c r IH]; intros inRun; [reflexivity|].
  cbn [map collapseFrom]. rewrite isWhiteSpace_lowerLatin.
  destruct (isWhiteSpace c), inRun; cbn [map]; now rewrite IH.
Qed.

Lemma collapseFrom_capitalize inRun prevWord s :
  (inRun = true -> prevWord = false) ->
  capitalizeLatin prevWord (collapseFrom inRun s)
  = collapseFrom inRun (capitalizeLatin prevWord s).
Proof.
  revert inRun prevWord. induction s as [|c r IH]; intros inRun prevWord Hrun;
    [reflexivity|].
  rewrite capitalizeLatin_cons. cbn [collapseFrom].
  destruct (isWhiteSpace c) eqn:W.
  - assert (isWordChar c = false) as Hw.
    { destruct (isWordChar c) eqn:Hw; [|reflexivity].
      apply isWordChar_not_whitespace in Hw. congruence. }
    rewrite Hw, W. destruct inRun.
    + rewrite (Hrun eq_refl). now apply IH.
    + rewrite capitalizeLatin_cons. cbn. f_equal. now apply IH.
  - rewrite capitalizeLatin_cons.
    assert (isWhiteSpace (if isWordChar c then if prevWord then c else upperLatin c else c)
            = false) as ->.
    { destruct (isWordChar c), prevWord; try assumption.
      now rewrite isWhiteSpace_upperLatin. }
    f_equal. apply IH. discriminate.
Qed.

Lemma collapseFrom_idempotent s :
  (forall inRun, collapseFrom false (collapseFrom inRun s) = collapseFrom inRun s)
  /\ collapseFrom true (collapseFrom true s) = collapseFrom true s.
Proof.
  induction s as [|c r [IH1 IH2]]; [split; [intros []|]; reflexivity|].
  split.
  - intros inRun. cbn [collapseFrom]. destruct (isWhiteSpace c) eqn:W.
    + destruct inRun; [apply IH1|]. cbn. now rewrite IH2.
    + cbn [collapseFrom]. rewrite W. now rewrite IH1.
  - cbn [collapseFrom]. destruct (isWhiteSpace c) eqn:W; [apply IH2|].
    cbn [collapseFrom]. rewrite W. now rewrite IH1.
Qed.

(** *** White space at the edges *)

Lemma cleanStart_trimStart s : cleanStart (trimStart s).
Proof.
  induction s as [|c r IH]; simpl; [exact I|].
  destruct (isWhiteSpace c) eqn:W; [assumption|exact W].
Qed.

Lemma trimStart_cleanStart s : cleanStart s -> trimStart s = s.
Proof. destruct s as [|c r]; simpl; [reflexivity|]. now intros ->. Qed.

Lemma trimStart_snoc s c :
  isWhiteSpace c = false -> trimStart (s ++ [c]) = trimStart s ++ [c].
Proof.
  intros W. induction s as [|a r IH]; simpl; [now rewrite W|].
  destruct (isWhiteSpace a); [assumption|reflexivity].
Qed.

Lemma cleanEdges_trim s : cleanEdges (trim s).
Proof.
  unfold cleanEdges, trim, trimEnd. rewrite rev_involutive. split.
  - pose proof (cleanStart_trimStart s) as Hs.
    destruct (trimStart s) as [|c r]; [exact I|].
    cbn [rev]. rewrite (trimStart_snoc _ _ Hs), rev_app_distr. exact Hs.
  - apply cleanStart_trimStart.
Qed.

Lemma trim_cleanEdges s : cleanEdges s -> trim s = s.
Proof.
  intros [Hs Hr]. unfold trim, trimEnd.
  rewrite (trimStart_cleanStart s Hs), (trimStart_cleanStart _ Hr).
  apply rev_involutive.
Qed.

Lemma Forall2_rev {A C} (R : A -> C -> Prop) l k :
  Forall2 R l k -> Forall2 R (rev l) (rev k).
Proof.
  induction 1 as [|a c l k Hac Hlk IH]; [constructor|].
  cbn [rev]. apply Forall2_app; [assumption|]. now repeat constructor.
Qed.

Lemma cleanEdges_Forall2 s t :
  Forall2 (fun a b => isWhiteSpace b = isWhiteSpace a) s t ->
  cleanEdges s -> cleanEdges t.
Proof.
  intros H [Hs Hr]. split.
  - destruct H as [|a b l k Hab _]; [exact I|]. cbn in *. congruence.
  - apply Forall2_rev in H.
    destruct H as [|a b l k Hab _]; [exact I|]. cbn in *. congruence.
Qed.

Lemma capitalizeLatin_whitespace prevWord s :
  Forall2 (fun a b => isWhiteSpace b = isWhiteSpace a) s (capitalizeLatin prevWord s).
Proof.
  revert prevWord. induction s as [|c r IH]; intros prevWord; [constructor|].
  rewrite capitalizeLatin_cons. constructor; [|apply IH].
  destruct (isWordChar c), prevWord; auto using isWhiteSpace_upperLatin.
Qed.

Lemma lower_whitespace s :
  Forall2 (fun a b => isWhiteSpace b = isWhiteSpace a) s (map lowerLatin s).
Proof.
  induction s as [|c r IH]; constructor; [apply isWhiteSpace_lowerLatin|assumption].
Qed.

Lemma collapseFrom_snoc inRun s c :
  isWhiteSpace c = false ->
  collapseFrom inRun (s ++ [c]) = collapseFrom inRun s ++ [c].
Proof.
  intros W. revert inRun. induction s as [|a r IH]; intros inRun; simpl.
  - now rewrite W.
  - destruct (isWhiteSpace a), inRun; simpl; now rewrite IH.
Qed.

Lemma cleanEdges_collapse s : cleanEdges s -> cleanEdges (collapseWhitespace s).
Proof.
  intros [Hs Hr]. unfold collapseWhitespace. split.
  - destruct s as [|c r]; [exact I|]. cbn in *. now rewrite Hs.
  - rewrite <- (rev_involutive s). destruct (rev s) as [|c r]; [exact I|].
    cbn [rev]. cbn in Hr. rewrite (collapseFrom_snoc _ _ _ Hr), rev_app_distr.
    exact Hr.
Qed.

(** *** The second pass *)

(** What the pipeline gives on Basic Latin input. *)
Lemma standardizeLatin_shape z :
  exists t,
    standardizeVendorName (B := LatinBuiltins) (Some z)
    = capitalizeLatin false (map lowerLatin t)
    /\ cleanEdges t
    /\ forall c, In c t -> isAllowed c = true.
Proof.
  destruct z as [|c r].
  - exists []. split; [reflexivity|]. split; [split; exact I|intros c []].
  - eexists. split; [reflexivity|]. split; [apply cleanEdges_trim|].
    intros x Hx%In_trim. now apply filter_In in Hx as [_ Hx].
Qed.

Lemma standardizeLatin_twice z :
  let once := standardizeVendorName (B := LatinBuiltins) (Some z) in
  standardizeVendorName (B := LatinBuiltins) (Some once) = collapseWhitespace once
  /\ forall c, In c once -> isAllowed c = true.
Proof.
  destruct (standardizeLatin_shape z) as (t & Honce & Hedges & Hallowed).
  cbn zeta. rewrite Honce.
  set (once := capitalizeLatin false (map lowerLatin t)).
  assert (Hchars : forall c, In c once -> isAllowed c = true).
  { intros x Hx. apply In_capitalizeLatin in Hx as (c & Hc & Hx).
    apply in_map_iff in Hc as (c0 & <- & Hc0).
    destruct Hx as [->| ->];
      auto using isAllowed_lowerLatin, isAllowed_upperLatin. }
  split; [|exact Hchars].
  assert (Hclean : cleanEdges once).
  { eapply cleanEdges_Forall2; [apply capitalizeLatin_whitespace|].
    eapply cleanEdges_Forall2; [apply lower_whitespace|assumption]. }
  assert (Hfixed : capitalizeLatin false (map lowerLatin once) = once).
  { subst once. rewrite lower_capitalizeLatin, map_map.
    f_equal. apply map_ext. intros c. apply lowerLatin_involutive. }
  destruct once as [|c0 r0] eqn:Hshape; [reflexivity|]. rewrite <- Hshape in *.
  assert (standardizeVendorName (B := LatinBuiltins) (Some once)
          = capitalizeLatin false
              (map lowerLatin
                 (trim (stripDisallowed (collapseWhitespace
                    (removePeriods (removeZeroWidth once))))))) as ->.
  { rewrite Hshape. reflexivity. }
  assert (removeZeroWidth once = once) as ->.
  { apply forallb_filter_id, forallb_forall. intros c Hc.
    destruct (isAllowed_shape c (Hchars c Hc)) as (-> & _). reflexivity. }
  assert (removePeriods once = once) as ->.
  { apply forallb_filter_id, forallb_forall. intros c Hc.
    destruct (isAllowed_shape c (Hchars c Hc)) as (_ & -> & _). reflexivity. }
  assert (stripDisallowed (collapseWhitespace once) = collapseWhitespace once) as ->.
  { apply forallb_filter_id, forallb_forall. intros c Hc.
    apply In_collapseFrom in Hc as [->|Hc]; [reflexivity|auto]. }
  rewrite trim_cleanEdges by now apply cleanEdges_collapse.
  unfold collapseWhitespace.
  rewrite <- collapseFrom_lower, collapseFrom_capitalize by discriminate.
  now rewrite Hfixed.
Qed.

Section Facts.
Context {B : Builtins}.

Lemma standardizeVendorName_twice (name : option jsstring) :
  let once := standardizeVendorName name in
  standardizeVendorName (Some once) = collapseWhitespace once
  /\ forall c, In c once -> isAllowed c = true.
Proof.
  destruct name as [s|]; [|split; [reflexivity|intros c []]].
  cbn zeta. rewrite (standardizeVendorName_factor s).
  destruct (standardizeLatin_twice (normalizeNFKC s)) as [Htwice Hchars].
  split; [|exact Hchars].
  rewrite standardizeVendorName_latin_input; [exact Htwice|].
  apply forallb_forall. intros c Hc. apply isAllowed_latin. auto.
Qed.

(** X12.  A second pass of the normalizer only collapses the runs of
    spaces that the first pass left, and from the second pass on the name
    is stable: for every name, whatever the Unicode built-ins do outside
    Basic Latin, normalizing the normalized name gives the normalized name
    with its white space collapsed, and a third pass gives what the second
    gave. *)
Theorem standardizeVendorName_second_pass (name : option jsstring) :
  standardizeVendorName (Some (standardizeVendorName name))
  = collapseWhitespace (standardizeVendorName name)
  /\ standardizeVendorName
       (Some (standardizeVendorName (Some (standardizeVendorName name))))
     = standardizeVendorName (Some (standardizeVendorName name)).
Proof.
  split; [apply standardizeVendorName_twice|].
  destruct (standardizeVendorName_twice (Some (standardizeVendorName name))) as [-> _].
  destruct (standardizeVendorName_twice name) as [-> _].
  apply collapseFrom_idempotent.
Qed.

(** No uppercase letter follows a word character in a normalized name. *)
Lemma standardizeVendorName_capitals (name : option jsstring) :
  hasInnerCapital false (standardizeVendorName name) = false.
Proof.
  destruct name as [s|]; [|reflexivity].
  rewrite (standardizeVendorName_factor s).
  destruct (standardizeLatin_shape (normalizeNFKC s)) as (t & -> & _ & _).
  enough (H : forall prevWord,
            hasInnerCapital prevWord (capitalizeLatin prevWord (map lowerLatin t))
            = false) by apply H.
  induction t as [|c r IH]; intros prevWord; [reflexivity|].
  cbn [map]. rewrite capitalizeLatin_cons. cbn [hasInnerCapital].
  apply orb_false_iff. split.
  - destruct prevWord; [|reflexivity]. cbn [andb].
    destruct (isWordChar (lowerLatin c)); apply isUpper_lowerLatin.
  - replace (isWordChar (if isWordChar (lowerLatin c)
                         then if prevWord then lowerLatin c
                              else upperLatin (lowerLatin c)
                         else lowerLatin c))
      with (isWordChar (lowerLatin c)); [apply IH|].
    destruct (isWordChar (lowerLatin c)) eqn:W, prevWord; auto.
    symmetry. now apply isWordChar_upperLatin.
Qed.

(** X13.  Of the nine override rules only the first can fire: for every
    name that is not blank, the enhanced normalization is the normalized
    trimmed name, except that ['Trash Taxi Of Gallc'] becomes ['Trash Taxi
    Of Ga Llc']; the other eight variants hold an uppercase letter inside a
    word, which no normalized name has. *)
Theorem enhancedVendorNormalization_rules (name : option jsstring) :
  enhancedVendorNormalization name
  = match name with
    | None => js "Unknown"
    | Some n =>
        if negb (nonEmpty n) || negb (nonEmpty (trim n)) then js "Unknown"
        else
          let normalized := standardizeVendorName (Some (trim n)) in
          if bool_decide (normalized = js "Trash Taxi Of Gallc")
          then js "Trash Taxi Of Ga Llc"
          else normalized
    end.
Proof.
  destruct name as [n|]; [|reflexivity].
  unfold enhancedVendorNormalization.
  destruct (negb (nonEmpty n) || negb (nonEmpty (trim n))); [reflexivity|].
  pose proof (standardizeVendorName_capitals (Some (trim n))) as Hcap.
  set (normalized := standardizeVendorName (Some (trim n))) in *. clearbody normalized.
  cbn zeta. unfold normalizationRules. cbn [applyRules].
  destruct (bool_decide (normalized = js "Trash Taxi Of Gallc")); [reflexivity|].
  repeat (case_bool_decide as Hrule;
          [exfalso; rewrite Hrule in Hcap; vm_compute in Hcap; discriminate
          |clear Hrule]).
  reflexivity.
Qed.

End Facts.

End NormalizerStability.

(** ** Invoice numbers, vendor grouping and similarity *)

Module DataUtilsProofs.
Import Normalizer NormalizerProofs DataUtils.

Ltac numberclass :=
  unfold isNumberChar, isPeriodOrHyphen, isSpecialChar, upperLatin, lowerLatin in *;
  charclass.

(** *** White space at the ends *)

Lemma In_trimStart_keep (x : N) s :
  In x s -> isWhiteSpace x = false -> In x (trimStart s).
Proof.
  intros Hin Hx. induction s as [|c r IH]; simpl in *; [tauto|].
  destruct (isWhiteSpace c) eqn:Hc; simpl; [|tauto].
  destruct Hin as [->|Hin]; [congruence|auto].
Qed.

Lemma In_trim_keep (x : N) s :
  In x s -> isWhiteSpace x = false -> In x (trim s).
Proof.
  intros Hin Hx. unfold trim, trimEnd.
  apply in_rev. rewrite rev_involutive.
  apply In_trimStart_keep; [|assumption].
  apply in_rev. rewrite rev_involutive. now apply In_trimStart_keep.
Qed.

Lemma trimStart_no_whitespace s :
  forallb (fun c => negb (isWhiteSpace c)) s = true -> trimStart s = s.
Proof.
  destruct s as [|c r]; simpl; [reflexivity|].
  intros [Hc _]%andb_true_iff. apply negb_true_iff in Hc. now rewrite Hc.
Qed.

Lemma trim_no_whitespace s :
  forallb (fun c => negb (isWhiteSpace c)) s = true -> trim s = s.
Proof.
  intros H. unfold trim, trimEnd.
  rewrite (trimStart_no_whitespace s H), trimStart_no_whitespace.
  - apply rev_involutive.
  - rewrite forallb_forall in *. intros x Hx. apply H. now apply in_rev.
Qed.

(** *** Characters of an invoice number *)

Lemma isNumberChar_latin c : isNumberChar c = true -> isBasicLatin c = true.
Proof. numberclass. Qed.

Lemma isNumberChar_upperLatin c :
  isNumberChar c = true -> isNumberChar (upperLatin c) = true.
Proof.
  unfold upperLatin. destruct (inRange 97 122 c) eqn:E; [|auto].
  intros _. numberclass.
Qed.

Lemma isNumberChar_not_whitespace c :
  isNumberChar c = true -> isWhiteSpace c = false.
Proof.
  intros H. destruct (isWhiteSpace c) eqn:E; [|reflexivity]. exfalso.
  revert H E. numberclass.
Qed.

Lemma upperLatin_involutive c : upperLatin (upperLatin c) = upperLatin c.
Proof.
  unfold upperLatin. destruct (inRange 97 122 c) eqn:E; [|now rewrite E].
  destruct (inRange 97 122 (c - 32)) eqn:E'; [|reflexivity].
  exfalso. revert E E'. charclass.
Qed.

Lemma isDigit_upperLatin c : isDigit (upperLatin c) = isDigit c.
Proof.
  unfold upperLatin. destruct (inRange 97 122 c) eqn:E; [|reflexivity].
  destruct (isDigit c) eqn:D, (isDigit (c - 32)) eqn:D'; try reflexivity;
    exfalso; revert E D D'; charclass.
Qed.

Lemma isDigit_isNumberChar c : isDigit c = true -> isNumberChar c = true.
Proof. unfold isNumberChar, isWordChar. intros ->. now rewrite !orb_true_r. Qed.

Lemma isDigit_not_whitespace c : isDigit c = true -> isWhiteSpace c = false.
Proof. intros H. apply isNumberChar_not_whitespace. now apply isDigit_isNumberChar. Qed.

Section Facts.
Context {B : Builtins}.

(** The standardized form of a string, written with the ASCII case map. *)
Lemma standardizeInvoiceNumber_string s :
  standardizeInvoiceNumber (StringValue s)
  = map upperLatin (List.filter isNumberChar (trim s)).
Proof.
  unfold standardizeInvoiceNumber. destruct s as [|c r]; [reflexivity|].
  cbn [nonEmpty negb]. apply toUpperCase_latin.
  apply forallb_forall. intros x [_ Hx]%filter_In. now apply isNumberChar_latin.
Qed.

Lemma standardizeInvoiceNumber_chars s c :
  In c (standardizeInvoiceNumber (StringValue s)) ->
  isNumberChar c = true /\ upperLatin c = c.
Proof.
  rewrite standardizeInvoiceNumber_string. intros (x & <- & Hx)%in_map_iff.
  apply filter_In in Hx as [_ Hx]. split.
  - now apply isNumberChar_upperLatin.
  - apply upperLatin_involutive.
Qed.

(** X1.  Standardizing an invoice number twice gives what standardizing it
    once gives, for every string and whatever the Unicode case mapping does
    outside Basic Latin: the first pass leaves only Basic Latin. *)
Theorem standardizeInvoiceNumber_idempotent (s : jsstring) :
  standardizeInvoiceNumber (StringValue (standardizeInvoiceNumber (StringValue s)))
  = standardizeInvoiceNumber (StringValue s).
Proof.
  pose proof (standardizeInvoiceNumber_chars s) as Hchars.
  set (once := standardizeInvoiceNumber (StringValue s)) in *.
  rewrite (standardizeInvoiceNumber_string once).
  rewrite trim_no_whitespace.
  - rewrite forallb_filter_id.
    + rewrite <- (map_id once) at 2. apply map_ext_in.
      intros c Hc. now destruct (Hchars c Hc).
    + apply forallb_forall. intros c Hc. now destruct (Hchars c Hc).
  - apply forallb_forall. intros c Hc. apply negb_true_iff.
    apply isNumberChar_not_whitespace. now destruct (Hchars c Hc).
Qed.

(** X2.  A standardized invoice number is made of uppercase Basic Latin
    letters, digits, underscores, periods and hyphens only. *)
Theorem standardizeInvoiceNumber_alphabet (s : jsstring) :
  forallb (fun c => isUpper c || isDigit c
                    || (c =? 95)%N || (c =? 46)%N || (c =? 45)%N)
          (standardizeInvoiceNumber (StringValue s)) = true.
Proof.
  apply forallb_forall. intros c Hc.
  destruct (standardizeInvoiceNumber_chars s c Hc) as [Hnum Hup].
  revert Hnum Hup. unfold upperLatin.
  destruct (inRange 97 122 c) eqn:E.
  - intros _ Hup. exfalso. revert E Hup. charclass.
  - intros Hnum _. revert E Hnum. numberclass.
Qed.

(** X3.  An invoice number given as a string is valid exactly when it
    contains a digit: the digits survive the trimming, the stripping and
    the case mapping, and a number with a digit is not empty. *)
Theorem validateInvoiceNumber_iff_digit (s : jsstring) :
  validateInvoiceNumber (StringValue s) = existsb isDigit s.
Proof.
  unfold validateInvoiceNumber. rewrite standardizeInvoiceNumber_string.
  set (kept := List.filter isNumberChar (trim s)).
  assert (Hiff : existsb isDigit (map upperLatin kept) = existsb isDigit s).
  { apply eq_true_iff_eq. rewrite !existsb_exists. split.
    - intros (c & (x & <- & Hx)%in_map_iff & Hc).
      rewrite isDigit_upperLatin in Hc.
      apply filter_In in Hx as [Hx _]. exists x. split; [now apply In_trim|assumption].
    - intros (c & Hin & Hc). exists (upperLatin c). split.
      + apply in_map. apply filter_In. split.
        * apply In_trim_keep; [assumption|]. now apply isDigit_not_whitespace.
        * now apply isDigit_isNumberChar.
      + now rewrite isDigit_upperLatin. }
  rewrite Hiff. destruct (existsb isDigit s) eqn:Hd; [|apply andb_false_r].
  rewrite andb_true_r. rewrite <- Hiff in Hd.
  destruct (map upperLatin kept); [discriminate|reflexivity].
Qed.

End Facts.

(** *** The distance matrix *)

Lemma forUpTo_invariant {State} (P : nat -> State -> Prop)
  (body : nat -> State -> State) (count from : nat) (s : State) :
  P from s ->
  (forall k s', from <= k < from + count -> P k s' -> P (S k) (body k s')) ->
  P (from + count) (forUpTo count from body s).
Proof.
  revert from s. induction count as [|count IH]; intros from s H0 Hstep; simpl.
  - now rewrite Nat.add_0_r.
  - replace (from + S count) with (S from + count) by lia.
    apply IH.
    + apply Hstep; [lia|assumption].
    + intros k s' Hk. apply Hstep. lia.
Qed.

Lemma wellFormed_newMatrix rows columns :
  wellFormed rows columns (newMatrix rows columns).
Proof.
  split; [apply length_replicate|].
  apply Forall_forall. intros row Hrow%elem_of_replicate.
  destruct Hrow as [-> _]. apply length_replicate.
Qed.

Lemma wellFormed_setCell rows columns matrix j i value :
  wellFormed rows columns matrix -> wellFormed rows columns (setCell matrix j i value).
Proof.
  intros [Hlen Hrows]. split; unfold setCell.
  - now rewrite length_alter.
  - apply Forall_alter; [assumption|]. intros row _ Hrow. now rewrite length_insert.
Qed.

Lemma cell_setCell rows columns matrix j i value j' i' :
  wellFormed rows columns matrix -> j < rows -> i < columns ->
  cell (setCell matrix j i value) j' i'
  = if bool_decide (j' = j /\ i' = i) then value else cell matrix j' i'.
Proof.
  intros [Hlen Hrows] Hj Hi. unfold cell, setCell.
  destruct (decide (j' = j)) as [->|Hne].
  - rewrite list_lookup_alter_eq.
    destruct (lookup_lt_is_Some_2 matrix j) as [row Hrow]; [lia|].
    rewrite Hrow. cbn.
    assert (length row = columns) as Hcols.
    { rewrite Forall_forall in Hrows. apply Hrows. eapply list_elem_of_lookup_2, Hrow. }
    destruct (decide (i' = i)) as [->|Hne].
    + rewrite list_lookup_insert_eq by lia. now rewrite bool_decide_eq_true_2.
    + rewrite list_lookup_insert_ne by congruence.
      rewrite bool_decide_eq_false_2; [reflexivity|]. tauto.
  - rewrite list_lookup_alter_ne by congruence.
    rewrite bool_decide_eq_false_2; [reflexivity|]. tauto.
Qed.

Lemma editDistance_row0 str1 str2 i : editDistance str1 str2 0 i = i.
Proof. reflexivity. Qed.

Lemma editDistance_column0 str1 str2 j : editDistance str1 str2 j 0 = j.
Proof. now destruct j. Qed.

Lemma editDistance_step str1 str2 j i :
  editDistance str1 str2 (S j) (S i)
  = Nat.min (Nat.min (editDistance str1 str2 (S j) i + 1)
                     (editDistance str1 str2 j (S i) + 1))
            (editDistance str1 str2 j i
             + (if bool_decide (str1 !! i = str2 !! j) then 0 else 1)).
Proof. reflexivity. Qed.

(** The matrix loops compute the recurrence. *)
Lemma levenshteinDistance_editDistance str1 str2 :
  levenshteinDistance str1 str2
  = editDistance str1 str2 (length str2) (length str1).
Proof.
  unfold levenshteinDistance.
  set (n1 := length str1). set (n2 := length str2).
  set (m0 := newMatrix (n2 + 1) (n1 + 1)).
  (* the first row *)
  set (m1 := forUpTo (n1 + 1) 0 _ m0).
  assert (H1 : wellFormed (n2 + 1) (n1 + 1) m1
               /\ forall i, i < 0 + (n1 + 1) -> cell m1 0 i = i).
  { subst m1.
    apply (forUpTo_invariant
             (fun k m => wellFormed (n2 + 1) (n1 + 1) m
                         /\ forall i, i < k -> cell m 0 i = i)).
    - split; [apply wellFormed_newMatrix|]. intros i Hi. lia.
    - intros k m Hk [Hwf Hrow]. split; [now apply wellFormed_setCell|].
      intros i Hi. rewrite (cell_setCell _ _ _ _ _ _ _ _ Hwf) by lia.
      case_bool_decide as Hd; [lia|]. apply Hrow. lia. }
  destruct H1 as [Hwf1 Hrow1].
  (* the first column *)
  set (m2 := forUpTo (n2 + 1) 0 _ m1).
  assert (H2 : wellFormed (n2 + 1) (n1 + 1) m2
               /\ (forall i, i <= n1 -> cell m2 0 i = i)
               /\ forall j, j < 0 + (n2 + 1) -> cell m2 j 0 = j).
  { subst m2.
    apply (forUpTo_invariant
             (fun k m => wellFormed (n2 + 1) (n1 + 1) m
                         /\ (forall i, i <= n1 -> cell m 0 i = i)
                         /\ forall j, j < k -> cell m j 0 = j)).
    - split; [assumption|]. split; [|intros j Hj; lia].
      intros i Hi. apply Hrow1. lia.
    - intros k m Hk (Hwf & Hrow & Hcol). split; [now apply wellFormed_setCell|]. split.
      + intros i Hi. rewrite (cell_setCell _ _ _ _ _ _ _ _ Hwf) by lia.
        case_bool_decide as Hd; [lia|]. now apply Hrow.
      + intros j Hj. rewrite (cell_setCell _ _ _ _ _ _ _ _ Hwf) by lia.
        case_bool_decide as Hd; [lia|]. apply Hcol. lia. }
  destruct H2 as (Hwf2 & Hrow2 & Hcol2).
  (* the remaining cells, row by row *)
  set (m3 := forUpTo n2 1 _ m2).
  assert (H3 : filled str1 str2 (1 + n2) 1 m3).
  { subst m3.
    apply (forUpTo_invariant (fun J m => filled str1 str2 J 1 m)).
    - split; [assumption|]. intros j i Hj Hi Hdone.
      assert (j = 0 \/ i = 0) as [->| ->] by lia.
      + rewrite editDistance_row0. now apply Hrow2.
      + rewrite editDistance_column0. apply Hcol2. fold n2 in Hj. lia.
    - intros J m HJ Hfilled.
      assert (Hinner : filled str1 str2 J (1 + n1)
                (forUpTo n1 1
                   (fun i matrix =>
                      let indicator :=
                        if bool_decide (str1 !! (i - 1) = str2 !! (J - 1)) then 0 else 1 in
                      setCell matrix J i
                        (Nat.min (Nat.min (cell matrix J (i - 1) + 1)
                                          (cell matrix (J - 1) i + 1))
                                 (cell matrix (J - 1) (i - 1) + indicator))) m)).
      { apply (forUpTo_invariant (fun I m => filled str1 str2 J I m)); [assumption|].
        intros I m' HI [Hwf Hcells]. split; [now apply wellFormed_setCell|].
        intros j i Hj Hi Hdone. fold n1 in Hi. fold n2 in Hj.
        rewrite (cell_setCell _ _ _ _ _ _ _ _ Hwf) by lia.
        case_bool_decide as Hd.
        - destruct Hd as [-> ->].
          destruct J as [|J']; [lia|]. destruct I as [|I']; [lia|].
          rewrite editDistance_step. cbn zeta.
          replace (S I' - 1) with I' by lia. replace (S J' - 1) with J' by lia.
          rewrite !Hcells by (fold n1; fold n2; lia). reflexivity.
        - apply Hcells; [fold n2; lia|fold n1; lia|].
          destruct (decide (j = J)); destruct (decide (i = I)); try lia; tauto. }
      destruct Hinner as [Hwf Hcells]. split; [assumption|].
      intros j i Hj Hi Hdone. apply Hcells; [assumption..|].
      fold n1 in Hi. lia. }
  destruct H3 as [_ Hcells]. apply Hcells; fold n1; fold n2; lia.
Qed.

(** *** The recurrence *)

Lemma editDistance_bounds str1 str2 j i :
  Nat.max j i - Nat.min j i <= editDistance str1 str2 j i <= Nat.max j i.
Proof.
  revert i. induction j as [|j IHj]; intros i.
  - rewrite editDistance_row0. lia.
  - induction i as [|i IHi].
    + rewrite editDistance_column0. lia.
    + rewrite editDistance_step.
      pose proof (IHj i). pose proof (IHj (S i)).
      destruct (bool_decide (str1 !! i = str2 !! j)); lia.
Qed.

Lemma editDistance_same str i : editDistance str str i i = 0.
Proof.
  induction i as [|i IH]; [reflexivity|].
  rewrite editDistance_step, IH, bool_decide_eq_true_2 by reflexivity. lia.
Qed.

Lemma editDistance_zero str1 str2 j i :
  j <= length str2 -> i <= length str1 ->
  editDistance str1 str2 j i = 0 -> j = i /\ take i str1 = take j str2.
Proof.
  revert i. induction j as [|j IHj]; intros i Hj Hi H0.
  - rewrite editDistance_row0 in H0. now subst.
  - destruct i as [|i]; [now rewrite editDistance_column0 in H0|].
    rewrite editDistance_step in H0.
    case_bool_decide as Heq; [|lia].
    destruct (IHj i) as [-> Htake]; [lia..|].
    split; [reflexivity|].
    destruct (lookup_lt_is_Some_2 str1 i) as [x Hx]; [lia|].
    rewrite (take_S_r str1 i x Hx), (take_S_r str2 i x) by congruence.
    now rewrite Htake.
Qed.

Lemma editDistance_swap str1 str2 j i :
  editDistance str1 str2 j i = editDistance str2 str1 i j.
Proof.
  revert i. induction j as [|j IHj]; intros i.
  - now rewrite editDistance_row0, editDistance_column0.
  - induction i as [|i IHi].
    + now rewrite editDistance_row0, editDistance_column0.
    + rewrite !editDistance_step, IHi, !IHj.
      replace (bool_decide (str2 !! j = str1 !! i))
        with (bool_decide (str1 !! i = str2 !! j)).
      * lia.
      * apply bool_decide_ext. split; congruence.
Qed.

(** X4.  The distance is zero exactly for equal strings. *)
Theorem levenshteinDistance_zero_iff (str1 str2 : jsstring) :
  levenshteinDistance str1 str2 = 0 <-> str1 = str2.
Proof.
  rewrite levenshteinDistance_editDistance. split.
  - intros H0. apply editDistance_zero in H0 as [Hlen Htake]; [|lia..].
    rewrite <- (firstn_all str1), <- (firstn_all str2). exact Htake.
  - intros ->. apply editDistance_same.
Qed.

(** X5.  The distance lies between the difference of the lengths and the
    greater length. *)
Theorem levenshteinDistance_bounds (str1 str2 : jsstring) :
  Nat.max (length str1) (length str2) - Nat.min (length str1) (length str2)
  <= levenshteinDistance str1 str2
  <= Nat.max (length str1) (length str2).
Proof.
  rewrite levenshteinDistance_editDistance.
  pose proof (editDistance_bounds str1 str2 (length str2) (length str1)). lia.
Qed.

(** X6.  The distance does not depend on the order of its arguments. *)
Theorem levenshteinDistance_symmetric (str1 str2 : jsstring) :
  levenshteinDistance str1 str2 = levenshteinDistance str2 str1.
Proof. rewrite !levenshteinDistance_editDistance. apply editDistance_swap. Qed.

(** *** Maps in insertion order *)

Lemma mapGet_mapSet {V} (key key' : jsstring) (value : V) (m : JsMap V) :
  mapGet key (mapSet key' value m)
  = if bool_decide (key = key') then Some value else mapGet key m.
Proof.
  unfold mapGet. induction m as [|[k v] rest IH]; simpl.
  - repeat case_bool_decide; simpl; congruence.
  - repeat (case_bool_decide; simpl); try congruence.
Qed.

Lemma mapGet_mapUpdate {V} (key key' : jsstring) (f : V -> V) (m : JsMap V) :
  mapGet key (mapUpdate key' f m)
  = if bool_decide (key = key') then f <$> mapGet key m else mapGet key m.
Proof.
  unfold mapGet. induction m as [|[k v] rest IH]; simpl.
  - now case_bool_decide.
  - repeat (case_bool_decide; simpl); try congruence.
Qed.

Lemma mapGet_In {V} (key : jsstring) (value : V) (m : JsMap V) :
  NoDup (map fst m) -> In (key, value) m -> mapGet key m = Some value.
Proof.
  unfold mapGet. induction m as [|[k v] rest IH]; simpl; [tauto|].
  intros Hnodup%NoDup_cons [Heq|Hin].
  - inversion Heq; subst. now rewrite bool_decide_eq_true_2.
  - destruct Hnodup as [Hk Hrest]. case_bool_decide as Hd; simpl in *.
    + subst k. exfalso. apply Hk. apply list_elem_of_In.
      now apply (in_map fst) in Hin.
    + auto.
Qed.

Lemma keys_mapUpdate {V} (key : jsstring) (f : V -> V) (m : JsMap V) :
  map fst (mapUpdate key f m) = map fst m.
Proof.
  induction m as [|[k v] rest IH]; simpl; [reflexivity|].
  case_bool_decide; simpl; congruence.
Qed.

Lemma addToGroup_nil standard vendor :
  addToGroup standard vendor [] = [(standard, [vendor])].
Proof. unfold addToGroup. cbn. now rewrite bool_decide_eq_true_2. Qed.

Lemma addToGroup_cons standard vendor k names rest :
  addToGroup standard vendor ((k, names) :: rest)
  = if bool_decide (k = standard) then (k, names ++ [vendor]) :: rest
    else (k, names) :: addToGroup standard vendor rest.
Proof.
  unfold addToGroup, mapHas, mapGet. cbn.
  destruct (decide (k = standard)) as [->|Hne].
  - repeat (rewrite !(bool_decide_eq_true_2 (standard = standard)) by reflexivity; cbn).
    reflexivity.
  - rewrite !(bool_decide_eq_false_2 (k = standard)) by assumption.
    destruct (bool_decide (is_Some (snd <$> List.find _ rest))); cbn;
      now rewrite bool_decide_eq_false_2.
Qed.

Lemma keys_addToGroup standard vendor groups :
  map fst (addToGroup standard vendor groups)
  = if bool_decide (standard ∈ map fst groups) then map fst groups
    else map fst groups ++ [standard].
Proof.
  induction groups as [|[k names] rest IH].
  - rewrite addToGroup_nil. now rewrite bool_decide_eq_false_2 by apply not_elem_of_nil.
  - rewrite addToGroup_cons. cbn [map fst].
    destruct (decide (k = standard)) as [->|Hne].
    + rewrite bool_decide_eq_true_2 by reflexivity.
      rewrite bool_decide_eq_true_2 by apply list_elem_of_here. reflexivity.
    + rewrite bool_decide_eq_false_2 by assumption. cbn [map fst]. rewrite IH.
      destruct (decide (standard ∈ map fst rest)) as [Hin|Hout].
      * rewrite !bool_decide_eq_true_2; [reflexivity|now apply list_elem_of_further|assumption].
      * rewrite !bool_decide_eq_false_2; [reflexivity| |assumption].
        rewrite elem_of_cons. intuition congruence.
Qed.

Lemma mapGet_addToGroup standard vendor groups key :
  mapGet key (addToGroup standard vendor groups)
  = if bool_decide (key = standard)
    then Some (default [] (mapGet key groups) ++ [vendor])
    else mapGet key groups.
Proof.
  induction groups as [|[k names] rest IH].
  - rewrite addToGroup_nil. unfold mapGet. cbn.
    destruct (decide (key = standard)) as [->|Hne].
    + now rewrite !bool_decide_eq_true_2.
    + rewrite !bool_decide_eq_false_2 by congruence. reflexivity.
  - rewrite addToGroup_cons.
    destruct (decide (k = standard)) as [->|Hk].
    + rewrite bool_decide_eq_true_2 by reflexivity. unfold mapGet. cbn.
      destruct (decide (key = standard)) as [->|Hne].
      * now rewrite !bool_decide_eq_true_2.
      * rewrite !bool_decide_eq_false_2 by congruence. reflexivity.
    + rewrite bool_decide_eq_false_2 by assumption.
      unfold mapGet in *. cbn.
      destruct (decide (k = key)) as [->|Hne].
      * rewrite bool_decide_eq_true_2 by reflexivity. cbn.
        rewrite bool_decide_eq_false_2 by congruence. reflexivity.
      * rewrite bool_decide_eq_false_2 by assumption. apply IH.
Qed.

Lemma concat_addToGroup standard vendor groups :
  Permutation (concat (map snd (addToGroup standard vendor groups)))
              (concat (map snd groups) ++ [vendor]).
Proof.
  induction groups as [|[k names] rest IH].
  - now rewrite addToGroup_nil.
  - rewrite addToGroup_cons. case_bool_decide; cbn.
    + rewrite <- !app_assoc. apply Permutation_app_head.
      apply Permutation_app_comm.
    + rewrite IH. now rewrite app_assoc.
Qed.

(** *** Sorting *)

Lemma insertSorted_Permutation {A} (before : A -> A -> bool) x (l : list A) :
  Permutation (insertSorted before x l) (x :: l).
Proof.
  induction l as [|y rest IH]; simpl; [reflexivity|].
  destruct (before x y); [reflexivity|].
  rewrite IH. apply perm_swap.
Qed.

Lemma sortBy_Permutation {A} (before : A -> A -> bool) (l : list A) :
  Permutation (sortBy before l) l.
Proof.
  unfold sortBy.
  assert (H : forall acc,
            Permutation (fold_left (fun sorted x => insertSorted before x sorted) l acc)
                        (acc ++ l)).
  { induction l as [|x rest IH]; intros acc; simpl.
    - now rewrite app_nil_r.
    - rewrite IH, insertSorted_Permutation. apply Permutation_middle. }
  apply H.
Qed.

Lemma insertSorted_Sorted {A} (before : A -> A -> bool) (R : A -> A -> Prop) x (l : list A) :
  (forall a b, before a b = true -> R a b) ->
  (forall a b, before a b = false -> R b a) ->
  Sorted R l -> Sorted R (insertSorted before x l).
Proof.
  intros Hlt Hge. induction l as [|y rest IH]; simpl; intros Hs.
  - repeat constructor.
  - destruct (before x y) eqn:E.
    + constructor; [assumption|]. constructor. auto.
    + apply Sorted_inv in Hs as [Hrest Hhd]. constructor; [auto|].
      destruct rest as [|z rest']; simpl.
      * constructor. auto.
      * destruct (before x z) eqn:E'; constructor; auto.
        now apply HdRel_inv in Hhd.
Qed.

Lemma sortBy_Sorted {A} (before : A -> A -> bool) (R : A -> A -> Prop) (l : list A) :
  (forall a b, before a b = true -> R a b) ->
  (forall a b, before a b = false -> R b a) ->
  Sorted R (sortBy before l).
Proof.
  intros Hlt Hge. unfold sortBy.
  assert (H : forall acc, Sorted R acc ->
            Sorted R (fold_left (fun sorted x => insertSorted before x sorted) l acc)).
  { induction l as [|x rest IH]; intros acc Hacc; simpl; [assumption|].
    apply IH. now apply insertSorted_Sorted. }
  apply H. constructor.
Qed.

(** *** Substrings *)

Lemma startsWith_app needle hay rest :
  Forwarder.startsWith needle hay = true ->
  Forwarder.startsWith needle (hay ++ rest) = true.
Proof.
  revert hay. induction needle as [|a needle IH]; intros hay; [reflexivity|].
  destruct hay as [|b hay]; simpl; [discriminate|].
  intros [Hab H]%andb_true_iff. rewrite Hab. simpl. auto.
Qed.

Lemma includes_app needle hay rest :
  Forwarder.includes needle hay = true ->
  Forwarder.includes needle (hay ++ rest) = true.
Proof.
  induction hay as [|b hay IH]; simpl.
  - rewrite orb_false_r. intros H. destruct needle; [|discriminate].
    destruct rest; reflexivity.
  - intros [H|H]%orb_true_iff.
    + apply orb_true_iff. left. now apply (startsWith_app needle (b :: hay)).
    + apply orb_true_iff. right. auto.
Qed.

Lemma lowerLatin_latin c : isBasicLatin c = true -> isBasicLatin (lowerLatin c) = true.
Proof.
  unfold lowerLatin. destruct (inRange 65 90 c) eqn:E; [|auto]. revert E. charclass.
Qed.

Section MoreFacts.
Context {B : Builtins}.

(** *** Similarity *)

Lemma calculateVendorSimilarity_facts (name1 name2 : option jsstring) :
  let similarity := calculateVendorSimilarity name1 name2 in
  (0 <= similarity <= 1)%Q
  /\ ((similarity == 1)%Q
      <-> standardizeVendorName name1 = standardizeVendorName name2)
  /\ calculateVendorSimilarity name2 name1 = similarity.
Proof.
  unfold calculateVendorSimilarity.
  set (std1 := standardizeVendorName name1). set (std2 := standardizeVendorName name2).
  case_bool_decide as Heq.
  - rewrite bool_decide_eq_true_2 by congruence. repeat split; try easy.
  - rewrite (bool_decide_eq_false_2 (std2 = std1)) by congruence.
    rewrite !levenshteinDistance_editDistance.
    rewrite (editDistance_swap std2 std1), (Nat.max_comm (length std2)).
    pose proof (editDistance_bounds std1 std2 (length std2) (length std1)) as [_ Hup].
    assert (Hpos : 0 < editDistance std1 std2 (length std2) (length std1)).
    { destruct (editDistance std1 std2 (length std2) (length std1)) eqn:Hd; [|lia].
      exfalso. apply Heq.
      apply editDistance_zero in Hd as [_ Htake]; [|lia..].
      now rewrite <- (firstn_all std1), <- (firstn_all std2). }
    set (distance := editDistance std1 std2 (length std2) (length std1)) in *.
    set (maxLength := Nat.max (length std1) (length std2)) in *.
    rewrite (Nat.max_comm (length std2)) in Hup. fold maxLength in Hup.
    destruct (maxLength =? 0) eqn:Hmax; [apply Nat.eqb_eq in Hmax; lia|].
    cbn zeta.
    assert (Hd : (0 < inject_Z (Z.of_nat distance))%Q).
    { unfold Qlt. simpl. lia. }
    assert (Hm : (0 < inject_Z (Z.of_nat maxLength))%Q).
    { unfold Qlt. simpl. lia. }
    assert (Hle : (inject_Z (Z.of_nat distance) <= inject_Z (Z.of_nat maxLength))%Q).
    { rewrite <- Zle_Qle. lia. }
    set (d := inject_Z (Z.of_nat distance)) in *.
    set (m := inject_Z (Z.of_nat maxLength)) in *.
    assert (Hq : (0 < d / m <= 1)%Q).
    { split.
      - apply Qlt_shift_div_l; [assumption|]. lra.
      - apply Qle_shift_div_r; [assumption|]. lra. }
    set (x := (d / m)%Q) in *. clearbody x.
    repeat split; try lra; try congruence.
Qed.

(** *** Grouping *)

Lemma standardizeAll_get (vendors : list jsstring) (vendor : jsstring) :
  In vendor vendors ->
  mapGet vendor (standardizeAll vendors) = Some (standardizeVendorName (Some vendor)).
Proof.
  unfold standardizeAll.
  assert (H : forall m,
    (In vendor vendors \/ mapGet vendor m = Some (standardizeVendorName (Some vendor))) ->
    mapGet vendor
      (fold_left (fun standardized v =>
                    mapSet v (standardizeVendorName (Some v)) standardized) vendors m)
    = Some (standardizeVendorName (Some vendor))).
  { induction vendors as [|v rest IH]; intros m Hcase; simpl.
    - destruct Hcase as [[]|H]. exact H.
    - apply IH. rewrite mapGet_mapSet. case_bool_decide as Hv.
      + subst. now right.
      + destruct Hcase as [[Hin|Hin]|Hm]; [congruence|now left|now right]. }
  intros Hin. apply H. now left.
Qed.

Lemma groupStep_vendor (vendors : list jsstring) groups vendor :
  In vendor vendors ->
  groupStep (standardizeAll vendors) groups vendor
  = addToGroup (standardizeVendorName (Some vendor)) vendor groups.
Proof. intros Hin. unfold groupStep. now rewrite standardizeAll_get. Qed.

Lemma groupSimilarVendors_facts (vendors : list jsstring) :
  let groups := groupSimilarVendors vendors in
  NoDup (map fst groups)
  /\ (forall standard,
        mapGet standard groups
        = match List.filter (fun vendor =>
                   bool_decide (standardizeVendorName (Some vendor) = standard)) vendors with
          | [] => None
          | names => Some names
          end)
  /\ Permutation (concat (map snd groups)) vendors.
Proof.
  unfold groupSimilarVendors.
  set (inv := fun (done : list jsstring) (groups : JsMap (list jsstring)) =>
    NoDup (map fst groups)
    /\ (forall standard,
          mapGet standard groups
          = match List.filter (fun vendor =>
                     bool_decide (standardizeVendorName (Some vendor) = standard)) done with
            | [] => None
            | names => Some names
            end)
    /\ Permutation (concat (map snd groups)) done).
  assert (H : forall todo done groups,
    (forall vendor, In vendor todo -> In vendor vendors) ->
    inv done groups ->
    inv (done ++ todo) (fold_left (groupStep (standardizeAll vendors)) todo groups)).
  { induction todo as [|vendor todo IH]; intros done groups Hsub Hinv; simpl.
    - now rewrite app_nil_r.
    - replace (done ++ vendor :: todo) with ((done ++ [vendor]) ++ todo)
        by now rewrite <- app_assoc.
      apply IH; [intros v Hv; apply Hsub; now right|].
      rewrite (groupStep_vendor vendors) by (apply Hsub; now left).
      destruct Hinv as (Hnodup & Hget & Hperm).
      set (standard := standardizeVendorName (Some vendor)).
      repeat split.
      + rewrite keys_addToGroup. case_bool_decide as Hk; [assumption|].
        apply NoDup_app. repeat split; [assumption| |apply NoDup_singleton].
        intros x Hx ->%list_elem_of_singleton. now apply Hk.
      + intros key. rewrite mapGet_addToGroup, Hget.
        rewrite List.filter_app. cbn [List.filter].
        fold standard. case_bool_decide as Hkey.
        * subst key. rewrite bool_decide_eq_true_2 by reflexivity.
          destruct (List.filter _ done); reflexivity.
        * rewrite bool_decide_eq_false_2 by congruence. now rewrite app_nil_r.
      + now rewrite concat_addToGroup, Hperm. }
  specialize (H vendors [] []). cbn [app] in H.
  apply H; [auto|].
  split; [apply NoDup_nil_2|]. split; [reflexivity|]. cbn. reflexivity.
Qed.

(** X8.  The groups partition the input: the keys are distinct; the group
    under a key holds exactly the vendors that standardize to the key, in
    input order, and is not empty; the groups together hold every vendor
    once per occurrence. *)
Theorem groupSimilarVendors_partition (vendors : list jsstring) :
  let groups := groupSimilarVendors vendors in
  NoDup (map fst groups)
  /\ Forall (fun '(standard, names) =>
               names <> []
               /\ names = List.filter (fun vendor =>
                            bool_decide (standardizeVendorName (Some vendor) = standard))
                            vendors)
            groups
  /\ Permutation (concat (map snd groups)) vendors.
Proof.
  destruct (groupSimilarVendors_facts vendors) as (Hnodup & Hget & Hperm).
  cbn zeta. split; [assumption|]. split; [|assumption].
  apply Forall_forall. intros [standard names] Hin%list_elem_of_In.
  apply (mapGet_In _ _ _ Hnodup) in Hin. rewrite Hget in Hin.
  destruct (List.filter _ vendors) eqn:Hf; [discriminate|].
  inversion Hin; subst. split; [discriminate|reflexivity].
Qed.

(** X7.  The similarity of two names lies between 0 and 1, is 1 exactly
    when the names standardize to the same string, and does not depend on
    the order of the names. *)
Theorem calculateVendorSimilarity_range (name1 name2 : option jsstring) :
  let similarity := calculateVendorSimilarity name1 name2 in
  (0 <= similarity <= 1)%Q
  /\ ((similarity == 1)%Q
      <-> standardizeVendorName name1 = standardizeVendorName name2)
  /\ calculateVendorSimilarity name2 name1 = similarity.
Proof. apply calculateVendorSimilarity_facts. Qed.

(** X9.  The mapping report has one entry per input vendor; every entry
    pairs a vendor with its standardized name and a confidence between 0
    and 1, which is 1 exactly when standardizing the standardized name
    again changes nothing; the entries come in ascending confidence. *)
Theorem generateVendorMappingReport_entries (vendors : list jsstring) :
  let report := generateVendorMappingReport vendors in
  Permutation (map original report) vendors
  /\ Forall (fun entry =>
               standardized entry = standardizeVendorName (Some (original entry))
               /\ (0 <= confidence entry <= 1)%Q
               /\ ((confidence entry == 1)%Q
                   <-> standardizeVendorName (Some (standardized entry))
                       = standardized entry))
            report
  /\ Sorted (fun a b => (confidence a <= confidence b)%Q) report.
Proof.
  unfold generateVendorMappingReport.
  destruct (groupSimilarVendors_facts vendors) as (Hnodup & Hget & Hperm).
  set (groups := groupSimilarVendors vendors) in *.
  set (entriesOf := fun '(standardized, originalNames) => map _ originalNames).
  set (unsorted := flat_map entriesOf groups).
  assert (Horiginal : map original unsorted = concat (map snd groups)).
  { subst unsorted. clear. induction groups as [|[k names] rest IH]; [reflexivity|].
    cbn [flat_map map concat snd]. rewrite map_app, IH. f_equal.
    subst entriesOf. cbn. rewrite map_map. cbn. apply map_id. }
  cbn zeta. split; [|split].
  - rewrite sortBy_Permutation, Horiginal. exact Hperm.
  - apply Forall_forall. intros entry Hentry%list_elem_of_In.
    apply (Permutation_in (l' := unsorted)) in Hentry;
      [|apply sortBy_Permutation].
    apply in_flat_map in Hentry as ([k names] & Hgroup & Hentry).
    subst entriesOf. cbn in Hentry. apply in_map_iff in Hentry as (name & <- & Hname).
    cbn [original standardized confidence].
    apply (mapGet_In _ _ _ Hnodup) in Hgroup. rewrite Hget in Hgroup.
    assert (Hk : standardizeVendorName (Some name) = k).
    { destruct (List.filter _ vendors) eqn:Hf; [discriminate|].
      inversion Hgroup; subst names. rewrite <- Hf in Hname.
      apply filter_In in Hname as [_ Hname]. now apply bool_decide_eq_true in Hname. }
    destruct (calculateVendorSimilarity_facts (Some name) (Some k)) as (Hrange & Hone & _).
    split; [now rewrite Hk|]. split; [exact Hrange|].
    rewrite Hone, Hk. split; congruence.
  - apply sortBy_Sorted.
    + intros a b. unfold lessConfident.
      destruct (confidence a ?= confidence b)%Q eqn:E; try discriminate.
      intros _. apply Qlt_le_weak. now apply Qlt_alt.
    + intros a b. unfold lessConfident.
      destruct (confidence a ?= confidence b)%Q eqn:E; try discriminate; intros _.
      * apply Qeq_alt in E. rewrite E. apply Qle_refl.
      * apply Qlt_le_weak. now apply Qgt_alt.
Qed.

(** *** Searching by number *)

Lemma standardizeInvoiceNumber_latin s :
  forallb isBasicLatin (standardizeInvoiceNumber (StringValue s)) = true.
Proof.
  apply forallb_forall. intros c Hc. apply isNumberChar_latin.
  now destruct (standardizeInvoiceNumber_chars s c Hc).
Qed.

Lemma forallb_join (P : N -> bool) (separator : jsstring) (parts : list jsstring) :
  forallb P separator = true ->
  Forall (fun part => forallb P part = true) parts ->
  forallb P (join separator parts) = true.
Proof.
  intros Hsep Hparts. destruct Hparts as [|first rest Hfirst Hrest]; [reflexivity|].
  unfold join. rewrite forallb_app, Hfirst. cbn [andb].
  induction Hrest as [|part rest Hpart Hrest IH]; [reflexivity|].
  cbn [map concat]. now rewrite !forallb_app, Hsep, Hpart, IH.
Qed.

Lemma searchable_lowercase s :
  exists rest,
    toLowerCase (createSearchableInvoiceNumber (StringValue s))
    = toLowerCase (standardizeInvoiceNumber (StringValue s)) ++ rest.
Proof.
  pose proof (standardizeInvoiceNumber_latin s) as Hlatin.
  unfold createSearchableInvoiceNumber.
  set (std := standardizeInvoiceNumber (StringValue s)) in *. clearbody std.
  rewrite (toLowerCase_latin std Hlatin).
  rewrite toLowerCase_latin.
  - unfold join. rewrite map_app. eauto.
  - rewrite forallb_forall in Hlatin.
    apply forallb_join; [reflexivity|].
    repeat constructor; apply forallb_forall.
    + assumption.
    + intros c [Hc _]%filter_In. auto.
    + intros c (x & <- & Hx)%in_map_iff.
      destruct (isPeriodOrHyphen x); [reflexivity|auto].
    + intros c (x & <- & Hx)%in_map_iff. apply lowerLatin_latin. auto.
Qed.

(** X10.  An invoice is found by any part of its standardized number, in
    any letter case and with white space around: when the trimmed,
    lower-cased search term occurs in the lower-cased standardized number
    of an invoice of the list, the filter keeps that invoice. *)
Theorem filterInvoicesByNumber_finds {Rest} (invoices : list (InvoiceData Rest))
  (invoice : InvoiceData Rest) (s searchTerm : jsstring) :
  In invoice invoices ->
  invoiceNumber invoice = StringValue s ->
  Forwarder.includes (toLowerCase (trim searchTerm))
                     (toLowerCase (standardizeInvoiceNumber (StringValue s))) = true ->
  In invoice (filterInvoicesByNumber invoices searchTerm).
Proof.
  intros Hin Hnumber Hincl. unfold filterInvoicesByNumber.
  destruct (negb (nonEmpty searchTerm) || bool_decide (trim searchTerm = []));
    [assumption|].
  apply filter_In. split; [assumption|].
  rewrite Hnumber. destruct (searchable_lowercase s) as [rest ->].
  now apply includes_app.
Qed.

End MoreFacts.

Lemma filterInvoicesByNumber_finds_witness :
  In (invoiceRow " inv-7 " "Acme")
     (filterInvoicesByNumber (B := LatinBuiltins)
        [invoiceRow "K 9" "Globex"; invoiceRow " inv-7 " "Acme"] (js " Nv-7")).
Proof.
  apply (filterInvoicesByNumber_finds _ _ (js " inv-7 ")).
  - right. now left.
  - reflexivity.
  - reflexivity.
Defined.

(** *** The export for visualization *)

Lemma isSpecialChar_allowed c :
  isAllowed c = true -> isSpecialChar c = (c =? 38)%N.
Proof.
  intros H. destruct (isSpecialChar c) eqn:S, (c =? 38)%N eqn:E; try reflexivity;
    exfalso; revert H S E; numberclass.
Qed.

Section ExportFacts.
Context {B : Builtins}.

(** X11.  In the export every row carries the cleaned invoice; its
    [vendor_standardized] is the cleaned vendor name with its white space
    collapsed (the name goes through the normalizer a second time); it is
    flagged for special characters exactly when the cleaned name holds an
    ampersand; and for an invoice number given as a string,
    [invoice_number_standardized] is the cleaned number itself. *)
Theorem exportCleanedDataForVisualization_rows {Rest}
  (invoices : list (InvoiceData Rest)) :
  Forall2
    (fun invoice row =>
       let name := standardizeVendorName (vendor invoice) in
       cleaned row
       = {| invoiceNumber := StringValue (standardizeInvoiceNumber (invoiceNumber invoice));
            vendor := Some name;
            otherFields := otherFields invoice |}
       /\ vendor_standardized row = collapseWhitespace name
       /\ vendor_length row = length name
       /\ has_special_chars row = existsb (fun c => (c =? 38)%N) name
       /\ match invoiceNumber invoice with
          | StringValue s =>
              invoice_number_standardized row = standardizeInvoiceNumber (StringValue s)
          | _ => True
          end)
    invoices (exportCleanedDataForVisualization invoices).
Proof.
  unfold exportCleanedDataForVisualization, processInvoiceData.
  induction invoices as [|invoice rest IH]; [constructor|].
  cbn [map]. constructor; [|exact IH].
  cbn -[standardizeVendorName standardizeInvoiceNumber collapseWhitespace].
  destruct (NormalizerStability.standardizeVendorName_twice (vendor invoice))
    as [Htwice Hchars].
  split; [reflexivity|]. split; [exact Htwice|]. split; [reflexivity|]. split.
  - unfold vendorText.
    cbn -[standardizeVendorName standardizeInvoiceNumber].
    clear Htwice. revert Hchars.
    generalize (standardizeVendorName (vendor invoice)). intros name.
    induction name as [|c r IHr]; intros Hchars; [reflexivity|].
    cbn [existsb]. rewrite isSpecialChar_allowed by (apply Hchars; now left).
    f_equal. apply IHr. intros x Hx. apply Hchars. now right.
  - destruct (invoiceNumber invoice) as [rendering|s|]; [exact I| |exact I].
    set (once := standardizeInvoiceNumber (StringValue s)).
    pose proof (standardizeInvoiceNumber_chars s) as Hnum. fold once in Hnum.
    rewrite (standardizeInvoiceNumber_string once).
    rewrite trim_no_whitespace.
    + rewrite forallb_filter_id.
      * rewrite <- (map_id once) at 2. apply map_ext_in.
        intros c Hc. now destruct (Hnum c Hc).
      * apply forallb_forall. intros c Hc. now destruct (Hnum c Hc).
    + apply forallb_forall. intros c Hc. apply negb_true_iff.
      apply isNumberChar_not_whitespace. now destruct (Hnum c Hc).
Qed.

End ExportFacts.

End DataUtilsProofs.

(** ** The single-document route *)

Module SingleRouteProofs.
Import Orchestrator SingleRoute.

#[local] Arguments js : simpl never.
#[local] Arguments decimal : simpl never.
#[local] Arguments trim : simpl never.

Lemma nextResponseJson_accepted {env : Env} (code : N) (body : ResponseBody)
  (log : list Event) :
  inRange 200 599 code = true -> isNullBodyStatus code = false ->
  nextResponseJson env code body log
  = (Ok (Some {| http_status := code; http_body := body |}), log).
Proof. intros H1 H2. unfold nextResponseJson. now rewrite H1, H2. Qed.

Lemma nextResponseJson_cases (env : Env) (code : N) (body : ResponseBody)
  (log : list Event) :
  nextResponseJson env code body log
  = (Ok (Some {| http_status := code; http_body := body |}), log)
  \/ exists name,
       nextResponseJson env code body log
       = (Throw (JsError name (refusalMessage env)), log)
       /\ isAbortError (JsError name (refusalMessage env)) = false.
Proof.
  unfold nextResponseJson.
  destruct (inRange 200 599 code); cbn [negb].
  - destruct (isNullBodyStatus code); [right|left; reflexivity].
    eexists. split; reflexivity.
  - right. eexists. split; reflexivity.
Qed.

(** The outer [catch] always answers, and adds no event. *)
Lemma internalError_answers (env : Env) (error : Thrown) (log : list Event) :
  exists response,
    internalError env error log = (Ok (Some response), log)
    /\ http_status response <> 200%N.
Proof.
  unfold internalError. destruct error as [name message|rendering].
  - destruct (Forwarder.includes (js "fetch") message
              || Forwarder.includes (js "network") message);
      [|destruct (Forwarder.includes (js "timeout") message)];
      eexists; (split; [reflexivity|discriminate]).
  - eexists. split; [reflexivity|discriminate].
Qed.

(** *** The retry loop *)

Lemma failedProbes_S (url : jsstring) (failures : nat) :
  failedProbes url (S failures)
  = [HealthProbe url; Wait 5000] ++ failedProbes url failures.
Proof. reflexivity. Qed.

Lemma healthTurn_run (env : Env) (url : jsstring) (retryCount : nat)
  (healthResponse : option Response) (log : list Event) :
  let pause := if S retryCount <? maxRetries then [Wait 5000] else [] in
  healthTurn env url retryCount healthResponse log
  = match health env retryCount with
    | Ok response =>
        if ok response then (Ok (Break response), log ++ [HealthProbe url])
        else (Ok (Continue (S retryCount) (Some response)),
              log ++ [HealthProbe url] ++ pause)
    | Throw _ =>
        (Ok (Continue (S retryCount) healthResponse), log ++ [HealthProbe url] ++ pause)
    end.
Proof.
  unfold healthTurn, tryCatch, bind, emit, await, countAndPause, bind, ret.
  destruct (health env retryCount) as [response|error];
    [destruct (ok response)|]; try reflexivity;
    destruct (S retryCount <? maxRetries); cbn;
    now rewrite <- ?app_assoc, ?app_nil_r.
Qed.

Lemma firstHealthy_bound (env : Env) (count start attempt : nat) :
  firstHealthy env count start = Some attempt -> start <= attempt < start + count.
Proof.
  revert start. induction count as [|count IH]; intros start; [discriminate|].
  cbn. destruct (isHealthy env start); [intros [= <-]; lia|].
  intros H%IH. lia.
Qed.

Lemma healthLoop_run (env : Env) (url : jsstring) (fuel retryCount : nat)
  (healthResponse : option Response) (log : list Event) :
  maxRetries - retryCount <= fuel ->
  match healthResponse with Some response => ok response = false | None => True end ->
  match firstHealthy env (maxRetries - retryCount) retryCount with
  | Some attempt =>
      exists response,
        health env attempt = Ok response /\ ok response = true
        /\ healthLoop env url fuel retryCount healthResponse log
           = (Ok (Some (Some response)),
              log ++ failedProbes url (attempt - retryCount) ++ [HealthProbe url])
  | None =>
      exists last,
        match last with Some response => ok response = false | None => True end
        /\ healthLoop env url fuel retryCount healthResponse log
           = (Ok (Some last), log ++ exhaustedProbes url (maxRetries - retryCount))
  end.
Proof.
  revert retryCount healthResponse log.
  induction fuel as [|fuel IH]; intros retryCount healthResponse log Hfuel Hlast.
  - replace (maxRetries - retryCount) with 0 by lia. cbn [firstHealthy].
    exists healthResponse. split; [assumption|].
    cbn [healthLoop]. destruct (retryCount <? maxRetries) eqn:E.
    + apply Nat.ltb_lt in E. lia.
    + cbn. now rewrite app_nil_r.
  - cbn [healthLoop]. destruct (retryCount <? maxRetries) eqn:E.
    2:{ apply Nat.ltb_ge in E. replace (maxRetries - retryCount) with 0 by lia.
        cbn [firstHealthy]. exists healthResponse. split; [assumption|].
        cbn. now rewrite app_nil_r. }
    apply Nat.ltb_lt in E.
    destruct (maxRetries - retryCount) as [|remaining] eqn:Hremaining; [lia|].
    assert (Hnext : maxRetries - S retryCount = remaining) by lia.
    cbn [firstHealthy]. unfold isHealthy.
    unfold bind. rewrite !healthTurn_run. cbn zeta.
    assert (Hcontinue : forall hr,
      match hr with Some response => ok response = false | None => True end ->
      match firstHealthy env remaining (S retryCount) with
      | Some attempt =>
          exists response,
            health env attempt = Ok response /\ ok response = true
            /\ healthLoop env url fuel (S retryCount) hr
                 (log ++ [HealthProbe url]
                  ++ (if S retryCount <? maxRetries then [Wait 5000] else []))
               = (Ok (Some (Some response)),
                  log ++ failedProbes url (attempt - retryCount) ++ [HealthProbe url])
      | None =>
          exists last,
            match last with Some response => ok response = false | None => True end
            /\ healthLoop env url fuel (S retryCount) hr
                 (log ++ [HealthProbe url]
                  ++ (if S retryCount <? maxRetries then [Wait 5000] else []))
               = (Ok (Some last), log ++ exhaustedProbes url (S remaining))
      end).
    { intros hr Hhr.
      specialize (IH (S retryCount) hr
                     (log ++ [HealthProbe url]
                      ++ (if S retryCount <? maxRetries then [Wait 5000] else []))).
      rewrite Hnext in IH. specialize (IH ltac:(lia) Hhr).
      destruct (firstHealthy env remaining (S retryCount)) as [attempt|] eqn:Hfirst.
      - destruct IH as (found & Hfound & Hfok & ->).
        exists found. repeat split; try assumption.
        apply firstHealthy_bound in Hfirst.
        assert ((S retryCount <? maxRetries) = true) as -> by (apply Nat.ltb_lt; lia).
        replace (attempt - retryCount) with (S (attempt - S retryCount)) by lia.
        rewrite failedProbes_S. now rewrite <- !app_assoc.
      - destruct IH as (last & Hlastok & ->).
        exists last. split; [assumption|]. f_equal.
        destruct remaining as [|m].
        + assert ((S retryCount <? maxRetries) = false) as ->
            by (apply Nat.ltb_ge; lia).
          cbn. now rewrite !app_nil_r.
        + assert ((S retryCount <? maxRetries) = true) as ->
            by (apply Nat.ltb_lt; lia).
          cbn [exhaustedProbes]. rewrite failedProbes_S.
          now rewrite <- !app_assoc. }
    destruct (health env retryCount) as [response|error] eqn:Hhealth.
    + destruct (ok response) eqn:Hok.
      * exists response. repeat split; try assumption.
        replace (retryCount - retryCount) with 0 by lia. reflexivity.
      * now apply Hcontinue.
    + now apply Hcontinue.
Qed.

(** *** The submission *)

Lemma isAbortError_readOfNull (property : jsstring) :
  isAbortError (readOfNull property) = false.
Proof. reflexivity. Qed.

Ltac submit_cases env :=
  unfold submit, tryCatch, bind, emit, await, ret, throw, nextResponseJson;
  let response := fresh "response" in
  let error := fresh "error" in
  destruct (parse env) as [response|error] eqn:Hparse;
  [ destruct (ok response) eqn:Hok; cbn [negb];
    [ let success := fresh "success" in
      destruct (json response) as [[|success ? ? ?]|?] eqn:Hjson;
      [ | destruct success | ]
    | destruct (text response) as [?|?] eqn:Htext;
      [ destruct (status response =? 502)%N eqn:H502;
        [ | destruct (status response =? 504)%N eqn:H504;
            [ | destruct (inRange 200 599 (status response)) eqn:Hrange;
                [ destruct (isNullBodyStatus (status response)) eqn:Hnull | ] ] ]
      | ] ]
  | ];
  cbn [negb];
  rewrite ?isAbortError_readOfNull;
  repeat match goal with
         | |- context [isAbortError ?e] =>
             is_var e; let H := fresh "Habort" in destruct (isAbortError e) eqn:H
         end;
  cbn -[app].

(** The submission issues its call, whatever comes of it, and ends with a
    response or an exception. *)
Lemma submit_outcome (env : Env) (url : jsstring) (file : File) (log : list Event) :
  let log' := log ++ [ParseInvoice (url ++ js "/api/v2/parse-invoice/") file] in
  (exists response, submit env url file log = (Ok (Some response), log'))
  \/ (exists error, submit env url file log = (Throw error, log')).
Proof. submit_cases env; eauto. Qed.

(** *** The handler *)

Lemma POST_gate (env : Env) (file : File) (url : jsstring) :
  isAccepted (Some file) = true ->
  orElse nonEmpty (backendUrl env) None = Some url ->
  let probe := url ++ js "/api/v2/health" in
  match firstHealthy env maxRetries 0 with
  | Some attempt =>
      POST env (Some file)
      = match submit env url file (failedProbes probe attempt ++ [HealthProbe probe]) with
        | (Ok outcome, log) => (Ok outcome, log)
        | (Throw error, log) => internalError env error log
        end
  | None =>
      POST env (Some file)
      = (Ok (Some {| http_status := 503;
                     http_body :=
                       ErrorBody
                         (js "Backend service is not accessible after multiple attempts.")
                         (Some unavailableDetails) (Some false) (Some 30%N) |}),
         exhaustedProbes probe maxRetries)
  end.
Proof.
  intros [Htype Hsize]%andb_true_iff Hurl probe.
  apply negb_true_iff in Hsize.
  pose proof (healthLoop_run env probe maxRetries 0 None []) as Hloop.
  rewrite Nat.sub_0_r in Hloop. specialize (Hloop ltac:(lia) I).
  unfold POST, handle, tryCatch, bind.
  rewrite Htype, Hsize, Hurl. cbn [negb]. fold probe.
  destruct (firstHealthy env maxRetries 0) as [attempt|].
  - destruct Hloop as (response & _ & Hok & ->). rewrite Hok. cbn [negb app].
    rewrite Nat.sub_0_r. reflexivity.
  - destruct Hloop as (last & Hlast & ->). cbn [app].
    destruct last as [response|]; [rewrite Hlast|]; reflexivity.
Qed.

Lemma POST_rejected (env : Env) (file : option File) :
  isAccepted file = false ->
  exists message,
    POST env file
    = (Ok (Some {| http_status := 400;
                   http_body := ErrorBody message None None None |}), []).
Proof.
  intros Hrejected. unfold POST, handle, tryCatch.
  destruct file as [file|]; [|eexists; reflexivity].
  cbn [isAccepted] in Hrejected.
  destruct (bool_decide (file_type file = js "application/pdf")); cbn [negb];
    [|eexists; reflexivity].
  cbn [andb] in Hrejected. apply negb_false_iff in Hrejected. rewrite Hrejected.
  eexists; reflexivity.
Qed.

Lemma POST_unconfigured (env : Env) (file : File) :
  isAccepted (Some file) = true ->
  orElse nonEmpty (backendUrl env) None = None ->
  exists body,
    POST env (Some file) = (Ok (Some {| http_status := 500; http_body := body |}), []).
Proof.
  intros [Htype Hsize]%andb_true_iff Hurl. apply negb_true_iff in Hsize.
  unfold POST, handle, tryCatch. rewrite Htype, Hsize, Hurl.
  eexists; reflexivity.
Qed.

Lemma submit_extraction (env : Env) (url : jsstring) (file : File) (log : list Event)
  (response : HttpResponse) :
  successResponse env = Some response ->
  submit env url file log
  = (Ok (Some response), log ++ [ParseInvoice (url ++ js "/api/v2/parse-invoice/") file]).
Proof.
  unfold successResponse, extraction.
  submit_cases env; try discriminate. now intros [= <-].
Qed.

Lemma submit_success (env : Env) (url : jsstring) (file : File) (log log' : list Event)
  (response : HttpResponse) :
  okAgreesWithStatus env ->
  submit env url file log = (Ok (Some response), log') ->
  http_status response = 200%N ->
  successResponse env = Some response.
Proof.
  intros Hagrees. unfold successResponse, extraction.
  pose proof (Hagrees) as Hagrees'. unfold okAgreesWithStatus in Hagrees'.
  submit_cases env; intros [= <- <-]; cbn; try discriminate; try reflexivity.
  intros Hstatus. exfalso.
  specialize (Hagrees' _ eq_refl). rewrite Hok, Hstatus in Hagrees'. discriminate.
Qed.

(** X14.  A missing file, a file that is not a PDF and a file over 5 MB are
    answered with status 400 before anything is sent: no probe, no pause,
    no submission. *)
Theorem single_route_rejects_before_any_call (env : Env) (file : option File) :
  isAccepted file = false ->
  exists message,
    POST env file
    = (Ok (Some {| http_status := 400;
                   http_body := ErrorBody message None None None |}), []).
Proof. apply POST_rejected. Qed.

(** X15.  The availability gate of the single-document route: the health
    probe is tried three times at most, with a pause of five seconds after
    each failed attempt but the last; the file is submitted once, right
    after the first probe that answers with a 2xx status; when the three
    probes fail the route answers 503 and the file is never sent. *)
Theorem single_route_availability_gate (env : Env) (file : File) (url : jsstring) :
  isAccepted (Some file) = true ->
  orElse nonEmpty (backendUrl env) None = Some url ->
  let probe := url ++ js "/api/v2/health" in
  match firstHealthy env maxRetries 0 with
  | Some attempt =>
      attempt < 3
      /\ exists response,
           POST env (Some file)
           = (Ok (Some response),
              failedProbes probe attempt
              ++ [HealthProbe probe;
                  ParseInvoice (url ++ js "/api/v2/parse-invoice/") file])
  | None =>
      exists body,
        POST env (Some file)
        = (Ok (Some {| http_status := 503; http_body := body |}),
           [HealthProbe probe; Wait 5000; HealthProbe probe; Wait 5000;
            HealthProbe probe])
  end.
Proof.
  intros Haccepted Hurl probe.
  pose proof (POST_gate env file url Haccepted Hurl) as Hgate. cbn zeta in Hgate.
  fold probe in Hgate.
  destruct (firstHealthy env maxRetries 0) as [attempt|] eqn:Hfirst.
  - split; [apply firstHealthy_bound in Hfirst; unfold maxRetries in Hfirst; lia|].
    rewrite Hgate.
    destruct (submit_outcome env url file (failedProbes probe attempt ++ [HealthProbe probe]))
      as [[response ->]|[error ->]]; rewrite <- app_assoc; cbn [app].
    + eauto.
    + destruct (internalError_answers env error
                  (failedProbes probe attempt
                   ++ [HealthProbe probe;
                       ParseInvoice (url ++ js "/api/v2/parse-invoice/") file]))
        as (response & -> & _).
      eauto.
  - eexists. rewrite Hgate. reflexivity.
Qed.

(** X16.  The route always answers: whatever the service does, the handler
    returns a response and no exception escapes it. *)
Theorem single_route_always_answers (env : Env) (file : option File) :
  exists response log, POST env file = (Ok (Some response), log).
Proof.
  destruct (isAccepted file) eqn:Haccepted.
  2:{ destruct (POST_rejected env file Haccepted) as [message ->]. eauto. }
  destruct file as [file|]; [|discriminate].
  destruct (orElse nonEmpty (backendUrl env) None) as [url|] eqn:Hurl.
  2:{ destruct (POST_unconfigured env file Haccepted Hurl) as [body ->]. eauto. }
  pose proof (POST_gate env file url Haccepted Hurl) as Hgate. cbn zeta in Hgate.
  destruct (firstHealthy env maxRetries 0) as [attempt|]; [|rewrite Hgate; eauto].
  rewrite Hgate.
  destruct (submit_outcome env url file
              (failedProbes (url ++ js "/api/v2/health") attempt
               ++ [HealthProbe (url ++ js "/api/v2/health")]))
    as [[response ->]|[error ->]]; [eauto|].
  edestruct internalError_answers as (response & -> & _). eauto.
Qed.

(** X17.  The route answers 200 exactly when the file passes the checks,
    the base URL is configured, one of the three probes answers with a 2xx
    status, and the service answers the submission with a 2xx status and a
    body whose [success] is truthy; the response then relays the [data]
    and the [request_id] of that body. *)
Theorem single_route_success_iff (env : Env) (file : option File)
  (response : HttpResponse) :
  okAgreesWithStatus env ->
  (fst (POST env file) = Ok (Some response) /\ http_status response = 200%N)
  <-> (isAccepted file = true
       /\ is_Some (orElse nonEmpty (backendUrl env) None)
       /\ is_Some (firstHealthy env maxRetries 0)
       /\ successResponse env = Some response).
Proof.
  intros Hagrees. split.
  - intros [Hpost Hstatus].
    destruct (isAccepted file) eqn:Haccepted.
    2:{ destruct (POST_rejected env file Haccepted) as [message Heq].
        rewrite Heq in Hpost. cbn in Hpost. injection Hpost as <-. discriminate. }
    destruct file as [file|]; [|discriminate].
    destruct (orElse nonEmpty (backendUrl env) None) as [url|] eqn:Hurl.
    2:{ destruct (POST_unconfigured env file Haccepted Hurl) as [body Heq].
        rewrite Heq in Hpost. cbn in Hpost. injection Hpost as <-. discriminate. }
    pose proof (POST_gate env file url Haccepted Hurl) as Hgate. cbn zeta in Hgate.
    destruct (firstHealthy env maxRetries 0) as [attempt|].
    2:{ rewrite Hgate in Hpost. cbn in Hpost. injection Hpost as <-. discriminate. }
    repeat split; eauto.
    rewrite Hgate in Hpost.
    destruct (submit env url file _) as [[outcome|error] log] eqn:Hsubmit.
    + cbn in Hpost. injection Hpost as ->.
      eapply submit_success; eassumption.
    + destruct (internalError_answers env error log) as (answer & Heq & Hnot).
      rewrite Heq in Hpost. cbn in Hpost. injection Hpost as ->. contradiction.
  - intros (Haccepted & [url Hurl] & [attempt Hattempt] & Hsuccess).
    destruct file as [file|]; [|discriminate].
    pose proof (POST_gate env file url Haccepted Hurl) as Hgate. cbn zeta in Hgate.
    rewrite Hattempt in Hgate. rewrite Hgate.
    rewrite (submit_extraction env url file _ response Hsuccess). cbn.
    split; [reflexivity|].
    unfold successResponse in Hsuccess.
    destruct (extraction env) as [[[message data] request_id]|]; [|discriminate].
    now injection Hsuccess as <-.
Qed.

(** X18.  A refusal of the service is relayed with its status: when the
    gate is passed and the service answers the submission with a status
    that is not 2xx and a readable body, the route answers with that same
    status (502 and 504 included), provided the runtime can build a
    response with it. *)
Theorem single_route_relays_status (env : Env) (file : File) (url : jsstring)
  (attempt : nat) (response : Response) (errorText : jsstring) :
  isAccepted (Some file) = true ->
  orElse nonEmpty (backendUrl env) None = Some url ->
  firstHealthy env maxRetries 0 = Some attempt ->
  parse env = Ok response -> ok response = false ->
  text response = Ok errorText ->
  inRange 200 599 (status response) = true ->
  isNullBodyStatus (status response) = false ->
  statusOf (POST env (Some file)) = Some (status response).
Proof.
  intros Haccepted Hurl Hattempt Hparse_ Hok_ Htext_ Hrange_ Hnull_.
  pose proof (POST_gate env file url Haccepted Hurl) as Hgate. cbn zeta in Hgate.
  rewrite Hattempt in Hgate. unfold statusOf. rewrite Hgate. clear Hgate.
  unfold submit, tryCatch, bind, emit, await, ret, throw, nextResponseJson.
  rewrite Hparse_, Hok_. cbn [negb]. rewrite Htext_.
  destruct (status response =? 502)%N eqn:H502;
    [apply N.eqb_eq in H502; now rewrite H502|].
  destruct (status response =? 504)%N eqn:H504;
    [apply N.eqb_eq in H504; now rewrite H504|].
  now rewrite Hrange_, Hnull_.
Qed.

(** *** Runs *)

Lemma single_route_rejects_before_any_call_witness :
  exists message,
    POST coldStartEnv (Some {| file_name := js "notes.txt"; file_type := js "text/plain";
                               file_size := 12 |})
    = (Ok (Some {| http_status := 400;
                   http_body := ErrorBody message None None None |}), []).
Proof. apply single_route_rejects_before_any_call. reflexivity. Defined.

Lemma single_route_availability_gate_witness :
  exists response,
    POST coldStartEnv (Some invoicePdf)
    = (Ok (Some response),
       [HealthProbe (js "http://backend/api/v2/health"); Wait 5000;
        HealthProbe (js "http://backend/api/v2/health"); Wait 5000;
        HealthProbe (js "http://backend/api/v2/health");
        ParseInvoice (js "http://backend/api/v2/parse-invoice/") invoicePdf]).
Proof.
  pose proof (single_route_availability_gate coldStartEnv invoicePdf (js "http://backend")
                eq_refl eq_refl) as H.
  exact (proj2 H).
Defined.

Lemma single_route_success_iff_witness :
  fst (POST coldStartEnv (Some invoicePdf))
  = Ok (Some {| http_status := 200;
                http_body := Processed (Some StorageExamples.invoice100)
                               (Some (js "req-1"))
                               (js "Invoice processed successfully") |}).
Proof.
  refine (proj1 (proj2 (single_route_success_iff coldStartEnv (Some invoicePdf) _ _) _)).
  - intros response [= <-]. reflexivity.
  - split; [reflexivity|]. split; [eexists; reflexivity|].
    split; [eexists; reflexivity|]. reflexivity.
Defined.

Lemma single_route_relays_status_witness :
  statusOf (POST badGatewayEnv (Some invoicePdf)) = Some 502%N.
Proof.
  exact (single_route_relays_status badGatewayEnv invoicePdf (js "http://backend") 0
           _ (js "Bad Gateway") eq_refl eq_refl eq_refl eq_refl eq_refl eq_refl
           eq_refl eq_refl).
Defined.

End SingleRouteProofs.

(** ** The batch routes: what leaves the server, and the statistics *)

Module BatchRouteProofs.
Import Orchestrator OrchestratorProofs.

#[local] Arguments js : simpl never.
#[local] Arguments decimal : simpl never.

Lemma processAll_statistics (size concurrency : nat) (env : Env) (files : list File)
  (response : HttpResponse) (calls : list NetCall)
  (message : jsstring) (results : list BatchResult) (statistics : Statistics) :
  0 < size -> 0 < concurrency ->
  processAll size concurrency env files = Some (response, calls) ->
  http_body response = BatchReport message results statistics ->
  let batches := chunks (length files) size files in
  statistics = statisticsOf size concurrency files batches results
  /\ exists url,
       calls = HealthCheck (url ++ js "/api/v2/health")
               :: map (ParseMultiple (url ++ js "/api/v2/parse-multiple-invoices/"))
                      batches.
Proof.
  intros Hsize Hconcurrency Hrun Hbody batches. unfold processAll in Hrun.
  destruct files as [|file rest].
  { injection Hrun as <- <-. discriminate. }
  destruct (validateFiles (file :: rest)) as [rejection|] eqn:Hvalid.
  { injection Hrun as <- <-.
    assert (exists m, http_body rejection = ErrorBody m None None) as [m Hm].
    { clear - Hvalid. revert Hvalid.
      induction (file :: rest) as [|f l IH]; cbn [validateFiles]; [discriminate|].
      destruct (negb (bool_decide (file_type f = js "application/pdf")));
        [intros [= <-]; eexists; reflexivity|].
      destruct (maxFileSize <? file_size f)%N;
        [intros [= <-]; eexists; reflexivity|exact IH]. }
    congruence. }
  destruct (orElse nonEmpty (backendUrl env) None) as [url|].
  2:{ injection Hrun as <- <-. discriminate. }
  destruct (health env) as [healthResponse|].
  2:{ injection Hrun as <- <-. discriminate. }
  destruct (negb (ok healthResponse)).
  { injection Hrun as <- <-. discriminate. }
  rewrite createBatches_chunks in Hrun by assumption. fold batches in Hrun.
  rewrite processWaves_run in Hrun by (assumption || lia). rewrite drop_0 in Hrun.
  injection Hrun as <- <-. cbn [http_body] in Hbody.
  injection Hbody as _ <- <-. split; [reflexivity|]. cbn [app]. eauto.
Qed.

(** X19.  In a run that reaches the waves every file leaves the server
    exactly once and in input order: after the one health probe, the calls
    to the extraction service carry batches whose concatenation is the
    submission; no batch is empty or larger than the batch size, and every
    batch but the last is full. *)
Theorem orchestrator_sends_every_file_once (size concurrency : nat) (env : Env)
  (files : list File) :
  0 < size -> 0 < concurrency -> files <> [] -> validateFiles files = None ->
  isReady env = true ->
  exists response url batches,
    processAll size concurrency env files
    = Some (response,
            HealthCheck (url ++ js "/api/v2/health")
            :: map (ParseMultiple (url ++ js "/api/v2/parse-multiple-invoices/")) batches)
    /\ concat batches = files
    /\ Forall (fun batch => 0 < length batch <= size) batches
    /\ forall k batch, batches !! k = Some batch -> S k < length batches ->
         length batch = size.
Proof.
  intros Hsize Hconcurrency Hfiles Hvalid Hready.
  destruct (processAll_report size concurrency env files
              Hsize Hconcurrency Hfiles Hvalid Hready)
    as (message & statistics & url & Hrun).
  eexists _, url, _. split; [exact Hrun|]. split; [|split].
  - now apply concat_chunks.
  - now apply chunks_bounded.
  - intros k batch. apply chunks_full.
Qed.

(** X20.  The statistics of a report count what the report holds: the
    successful and the failed entries add up to the entries of the report,
    [totalFiles] is the number of submitted files, [batchesProcessed] is
    the number of calls made to the extraction service, and for a report
    without entries the total and the average processing time are 0. *)
Theorem orchestrator_statistics_are_consistent (size concurrency : nat) (env : Env)
  (files : list File) (response : HttpResponse) (calls : list NetCall)
  (message : jsstring) (results : list BatchResult) (statistics : Statistics) :
  0 < size -> 0 < concurrency ->
  processAll size concurrency env files = Some (response, calls) ->
  http_body response = BatchReport message results statistics ->
  successfulFiles statistics + failedFiles statistics = length results
  /\ totalFiles statistics = length files
  /\ S (batchesProcessed statistics) = length calls
  /\ batchSize statistics = size
  /\ concurrentBatches statistics = concurrency
  /\ (results = [] ->
      (averageProcessingTime statistics == 0)%Q /\ (totalProcessingTime statistics == 0)%Q).
Proof.
  intros Hsize Hconcurrency Hrun Hbody.
  destruct (processAll_statistics size concurrency env files response calls
              message results statistics Hsize Hconcurrency Hrun Hbody)
    as [-> [url ->]].
  unfold statisticsOf.
  cbn [successfulFiles failedFiles totalFiles batchesProcessed batchSize
       concurrentBatches averageProcessingTime totalProcessingTime].
  split; [apply List.filter_length|]. split; [reflexivity|].
  split; [cbn [length]; now rewrite length_map|].
  split; [reflexivity|]. split; [reflexivity|].
  intros ->. cbn. split; reflexivity.
Qed.

(** X21.  Without a healthy probe no file leaves the server, on either
    batch route: when the files pass the checks, the base URL is configured
    and the health probe throws or answers with a status that is not 2xx,
    the route answers 503 and its only outbound call is the probe. *)
Theorem batch_routes_stop_at_the_gate (size concurrency : nat) (env : Env)
  (forwarding : Forwarder.Env) (files : list File) (url : jsstring) :
  files <> [] -> validateFiles files = None ->
  orElse nonEmpty (backendUrl env) None = Some url ->
  Forwarder.backendUrl forwarding = backendUrl env ->
  Forwarder.health forwarding = health env ->
  match health env with Ok response => ok response = false | Throw _ => True end ->
  exists body body',
    processAll size concurrency env files
    = Some ({| http_status := 503; http_body := body |},
            [HealthCheck (url ++ js "/api/v2/health")])
    /\ Forwarder.POST forwarding files
       = ({| http_status := 503; http_body := body' |},
          [HealthCheck (url ++ js "/api/v2/health")]).
Proof.
  intros Hfiles Hvalid Hurl Hsame Hhealth Hdown.
  unfold processAll, Forwarder.POST. rewrite Hsame, Hhealth.
  destruct files as [|file rest]; [congruence|].
  rewrite Hvalid, Hurl.
  destruct (health env) as [response|error].
  - rewrite Hdown. cbn [negb]. eexists _, _. split; reflexivity.
  - eexists _, _. split; reflexivity.
Qed.


(** *** Runs *)

Lemma orchestrator_sends_every_file_once_witness :
  exists response url batches,
    processAll BATCH_SIZE MAX_CONCURRENT_BATCHES healthyEnv fiveFiles
    = Some (response,
            HealthCheck (url ++ js "/api/v2/health")
            :: map (ParseMultiple (url ++ js "/api/v2/parse-multiple-invoices/")) batches)
    /\ concat batches = fiveFiles.
Proof.
  destruct (orchestrator_sends_every_file_once BATCH_SIZE MAX_CONCURRENT_BATCHES
              healthyEnv fiveFiles)
    as (response & url & batches & Hrun & Hconcat & _);
    [unfold BATCH_SIZE; lia|unfold MAX_CONCURRENT_BATCHES; lia
    |discriminate|reflexivity|reflexivity|].
  eauto.
Defined.

Lemma orchestrator_statistics_are_consistent_witness :
  match processAll BATCH_SIZE MAX_CONCURRENT_BATCHES healthyEnv fiveFiles with
  | Some ({| http_body := BatchReport _ results statistics |}, _) =>
      successfulFiles statistics + failedFiles statistics = length results
      /\ totalFiles statistics = 5
  | _ => False
  end.
Proof.
  destruct (processAll BATCH_SIZE MAX_CONCURRENT_BATCHES healthyEnv fiveFiles)
    as [[[status body] calls]|] eqn:Hrun; [|discriminate Hrun].
  destruct body as [message setupRequired retryAfter|message results statistics
                    |message data]; [discriminate Hrun| |discriminate Hrun].
  destruct (orchestrator_statistics_are_consistent BATCH_SIZE MAX_CONCURRENT_BATCHES
              healthyEnv fiveFiles
              {| http_status := status;
                 http_body := BatchReport message results statistics |}
              calls message results statistics)
    as (Hsum & Htotal & _);
    [unfold BATCH_SIZE; lia|unfold MAX_CONCURRENT_BATCHES; lia|exact Hrun|reflexivity|].
  split; assumption.
Defined.

Lemma batch_routes_stop_at_the_gate_witness :
  exists body body',
    processAll BATCH_SIZE MAX_CONCURRENT_BATCHES BatchRouteSamples.downEnv fiveFiles
    = Some ({| http_status := 503; http_body := body |},
            [HealthCheck (js "http://backend" ++ js "/api/v2/health")])
    /\ Forwarder.POST BatchRouteSamples.downForwarding fiveFiles
       = ({| http_status := 503; http_body := body' |},
          [HealthCheck (js "http://backend" ++ js "/api/v2/health")]).
Proof.
  apply (batch_routes_stop_at_the_gate BATCH_SIZE MAX_CONCURRENT_BATCHES
           BatchRouteSamples.downEnv BatchRouteSamples.downForwarding fiveFiles
           (js "http://backend"));
    [discriminate|reflexivity|reflexivity|reflexivity|reflexivity|reflexivity].
Defined.


End BatchRouteProofs.

(** ** Reading and deleting a record by id *)

Module StorageAdminProofs.
Import Storage StorageProofs StorageAdmin.

#[local] Arguments js : simpl never.

Lemma getInvoiceById_run (w : World) (documentId : jsstring) :
  getInvoiceById documentId w
  = if initialized w then
      match faults w with
      | Some _ :: rest => (Ok None, setFaults rest w)
      | plan => (Ok (withId documentId <$> collection w !! documentId),
                 setFaults (tail plan) w)
      end
    else (Ok None, w).
Proof.
  unfold getInvoiceById, tryCatch, getFirebaseDB, getDoc, storageOperation,
    bind, ret, throw.
  destruct w as [init coll plan clock stamp]. cbn.
  destruct init; cbn; [|reflexivity].
  destruct plan as [|[error|] rest]; cbn; try reflexivity;
    destruct (coll !! documentId); reflexivity.
Qed.

Lemma deleteInvoiceData_run (w : World) (documentId : jsstring) :
  deleteInvoiceData documentId w
  = if initialized w then
      match faults w with
      | Some error :: rest =>
          (Ok {| success := false;
                 message := js "Failed to delete invoice: " ++ errorMessage error |},
           setFaults rest w)
      | plan =>
          (Ok {| success := true; message := js "Invoice deleted successfully" |},
           setCollection (delete documentId (collection w)) (setFaults (tail plan) w))
      end
    else (Ok {| success := false;
                message := js "Failed to delete invoice: "
                           ++ errorMessage notInitialized |}, w).
Proof.
  unfold deleteInvoiceData, tryCatch, getFirebaseDB, deleteDoc, storageOperation,
    bind, ret, throw.
  destruct w as [init coll plan clock stamp]. cbn.
  destruct init; cbn; [|reflexivity].
  destruct plan as [|[error|] rest]; reflexivity.
Qed.

Section Facts.
Context {B : Builtins}.

(** X23.  What a successful commit wrote is what a read by id gives back:
    after [saveInvoiceData] reported success with a document id, a read of
    that id which the store does not refuse returns exactly the document
    stored under it, and that document carries the id, the owner, the
    original file name, the extracted payload and the indexed vendor name
    of the commit. *)
Theorem saved_invoice_is_read_back (w w' : World) (userId filename : jsstring)
  (extractedData : ExtractedInvoice) (fileUrl : option jsstring) (fileSize : option N)
  (result : SaveResult) :
  saveInvoiceData userId filename extractedData fileUrl fileSize w = (Ok result, w') ->
  Storage.success result = true ->
  nextOperationRuns w' = true ->
  exists documentId record,
    Storage.documentId result = Some documentId
    /\ collection w' !! documentId = Some record
    /\ getInvoiceById documentId w' = (Ok (Some record), setFaults (tail (faults w')) w')
    /\ id record = Some documentId
    /\ Storage.userId record = Some userId
    /\ originalFilename record = Some filename
    /\ Storage.extractedData record = Some extractedData
    /\ vendorName record = Some (indexedVendorName extractedData).
Proof.
  intros Hsave Hsuccess Hruns.
  destruct (findExistingInvoice_total w userId filename
              (invoice_metadata extractedData ≫= invoice_number))
    as (existing & remaining & Hfind & _).
  rewrite (saveInvoiceData_run _ _ _ _ _ _ _ _ Hfind) in Hsave.
  destruct (initialized w) eqn:Hinit.
  2:{ injection Hsave as <- _. discriminate. }
  assert (Hread : forall plan,
    let documentId := chosenDocumentId existing userId filename (now w) in
    let data := invoiceDataFor existing documentId userId filename extractedData
                  fileUrl fileSize in
    let world := setCollection (<[documentId := written w documentId data]> (collection w))
                   (setFaults plan w) in
    nextOperationRuns world = true ->
    getInvoiceById documentId world
    = (Ok (Some (written w documentId data)), setFaults (tail (faults world)) world)).
  { intros plan documentId data world Hplan. rewrite getInvoiceById_run.
    subst world. cbn [initialized setCollection setFaults faults collection] in *.
    rewrite Hinit. unfold nextOperationRuns in Hplan. cbn [faults setCollection setFaults] in Hplan.
    rewrite lookup_insert_eq.
    destruct plan as [|[error|] rest]; try discriminate; reflexivity. }
  destruct (undefinedProperty savedProperties _) as [property|].
  { injection Hsave as <- _. discriminate. }
  destruct remaining as [|[error|] rest]; injection Hsave as <- <-;
    try discriminate.
  all: eexists _, _; split; [reflexivity|].
  all: split; [cbn; apply lookup_insert_eq|].
  all: split; [apply Hread; exact Hruns|].
  all: repeat split.
Qed.

End Facts.

(** X24.  Deleting by id never throws and removes one document at most:
    when it reports success the document is gone and every other document
    is as before; when it reports failure the collection is untouched. *)
Theorem deleteInvoiceData_removes_one (w : World) (documentId : jsstring) :
  exists result w',
    deleteInvoiceData documentId w = (Ok result, w')
    /\ if success result then
         collection w' !! documentId = None
         /\ (forall other, other <> documentId ->
               collection w' !! other = collection w !! other)
         /\ getInvoiceById documentId (setFaults [] w') = (Ok None, setFaults [] w')
       else collection w' = collection w.
Proof.
  rewrite deleteInvoiceData_run.
  destruct (initialized w) eqn:Hinit; [|eexists _, _; split; reflexivity].
  assert (Hgone : forall plan,
    let w' := setCollection (delete documentId (collection w)) (setFaults plan w) in
    collection w' !! documentId = None
    /\ (forall other, other <> documentId ->
          collection w' !! other = collection w !! other)
    /\ getInvoiceById documentId (setFaults [] w') = (Ok None, setFaults [] w')).
  { intros plan w'. subst w'. cbn [collection setCollection setFaults].
    split; [apply lookup_delete_eq|]. split.
    - intros other Hother. now apply lookup_delete_ne.
    - rewrite getInvoiceById_run. cbn. rewrite Hinit, lookup_delete_eq. reflexivity. }
  destruct (faults w) as [|[error|] rest]; eexists _, _; (split; [reflexivity|]); cbn [success].
  - apply Hgone.
  - reflexivity.
  - apply Hgone.
Qed.

(** X25.  A read by id never throws and leaves the collection as it is; it
    gives null when the store is not initialised, when the read is
    refused, and when there is no document under the id. *)
Theorem getInvoiceById_swallows_errors (w : World) (documentId : jsstring) :
  exists found w',
    getInvoiceById documentId w = (Ok found, w')
    /\ collection w' = collection w
    /\ (initialized w = false \/ nextOperationRuns w = false
        \/ collection w !! documentId = None -> found = None)
    /\ (forall record, found = Some record ->
          id record = Some documentId
          /\ exists stored, collection w !! documentId = Some stored
                            /\ record = withId documentId stored).
Proof.
  rewrite getInvoiceById_run. unfold nextOperationRuns.
  destruct w as [init coll plan clock stamp]. cbn.
  destruct init; [|eexists _, _; repeat split; try discriminate; reflexivity].
  destruct plan as [|[error|] rest]; eexists _, _; (split; [reflexivity|]); cbn.
  1,3: split; [reflexivity|]; split;
       [intros [|[|Hnone]]; try discriminate; now rewrite Hnone|];
       intros record Hfound; destruct (coll !! documentId) as [stored|];
       [injection Hfound as <-; split; [reflexivity|eauto]|discriminate].
  split; [reflexivity|]. split; [reflexivity|]. discriminate.
Qed.

Lemma saved_invoice_is_read_back_witness :
  exists record,
    getInvoiceById (js "U_a_pdf_1700000000000")
      (snd (saveInvoiceData (B := LatinBuiltins) StorageExamples.ownerU (js "a.pdf")
              StorageExamples.invoice100 StorageExamples.fileUrlA
              StorageExamples.fileSizeA StorageExamples.emptyWorld))
    = (Ok (Some record),
       snd (saveInvoiceData (B := LatinBuiltins) StorageExamples.ownerU (js "a.pdf")
              StorageExamples.invoice100 StorageExamples.fileUrlA
              StorageExamples.fileSizeA StorageExamples.emptyWorld))
    /\ vendorName record = Some (js "Acme Inc").
Proof.
  destruct (saved_invoice_is_read_back (B := LatinBuiltins)
              StorageExamples.emptyWorld _ StorageExamples.ownerU (js "a.pdf")
              StorageExamples.invoice100 StorageExamples.fileUrlA
              StorageExamples.fileSizeA _ (surjective_pairing _) eq_refl eq_refl)
    as (documentId & record & Hid & _ & Hread & _ & _ & _ & _ & Hvendor).
  injection Hid as <-. exists record. split; [exact Hread|exact Hvendor].
Defined.

End StorageAdminProofs.

(** ** Lazy initialization of the service clients *)

Module FirebaseProofs.
Import Firebase.

#[local] Arguments js : simpl never.

(** A call leaves a state that is not initialized, or one that is complete. *)
Lemma initializeFirebase_complete (env : Env) (s : State) :
  (isInitialized s = true -> complete s) ->
  isInitialized (snd (initializeFirebase env s)) = true ->
  complete (snd (initializeFirebase env s)).
Proof.
  intros Hs. unfold initializeFirebase.
  destruct (isInitialized s) eqn:Hinit; [intros _; now apply Hs|].
  unfold attempt, tryCatch, bind, await, assign, ret, throw.
  destruct (hasWindow env); cbn [negb]; [|cbn; congruence].
  destruct (negb _ || negb _); [cbn; congruence|].
  destruct (initializeApp env) as [a|e]; [|cbn; congruence].
  destruct (getAuth env) as [u|e]; [|cbn; congruence].
  destruct (getFirestore env) as [d|e]; [|cbn; congruence].
  destruct (getStorage env) as [t|e]; [|cbn; congruence].
  cbn. intros _. unfold complete. cbn. repeat split; eauto.
Qed.

Lemma reachable_complete (s : State) :
  reachable s -> isInitialized s = true -> complete s.
Proof.
  induction 1 as [|env s Hs IH]; [discriminate|].
  now apply initializeFirebase_complete.
Qed.

(** X26.  Once [isFirebaseInitialized] has answered true, the clients are
    there for good: after any history of calls, if the module reports
    itself initialized, every later call, in whatever environment, leaves
    the state as it is and returns the same four clients, none of them
    null, and no error. *)
Theorem initialized_clients_are_stable (s : State) (env later : Env) :
  reachable s ->
  fst (isFirebaseInitialized env s) = true ->
  let s' := snd (isFirebaseInitialized env s) in
  initializeFirebase later s' = (clients s', s')
  /\ is_Some (fst (getFirebaseApp later s'))
  /\ is_Some (fst (getFirebaseAuth later s'))
  /\ is_Some (fst (getFirebaseDB later s'))
  /\ is_Some (fst (getFirebaseStorage later s'))
  /\ fst (getFirebaseInitializationError later s') = None.
Proof.
  intros Hreach Htrue.
  pose proof (reachable_call env s Hreach) as Hreach'.
  unfold isFirebaseInitialized, getFirebaseApp, getFirebaseAuth, getFirebaseDB,
    getFirebaseStorage, getFirebaseInitializationError in *.
  destruct (initializeFirebase env s) as [result s'] eqn:Hcall.
  cbn [fst snd] in *. apply andb_true_iff in Htrue as [_ Hinit].
  destruct (reachable_complete s' Hreach' Hinit) as (Ha & Hu & Hd & Ht & He).
  assert (Hlater : initializeFirebase later s' = (clients s', s')).
  { unfold initializeFirebase. now rewrite Hinit. }
  rewrite Hlater. cbn. repeat split; assumption.
Qed.

(** X27.  A failed initialization leaves the clients it had created: in a
    browser with its configuration, when the SDK gives the app, the
    authentication and the database and then fails on the file storage,
    the module is not initialized and holds the error, and yet
    [getFirebaseDB] returns the database client, in that call and in every
    later call that fails in the same way. *)
Theorem failed_initialization_keeps_clients (s : State) (env : Env)
  (a u d : Handle) (failure : Thrown) :
  isInitialized s = false ->
  hasWindow env = true ->
  is_Some (orElse nonEmpty (NEXT_PUBLIC_FIREBASE_API_KEY env) None) ->
  is_Some (orElse nonEmpty (NEXT_PUBLIC_FIREBASE_PROJECT_ID env) None) ->
  initializeApp env = Ok a -> getAuth env = Ok u -> getFirestore env = Ok d ->
  getStorage env = Throw failure ->
  let s' := snd (getFirebaseDB env s) in
  fst (getFirebaseDB env s) = Some d
  /\ fst (isFirebaseInitialized env s') = false
  /\ is_Some (fst (getFirebaseInitializationError env s'))
  /\ fst (getFirebaseDB env s') = Some d
  /\ storage s' = storage s.
Proof.
  intros Hinit Hwindow Hkey Hproject Happ Hauth Hdb Hstorage.
  assert (Hcall : forall s0, isInitialized s0 = false ->
    exists stored,
      initializeFirebase env s0
      = (clients (setError stored (setDb d (setAuth u (setApp a s0)))),
         setError stored (setDb d (setAuth u (setApp a s0))))).
  { intros s0 H0. unfold initializeFirebase. rewrite H0.
    unfold attempt, tryCatch, bind, await, assign, ret, throw.
    rewrite Hwindow, Happ, Hauth, Hdb, Hstorage.
    rewrite !bool_decide_eq_true_2 by assumption. cbn [negb orb].
    eexists. reflexivity. }
  unfold getFirebaseDB, isFirebaseInitialized, getFirebaseInitializationError.
  destruct (Hcall s Hinit) as [stored ->]. cbn [fst snd the_db clients db setError setDb].
  destruct (Hcall (setError stored (setDb d (setAuth u (setApp a s)))) Hinit)
    as [stored' ->].
  cbn. repeat split; eauto.
Qed.

Lemma initialized_clients_are_stable_witness :
  fst (getFirebaseDB storageFailsEnv
         (snd (isFirebaseInitialized browserEnv initialState)))
  = Some (handle 3).
Proof.
  destruct (initialized_clients_are_stable initialState browserEnv storageFailsEnv
              reachable_initial eq_refl) as (Hstable & _).
  unfold getFirebaseDB. rewrite Hstable. reflexivity.
Defined.

Lemma failed_initialization_keeps_clients_witness :
  fst (getFirebaseDB storageFailsEnv initialState) = Some (handle 3)
  /\ fst (isFirebaseInitialized storageFailsEnv
            (snd (getFirebaseDB storageFailsEnv initialState))) = false.
Proof.
  destruct (failed_initialization_keeps_clients initialState storageFailsEnv
              (handle 1) (handle 2) (handle 3)
              (JsError (js "FirebaseError") (js "storage/unknown"))
              eq_refl eq_refl (mk_is_Some _ _ eq_refl) (mk_is_Some _ _ eq_refl)
              eq_refl eq_refl eq_refl eq_refl)
    as (H1 & H2 & _).
  split; assumption.
Defined.

End FirebaseProofs.

(** ** The dashboard *)

Module DashboardProofs.
Import Orchestrator Dashboard.

#[local] Arguments js : simpl never.

(** *** Pages *)

Lemma ceilOfQuotient_spec (n : nat) :
  let t := ceilOfQuotient (Z.of_nat n) INVOICES_PER_PAGE in
  (0 <= t)%Z /\ (Z.of_nat n <= 10 * t)%Z /\ (10 * t < Z.of_nat n + 10)%Z.
Proof.
  unfold ceilOfQuotient, INVOICES_PER_PAGE. cbn zeta.
  pose proof (Z.div_mod (- Z.of_nat n) 10 ltac:(lia)) as Hdiv.
  pose proof (Z.mod_pos_bound (- Z.of_nat n) 10 ltac:(lia)) as Hmod.
  lia.
Qed.

Lemma page_take_drop {A} (invoices : list A) (i : nat) :
  currentInvoices (filteredInvoicesPagination invoices (Z.of_nat (S i)))
  = take 10 (drop (i * 10) invoices).
Proof.
  unfold filteredInvoicesPagination, slice, INVOICES_PER_PAGE. cbn [currentInvoices].
  set (n := length invoices).
  replace ((Z.of_nat (S i) - 1) * 10)%Z with (Z.of_nat (i * 10)) by lia.
  destruct (Z.ltb_spec (Z.of_nat (i * 10)) 0) as [Hneg|_]; [lia|].
  destruct (Z.ltb_spec (Z.min (Z.of_nat (i * 10) + 10) (Z.of_nat n)) 0) as [Hneg|_]; [lia|].
  destruct (le_lt_dec (i * 10) n) as [Hle|Hgt].
  - replace (Z.to_nat (Z.min (Z.of_nat (i * 10)) (Z.of_nat n))) with (i * 10) by lia.
    replace (Z.to_nat _) with (Nat.min 10 (n - i * 10)) by lia.
    subst n. rewrite <- (length_drop invoices (i * 10)).
    generalize (drop (i * 10) invoices). intros l.
    destruct (le_lt_dec 10 (length l)) as [H10|H10].
    + now rewrite Nat.min_l.
    + rewrite Nat.min_r by lia. now rewrite !take_ge by lia.
  - replace (Z.to_nat (Z.min (Z.of_nat (i * 10)) (Z.of_nat n))) with n by lia.
    rewrite !drop_ge by (unfold n; lia). now rewrite !take_nil.
Qed.

Lemma pages_concat {A} (invoices : list A) (t : nat) :
  concat (map (fun p => currentInvoices (filteredInvoicesPagination invoices p))
              (map (fun i => Z.of_nat (S i)) (seq 0 t)))
  = take (t * 10) invoices.
Proof.
  induction t as [|t IH]; [reflexivity|].
  rewrite seq_S, !map_app, concat_app, IH. cbn [map concat Nat.add].
  rewrite page_take_drop, app_nil_r, take_take_drop. f_equal. lia.
Qed.

(** X28.  The pages of the table cut the list without loss: the pages
    [1 .. totalPages], one after the other, give the invoices in their
    order; every page before the last holds ten, the last at least one, and
    a page number beyond the last gives an empty page. *)
Theorem pagination_partitions_the_list {A} (invoices : list A) :
  let page := filteredInvoicesPagination invoices in
  let last := totalPages (page 1%Z) in
  concat (map (fun p => currentInvoices (page p)) (pageNumbers last)) = invoices
  /\ (forall p, (1 <= p < last)%Z -> length (currentInvoices (page p)) = 10)
  /\ (forall p, (1 <= p)%Z -> p = last ->
        1 <= length (currentInvoices (page p)) <= 10)
  /\ (forall p, (last < p)%Z -> currentInvoices (page p) = []).
Proof.
  cbn zeta.
  change (totalPages (filteredInvoicesPagination invoices 1))
    with (ceilOfQuotient (Z.of_nat (length invoices)) INVOICES_PER_PAGE).
  pose proof (ceilOfQuotient_spec (length invoices)) as (Hpos & Hlow & Hhigh).
  cbn zeta in Hpos, Hlow, Hhigh.
  set (t := ceilOfQuotient _ _) in *.
  assert (Hpage : forall p, (1 <= p)%Z ->
            currentInvoices (filteredInvoicesPagination invoices p)
            = take 10 (drop ((Z.to_nat p - 1) * 10) invoices)).
  { intros p Hp. rewrite <- (page_take_drop invoices (Z.to_nat p - 1)).
    do 2 f_equal. lia. }
  split; [|split; [|split]].
  - unfold pageNumbers. rewrite pages_concat. apply take_ge. lia.
  - intros p Hp. rewrite Hpage by lia. rewrite length_take, length_drop. lia.
  - intros p Hp ->. rewrite Hpage by lia. rewrite length_take, length_drop. lia.
  - intros p Hp. rewrite Hpage by lia. rewrite drop_ge by lia. apply take_nil.
Qed.

(** *** The selection of the upload dialog *)

Lemma validateFiles_valid (files : list File) :
  Forall valid files -> validateFiles files = None.
Proof.
  induction 1 as [|file rest [Htype Hsize] _ IH]; [reflexivity|].
  cbn [validateFiles]. rewrite bool_decide_eq_true_2 by assumption. cbn [negb].
  unfold maxFileSize. destruct (N.ltb_spec (5 * 1024 * 1024) (file_size file)); [lia|].
  exact IH.
Qed.

Lemma removeAt_Forall {A} (P : A -> Prop) (index : nat) (items : list A) :
  Forall P items -> Forall P (removeAt index items).
Proof.
  intros H. revert index. induction H as [|item rest Hitem Hrest IH]; intros [|index];
    cbn; auto.
Qed.

Lemma takeFiles_files (files : list File) (d : Dialog) :
  exists validFiles,
    uploadedFiles (takeFiles files d) = uploadedFiles d ++ validFiles
    /\ Forall valid validFiles.
Proof.
  unfold takeFiles.
  set (pdfFiles := filter _ files).
  set (validFiles := filter (fun file => (file_size file <= _)%N) pdfFiles).
  assert (Hvalid : Forall valid validFiles).
  { apply Forall_forall. intros file Hfile.
    apply list_elem_of_filter in Hfile as [Hsize Hfile].
    apply list_elem_of_filter in Hfile as [Htype _]. split; assumption. }
  destruct (0 <? length validFiles)%nat eqn:Hsome.
  - exists validFiles. split; [|assumption].
    repeat match goal with |- context [if ?b then _ else _] => destruct b end;
      reflexivity.
  - exists []. split; [|constructor]. rewrite app_nil_r.
    repeat match goal with |- context [if ?b then _ else _] => destruct b end;
      reflexivity.
Qed.

Lemma act_valid (d : Dialog) (action : Action) :
  Forall valid (uploadedFiles d) -> Forall valid (uploadedFiles (act d action)).
Proof.
  intros Hd. destruct action as [[files|]|files|index|]; cbn [act].
  - unfold handleFileSelect. cbn [uploadedFiles setFileInputKey].
    destruct (takeFiles_files files d) as (validFiles & -> & Hvalid).
    now apply Forall_app.
  - exact Hd.
  - unfold handleModalDrop.
    destruct (takeFiles_files files d) as (validFiles & -> & Hvalid).
    now apply Forall_app.
  - cbn. now apply removeAt_Forall.
  - constructor.
Qed.

Lemma dialog_valid (actions : list Action) (d : Dialog) :
  Forall valid (uploadedFiles d) ->
  Forall valid (uploadedFiles (fold_left act actions d)).
Proof.
  revert d. induction actions as [|action actions IH]; intros d Hd; [exact Hd|].
  cbn [fold_left]. apply IH. now apply act_valid.
Qed.

Lemma existsb_oversized (files : list File) :
  Forall valid files ->
  existsb (fun file => (5 * 1024 * 1024 <? file_size file)%N) files = false.
Proof.
  induction 1 as [|file rest [_ Hsize] _ IH]; [reflexivity|].
  cbn [existsb]. rewrite IH. destruct (N.ltb_spec (5 * 1024 * 1024) (file_size file)); [lia|].
  reflexivity.
Qed.

(** X29.  The dialog never holds a file that the routes would refuse:
    whatever the user selects, drops, removes or closes, the selected files
    pass the validation of the routes.  The flag that disables the button
    follows the last selection and not the list: a drop that contains a PDF
    over the cap raises it although no such file is kept, and removing any
    file, even at an index that does not exist, clears it. *)
Theorem dialog_keeps_valid_files (actions : list Action) :
  let d := fold_left act actions initialDialog in
  validateFiles (uploadedFiles d) = None
  /\ (forall files file,
        file ∈ files -> file_type file = js "application/pdf" ->
        (5 * 1024 * 1024 < file_size file)%N ->
        hasOversizedFiles (handleModalDrop files d) = true
        /\ validateFiles (uploadedFiles (handleModalDrop files d)) = None)
  /\ (forall index, hasOversizedFiles (removeFile index d) = false).
Proof.
  cbn zeta.
  pose proof (dialog_valid actions initialDialog (Forall_nil_2 _)) as Hd.
  set (d := fold_left act actions initialDialog) in *.
  split; [now apply validateFiles_valid|]. split.
  - intros files file Hin Htype Hsize. split.
    + unfold handleModalDrop, takeFiles.
      set (pdfFiles := filter _ files).
      set (oversizedFiles := filter (fun file => (_ < file_size file)%N) pdfFiles).
      assert (Hover : file ∈ oversizedFiles).
      { apply list_elem_of_filter. split; [exact Hsize|].
        apply list_elem_of_filter. split; assumption. }
      destruct oversizedFiles as [|first others]; [inversion Hover|].
      cbn [length Nat.ltb Nat.leb].
      repeat match goal with |- context [if ?b then _ else _] => destruct b end;
        reflexivity.
    + apply validateFiles_valid. apply (act_valid d (DropFiles files)), Hd.
  - intros index. cbn. apply existsb_oversized. now apply removeAt_Forall.
Qed.

(** *** The export to CSV *)

Lemma includes_one (c : N) (str : jsstring) :
  Forwarder.includes [c] str = existsb (fun b => (c =? b)%N) str.
Proof.
  induction str as [|b str IH]; [reflexivity|].
  cbn [Forwarder.includes Forwarder.startsWith existsb]. now rewrite IH, andb_true_r.
Qed.

Lemma read_unquoted_end (value : jsstring) line lines (rest : jsstring) :
  delimited rest ->
  readCsv Unquoted value line lines rest = afterValue value line lines rest.
Proof.
  destruct rest as [|c rest]; [reflexivity|]. intros [-> | ->]; reflexivity.
Qed.

Lemma read_start_end line lines (rest : jsstring) :
  delimited rest ->
  readCsv ValueStart [] line lines rest = afterValue [] line lines rest.
Proof.
  destruct rest as [|c rest]; [reflexivity|]. intros [-> | ->]; reflexivity.
Qed.

Lemma read_quote_seen_end (value : jsstring) line lines (rest : jsstring) :
  delimited rest ->
  readCsv QuoteSeen value line lines rest = afterValue value line lines rest.
Proof.
  destruct rest as [|c rest]; [reflexivity|]. intros [-> | ->]; reflexivity.
Qed.

Lemma read_unquoted (str value : jsstring) line lines (rest : jsstring) :
  existsb (fun b => (44 =? b)%N) str = false ->
  existsb (fun b => (34 =? b)%N) str = false ->
  existsb (fun b => (10 =? b)%N) str = false ->
  delimited rest ->
  readCsv Unquoted value line lines (str ++ rest)
  = afterValue (value ++ str) line lines rest.
Proof.
  intros Hcomma Hquote Hfeed Hrest. revert value Hcomma Hquote Hfeed.
  induction str as [|c str IH]; intros value Hcomma Hquote Hfeed.
  - rewrite app_nil_r. now apply read_unquoted_end.
  - cbn [existsb] in *.
    apply orb_false_iff in Hcomma as [Hc1 Hcomma], Hquote as [Hc2 Hquote],
      Hfeed as [Hc3 Hfeed].
    cbn [app readCsv]. rewrite (N.eqb_sym c 44), Hc1, (N.eqb_sym c 10), Hc3,
      (N.eqb_sym c 34), Hc2.
    rewrite IH by assumption. now rewrite <- app_assoc.
Qed.

Lemma read_quoted (str value : jsstring) line lines (rest : jsstring) :
  readCsv Quoted value line lines
    (flat_map (fun c => if (c =? 34)%N then dquote ++ dquote else [c]) str
     ++ dquote ++ rest)
  = readCsv QuoteSeen (value ++ str) line lines rest.
Proof.
  revert value. induction str as [|c str IH]; intros value.
  - rewrite app_nil_r. reflexivity.
  - cbn [flat_map]. destruct (N.eqb_spec c 34) as [->|Hc].
    + cbn [dquote app readCsv N.eqb Pos.eqb]. rewrite IH. now rewrite <- app_assoc.
    + cbn [app readCsv]. rewrite (proj2 (N.eqb_neq c 34) Hc).
      rewrite IH. now rewrite <- app_assoc.
Qed.

Lemma read_value (str : jsstring) line lines (rest : jsstring) :
  delimited rest ->
  readCsv ValueStart [] line lines (escapeCSV (Some str) ++ rest)
  = afterValue str line lines rest.
Proof.
  intros Hrest. unfold escapeCSV.
  change (js ",") with [44%N]. unfold dquote at 1. rewrite !includes_one.
  destruct (existsb (fun b => (44 =? b)%N) str) eqn:Hcomma;
    [|destruct (existsb (fun b => (34 =? b)%N) str) eqn:Hquote;
      [|destruct (existsb (fun b => (10 =? b)%N) str) eqn:Hfeed]];
    cbn [orb].
  1-3: unfold dquote at 1; cbn [app readCsv N.eqb Pos.eqb];
       rewrite <- app_assoc, read_quoted; now apply read_quote_seen_end.
  destruct str as [|c str]; [now apply read_start_end|].
  cbn [existsb] in *.
  apply orb_false_iff in Hcomma as [Hc1 Hcomma], Hquote as [Hc2 Hquote],
    Hfeed as [Hc3 Hfeed].
  cbn [app readCsv]. rewrite (N.eqb_sym c 44), Hc1, (N.eqb_sym c 10), Hc3,
    (N.eqb_sym c 34), Hc2.
  now apply read_unquoted.
Qed.

Lemma read_values (value : jsstring) (values : list jsstring) line lines
  (rest : jsstring) :
  lineEnd rest ->
  readCsv ValueStart [] line lines
    (DataUtils.join [44%N] (map (fun v => escapeCSV (Some v)) (value :: values)) ++ rest)
  = afterLine (line ++ value :: values) lines rest.
Proof.
  intros Hrest. revert value line.
  induction values as [|next values IH]; intros value line.
  - cbn [map DataUtils.join concat]. rewrite app_nil_r.
    rewrite read_value by (destruct rest; [exact I|right; exact Hrest]).
    destruct rest as [|c rest]; [reflexivity|]. cbn in Hrest. subst c. reflexivity.
  - specialize (IH next (line ++ [value])).
    cbn [map DataUtils.join concat] in *.
    rewrite <- !app_assoc. rewrite read_value by (left; reflexivity).
    rewrite <- app_assoc in IH. unfold afterValue. cbn [app] in IH |- *.
    rewrite N.eqb_refl, IH. now rewrite <- app_assoc.
Qed.

Lemma csvLine_join (row : ExportRow) :
  csvLine row = DataUtils.join [44%N] (map (fun v => escapeCSV (Some v)) (cells row)).
Proof.
  unfold csvLine, cells. change (js ",") with [44%N].
  cbn [map DataUtils.join concat]. now rewrite <- !app_assoc, app_nil_r.
Qed.

Lemma read_line (row : ExportRow) lines (rest : jsstring) :
  lineEnd rest ->
  readCsv ValueStart [] [] lines (csvLine row ++ rest) = afterLine (cells row) lines rest.
Proof.
  intros Hrest. rewrite csvLine_join. unfold cells.
  now rewrite (read_values _ _ [] lines rest Hrest).
Qed.

Lemma read_lines (row : ExportRow) (rows : list ExportRow) lines :
  readCsv ValueStart [] [] lines (DataUtils.join [10%N] (map csvLine (row :: rows)))
  = Some (lines ++ map cells (row :: rows)).
Proof.
  revert row lines. induction rows as [|next rows IH]; intros row lines.
  - cbn [map DataUtils.join concat]. now rewrite (read_line row lines [] I).
  - specialize (IH next (lines ++ [cells row])).
    cbn [map DataUtils.join concat] in *.
    rewrite <- (app_assoc [10%N]). cbn [app] in IH |- *.
    rewrite (read_line row lines (_ :: _) eq_refl).
    unfold afterLine. rewrite IH. now rewrite <- app_assoc.
Qed.

Lemma cells_inj (row row' : ExportRow) : cells row = cells row' -> row = row'.
Proof. destruct row, row'. cbn. intros [=]. now subst. Qed.

Lemma cells_all_inj (rows rows' : list ExportRow) :
  map cells rows = map cells rows' -> rows = rows'.
Proof.
  revert rows'. induction rows as [|r l IH]; intros [|r' l'] Hcells; cbn [map] in Hcells;
    try discriminate Hcells; [reflexivity|].
  apply (inj2 cons) in Hcells as [Hr Hl].
  f_equal; [now apply cells_inj|now apply IH].
Qed.

Lemma csvLine_not_empty (row : ExportRow) (rest : jsstring) : csvLine row ++ rest <> [].
Proof.
  intros Hempty. apply app_eq_nil in Hempty as [Hempty _]. unfold csvLine in Hempty.
  apply app_eq_nil in Hempty as [_ Hempty]. apply app_eq_nil in Hempty as [Hcomma _].
  discriminate Hcomma.
Qed.

(** X30.  The text of the export determines the table: two lists of rows
    that differ in any value give different texts, whatever commas, quotes
    and line feeds the values hold. *)
Theorem csvContent_determines_rows (rows rows' : list ExportRow) :
  rows <> rows' -> csvContent rows <> csvContent rows'.
Proof.
  intros Hdiffer Hsame. apply Hdiffer. unfold csvContent in Hsame.
  do 4 apply app_inv_head in Hsame.
  destruct rows as [|row rows], rows' as [|row' rows'].
  - reflexivity.
  - symmetry in Hsame. cbn [map DataUtils.join] in Hsame.
    now apply csvLine_not_empty in Hsame.
  - cbn [map DataUtils.join] in Hsame. now apply csvLine_not_empty in Hsame.
  - pose proof (read_lines row rows []) as Hread. rewrite Hsame, read_lines in Hread.
    apply (inj Some) in Hread. apply cells_all_inj. symmetry. exact Hread.
Qed.

(** *** Runs *)

Lemma dialog_keeps_valid_files_witness :
  hasOversizedFiles
    (handleModalDrop [scan] (fold_left act [DropFiles [pdf "a.pdf"]] initialDialog))
  = true
  /\ validateFiles
       (uploadedFiles
          (handleModalDrop [scan]
             (fold_left act [DropFiles [pdf "a.pdf"]] initialDialog)))
     = None.
Proof.
  destruct (dialog_keeps_valid_files [DropFiles [pdf "a.pdf"]]) as (_ & Hdrop & _).
  apply (Hdrop [scan] scan); [apply list_elem_of_here|reflexivity|reflexivity].
Defined.

Lemma csvContent_determines_rows_witness :
  [sampleRow] <> [] /\ csvContent [sampleRow] <> csvContent [].
Proof.
  split; [discriminate|]. apply csvContent_determines_rows. discriminate.
Defined.

End DashboardProofs.
